(** * submit_to_google_play.py: the publishing transaction, verified

    A shallow embedding of [upload_to_google_play] from
    [src/submit_to_google_play.py] and the properties of its publishing
    protocol: the order of the remote operations, the release descriptor sent
    to the track update, the resumable upload loop and the early exit on a
    missing credentials file.

    Python floats are IEEE 754 binary64 numbers, which is what Rocq's
    primitive [float] is; dictionaries are [gmap string pyval]; everything
    the script asks of the outside world (the file system, the Google client
    library, the Play Developer API) is a field of a [Library] record that
    threads an abstract [World] and may raise.

    What the embedding leaves out or fixes:
    - [print] is a step that may raise. The console is the one the process
      was started with, the same for the whole run: it takes what is written
      to it or it does not ([OSError]), and its encoding has a character or
      it has not ([UnicodeEncodeError]); ASCII every encoding has. Of a line
      the model keeps the characters, those of the values written into it
      included; of a number it keeps that its digits are ASCII. A line that
      is written leaves no event on the trace, except the progress line of
      the upload loop, which is ASCII and is written after line 126 was, so
      that the console takes it;
    - the credentials, the service, the media and the request objects are
      opaque to the script, which only hands them back to the library, so
      their calls answer with [unit];
    - the arguments have the types of their annotations. [main] passes the
      [int] 100 when [--rollout] is absent, and [100 < 100] and
      [100.0 < 100] agree;
    - the [while] loop takes fuel, one unit a turn: a call that runs out of
      it [Diverges], and what is proved of the trace holds at every fuel,
      that is, of every finite stretch of a loop that never ends.

    The rest of the script, [get_package_name], [find_aab_file] and [main],
    is embedded too, with what it asks of the file system in a [Files]
    record. There
    - a [string] is a sequence of characters, each an [ascii]: the text of a
      file as [read()] returns it, of code points below 256;
    - [re.search] is the matcher [Re.search], written for the fragment of
      [re] the two patterns of [get_package_name] use;
    - paths are joined as [posixpath.join] joins them;
    - [parser.parse_args()] is one step: it hands over the
      [argparse.Namespace] of the command line, or leaves the process with
      status 0 after the help text or with status 2 after a usage error;
    - the value of [main] is the status the process exits with through
      [sys.exit]; an exception nothing catches leaves [main] as it was
      raised. *)

From Stdlib Require Import ZArith Floats Lia.
From stdpp Require Import gmap strings list.
From Stdlib Require Import Ascii.

Set Warnings "-register-all".

(** ** Python values, exceptions and floats *)

Module Py.

(** What a statement can do: fall through with a value, raise, or never
    come back (a loop that is still running when the fuel is spent, or a
    library call that hangs). *)
Inductive exn :=
| Exception (msg : string)       (* caught by [except Exception] *)
| BaseException (msg : string).  (* KeyboardInterrupt, SystemExit, ... *)
(** [msg] is the text of the exception, [str(e)]. *)

Inductive outcome (A : Type) :=
| Returns (a : A)
| Raises (e : exn)
| Diverges.
Arguments Returns {A} a.
Arguments Raises {A} e.
Arguments Diverges {A}.

Definition returned {A} (o : outcome A) : bool :=
  match o with Returns _ => true | _ => false end.

(** JSON-like values, as the client library hands them to the script and
    as the script hands them back. *)
Inductive pyval :=
| PyNone
| PyBool (b : bool)
| PyInt (z : Z)
| PyFloat (f : float)
| PyStr (s : string)
| PyList (l : list pyval)
| PyDict (d : gmap string pyval).

(** [d[key]]: a missing key raises [KeyError], whose text is the [repr]
    of the key: the key between single quotes, for the keys of the script. *)
Definition getitem (d : gmap string pyval) (key : string) : outcome pyval :=
  match d !! key with
  | Some v => Returns v
  | None => Raises (Exception ("'" +:+ key +:+ "'"))
  end.

(** [int(x)] for a float [x]: truncation toward zero; [ValueError] on a
    NaN and [OverflowError] on an infinity. *)
Definition int (x : float) : outcome Z :=
  match Prim2SF x with
  | S754_zero _ => Returns 0%Z
  | S754_finite s m e =>
      let a := (if 0 <=? e then Z.pos m * 2 ^ e else Z.pos m / 2 ^ (- e))%Z in
      Returns (if s then (- a)%Z else a)
  | S754_infinity _ =>
      Raises (Exception "cannot convert float infinity to integer")
  | S754_nan =>
      Raises (Exception "cannot convert float NaN to integer")
  end.

(** The sign of a float, as [math.copysign(1.0, x) < 0] reads it: set on
    the negative numbers, on minus infinity and on [-0.0]. *)
Definition signbit (x : float) : bool :=
  match Prim2SF x with
  | S754_zero s | S754_infinity s | S754_finite s _ _ => s
  | S754_nan => false
  end.

End Py.
Import Py.

(** ** The console

    [print] encodes a line for [sys.stdout] and writes it. A console is
    described by what it answers: whether it takes what is written to it,
    and which characters beyond ASCII its encoding has. *)
Record Console := {
  writable : bool;
  encodes : N -> bool
}.

(** A line of output, in pieces: text (of a literal of the script or of a
    [str] value), one character given by its code point, the [str()] of a
    value the client library returned, or a number as [format] writes it. *)
Inductive piece :=
| Str (s : string)
| Glyph (code : N)
| Val (v : pyval)
| Number.

Definition text : Type := list piece.

Fixpoint codes (s : string) : list N :=
  match s with
  | EmptyString => []
  | String c s => N_of_ascii c :: codes s
  end.

(** The characters beyond ASCII that [repr] writes as they are, the
    printable ones; it escapes the others ([U+0080] to [U+00A0], [U+00AD])
    in ASCII. *)
Definition repr_keeps (c : N) : bool := (160 <? c)%N && negb (c =? 173)%N.

(** The characters of [repr(v)] that can be beyond ASCII. *)
Fixpoint repr_chars (v : pyval) : list N :=
  match v with
  | PyStr s => List.filter repr_keeps (codes s)
  | PyList l => flat_map repr_chars l
  | PyDict d =>
      map_fold (fun k v acc => List.filter repr_keeps (codes k) ++ repr_chars v ++ acc)
        [] d
  | PyNone | PyBool _ | PyInt _ | PyFloat _ => []
  end.

(** [str(v)] is [v] itself for a string and [repr(v)] otherwise. *)
Definition str_chars (v : pyval) : list N :=
  match v with
  | PyStr s => codes s
  | _ => repr_chars v
  end.

(** The characters of a piece the console has to encode; the digits, the
    sign and the point of a number are ASCII. *)
Definition chars (p : piece) : list N :=
  match p with
  | Str s => codes s
  | Glyph code => [code]
  | Val v => str_chars v
  | Number => []
  end.

Definition takes (C : Console) (c : N) : bool := (c <? 128)%N || encodes C c.

Definition encodable (C : Console) (line : text) : bool :=
  forallb (takes C) (flat_map chars line).

(** What a console that refuses a line raises; both are [Exception]s, and
    their texts are ASCII. *)
Definition UnicodeEncodeError : exn := Exception "codec can't encode character".
Definition OSError : exn := Exception "[Errno 5] Input/output error".

(** [print(line)]. *)
Definition print (C : Console) (line : text) : outcome unit :=
  if negb (encodable C line) then Raises UnicodeEncodeError
  else if negb (writable C) then Raises OSError
  else Returns tt.

(** One [print] after the other, up to the first that raises. *)
Fixpoint prints (C : Console) (lines : list text) : outcome unit :=
  match lines with
  | [] => Returns tt
  | line :: lines =>
      match print C line with
      | Returns _ => prints C lines
      | o => o
      end
  end.

(** A console that takes every line: a terminal, a pipe or a file that is
    written in UTF-8. *)
Definition generous (C : Console) : Prop :=
  writable C = true /\ forall c, encodes C c = true.

(** [e] is what the console raises on some line. *)
Definition refuses (C : Console) (e : exn) : Prop :=
  exists line, print C line = Raises e.

(** ** The outside world

    [MediaUploadProgress] is the status object of the client library; the
    script only calls its [progress()] method. *)

Record MediaUploadProgress := { progress : float }.

Abbreviation dict := (gmap string pyval).

(** Every call the script makes into the operating system, the client
    library or the Play Developer API, with the arguments it passes. Request
    objects ([edits().insert(...)], [tracks().update(...)], [commit(...)])
    are plain data until [execute()] sends them, so the call is recorded
    where it is executed; [bundles().upload(...)] inspects the media on
    construction and is a call of its own. *)
Inductive call :=
| FromServiceAccountFile (filename : string) (scopes : list string)
| Build (serviceName version : string)
| EditsInsert (body : dict) (packageName : string)
| GetSize (path : string)
| NewMediaFileUpload (filename mimetype : string) (resumable : bool)
| BundlesUpload (packageName : string) (editId : pyval) (media_body : string)
| NextChunk (packageName : string) (editId : pyval)
| TracksUpdate (packageName : string) (editId : pyval) (track : string) (body : dict)
| EditsCommit (packageName : string) (editId : pyval).

(** What came back: an opaque object the script never looks into, a
    response body, a file size, or the pair [next_chunk()] returns. *)
Inductive reply :=
| Object
| Body (d : dict)
| Size (n : Z)
| Chunk (status : option MediaUploadProgress) (response : option dict).

Inductive event :=
| Call (c : call) (o : outcome reply)
| Progress (percent : Z).     (* the progress line written to the console *)

Definition succeeded (e : event) : bool :=
  match e with
  | Call _ o => returned o
  | Progress _ => true
  end.

(** The calls that reach the remote service, by the operation of the
    publishing protocol they belong to. *)
Inductive remote_op := OpenEdit | BundleUpload | TrackUpdate | CommitEdit.

Definition remote_op_of (e : event) : option remote_op :=
  match e with
  | Call (EditsInsert _ _) _ => Some OpenEdit
  | Call (NextChunk _ _) _ => Some BundleUpload
  | Call (TracksUpdate _ _ _ _) _ => Some TrackUpdate
  | Call (EditsCommit _ _) _ => Some CommitEdit
  | _ => None
  end.

Definition remote_ops (t : list event) : list remote_op := omap remote_op_of t.

(** The order the protocol prescribes, for an upload of [k] chunks. *)
Definition protocol (k : nat) : list remote_op :=
  OpenEdit :: replicate k BundleUpload ++ [TrackUpdate; CommitEdit].

(** The behaviour of the outside world: each field answers one kind of
    call from the current world and leaves a new world behind; [stdout] is
    the console of the process. *)
Record Library (World : Type) := {
  os_path_exists : string -> World -> bool;
  from_service_account_file : string -> list string -> World -> outcome unit * World;
  build : string -> string -> World -> outcome unit * World;
  edits_insert_execute : dict -> string -> World -> outcome dict * World;
  os_path_getsize : string -> World -> outcome Z * World;
  MediaFileUpload : string -> string -> bool -> World -> outcome unit * World;
  bundles_upload : string -> pyval -> string -> World -> outcome unit * World;
  next_chunk : string -> pyval -> World ->
               outcome (option MediaUploadProgress * option dict) * World;
  tracks_update_execute : string -> pyval -> string -> dict -> World -> outcome unit * World;
  edits_commit_execute : string -> pyval -> World -> outcome unit * World;
  stdout : Console
}.
Arguments os_path_exists {World}.
Arguments from_service_account_file {World}.
Arguments build {World}.
Arguments edits_insert_execute {World}.
Arguments os_path_getsize {World}.
Arguments MediaFileUpload {World}.
Arguments bundles_upload {World}.
Arguments next_chunk {World}.
Arguments tracks_update_execute {World}.
Arguments edits_commit_execute {World}.
Arguments stdout {World}.

(** ** The script's monad: a world, a trace, and exceptions *)

Record state (World : Type) := State { world : World; trace : list event }.
Arguments State {World}.
Arguments world {World}.
Arguments trace {World}.

Definition M (World A : Type) : Type := state World -> outcome A * state World.

(** How an answer goes on record. *)
Definition logged {A} (r : A -> reply) (o : outcome A) : outcome reply :=
  match o with
  | Returns a => Returns (r a)
  | Raises e => Raises e
  | Diverges => Diverges
  end.

Section Monad.
Context {World : Type}.

#[export] Instance M_ret : MRet (M World) := fun A a s => (Returns a, s).

#[export] Instance M_bind : MBind (M World) := fun A B k m s =>
  match m s with
  | (Returns a, s') => k a s'
  | (Raises e, s') => (Raises e, s')
  | (Diverges, s') => (Diverges, s')
  end.

(** A local computation that may raise but touches nothing outside. *)
Definition lift {A} (o : outcome A) : M World A := fun s => (o, s).

(** A question the world answers at once, as [os.path.exists] does. *)
Definition ask {A} (f : World -> A) : M World A := fun s => (Returns (f (world s)), s).

(** A call into the outside world, logged with what it answered. *)
Definition perform {A} (c : call) (f : World -> outcome A * World)
    (r : A -> reply) : M World A := fun s =>
  let '(o, w) := f (world s) in
  (o, State w (trace s ++ [Call c (logged r o)])).

Definition print_progress (percent : Z) : M World unit := fun s =>
  (Returns tt, State (world s) (trace s ++ [Progress percent])).

(** A computation that only adds to the trace. *)
Definition appends {A} (m : M World A) : Prop :=
  forall s, exists rest, trace (m s).2 = trace s ++ rest.

(** [try: body except Exception as e: handler]. *)
Definition try_except {A} (body : M World A) (handler : string -> M World A)
    : M World A := fun s =>
  match body s with
  | (Raises (Exception msg), s') => handler msg s'
  | r => r
  end.
End Monad.

(** ** The script *)

Definition SCOPES : list string := ["https://www.googleapis.com/auth/androidpublisher"].

(** Lines 189-208: the release descriptor, built from the version code the
    upload returned and from the arguments of the call. *)
Definition release_config (version_code : pyval) (track : string)
    (rollout_percentage : float) (release_notes : string) (draft : bool) : dict :=
  let release_config : dict :=
    <["releaseNotes" := PyList [PyDict (<["text" := PyStr release_notes]>
                                         (<["language" := PyStr "en-US"]> ∅))]]>
      (<["versionCodes" := PyList [version_code]]> ∅) in
  if draft then
    <["status" := PyStr "draft"]> release_config
  else if bool_decide (track = "production") && (rollout_percentage <? 100)%float then
    <["userFraction" := PyFloat (rollout_percentage / 100)%float]>
      (<["status" := PyStr "inProgress"]> release_config)
  else
    <["status" := PyStr "completed"]> release_config.

(** Lines 56-62: the colours of the terminal, escape sequences in ASCII. *)
Definition RED : piece := Str (String "027" "[91m").
Definition GREEN : piece := Str (String "027" "[92m").
Definition YELLOW : piece := Str (String "027" "[93m").
Definition BLUE : piece := Str (String "027" "[94m").
Definition CYAN : piece := Str (String "027" "[96m").
Definition NC : piece := Str (String "027" "[0m").

(** The line feed of [\n], the check mark [U+2713] and the heavy
    horizontal bar [U+2501], which the script writes forty in a row. *)
Definition LF : piece := Str (String "010" "").
Definition check_mark : N := 10003.
Definition bar : N := 9473.
Definition rule : text := replicate 40 (Glyph bar).

(** [posixpath.basename(p)]: what follows the last slash. *)
Fixpoint has_sep (p : string) : bool :=
  match p with
  | EmptyString => false
  | String c p => bool_decide (c = "/"%char) || has_sep p
  end.

Fixpoint os_path_basename (p : string) : string :=
  match p with
  | EmptyString => ""
  | String c rest =>
      if has_sep rest then os_path_basename rest
      else if bool_decide (c = "/"%char) then rest
      else p
  end.

(** [needle in text]. *)
Fixpoint contains (needle text : string) : bool :=
  String.prefix needle text ||
  match text with
  | EmptyString => false
  | String _ rest => contains needle rest
  end.

(** Line 126. *)
Definition authenticating : text :=
  [CYAN; Str "Authenticating with Google Play API..."; NC].

(** Lines 130-140. *)
Definition setup_instructions (SERVICE_ACCOUNT_FILE : string) : list text :=
  [[RED; Str "Error: Service account file not found"; NC];
   [YELLOW; Str "Expected location: "; Str SERVICE_ACCOUNT_FILE; NC];
   [LF; CYAN; Str "Setup instructions:"; NC];
   [Str "1. Go to Google Cloud Console (console.cloud.google.com)"];
   [Str "2. Create a new project or select existing one"];
   [Str "3. Enable 'Google Play Android Developer API'"];
   [Str "4. Go to IAM & Admin > Service Accounts"];
   [Str "5. Create a Service Account and download JSON key"];
   [Str "6. Go to Google Play Console > Users and permissions"];
   [Str "7. Invite the service account email with 'Release manager' access"];
   [Str "8. Save the JSON key to "; Str SERVICE_ACCOUNT_FILE]].

(** Lines 252-262: what the handler writes for an exception of text
    [msg]. *)
Definition error_report (msg : string) : list text :=
  [RED; Str "Error: "; Str msg; NC] ::
  if contains "403" msg then
    [[LF; YELLOW; Str "Permission denied. Check that:"; NC];
     [Str "1. Service account has 'Release manager' or 'Admin' access in Play Console"];
     [Str "2. The service account was invited via Users and permissions"];
     [Str "3. The app package name is correct"]]
  else if contains "404" msg then
    [[LF; YELLOW; Str "App not found. Check that:"; NC];
     [Str "1. The package name matches your app in Play Console"];
     [Str "2. The app has been created in Play Console"]]
  else [].

Section Script.
Context {World : Type} (L : Library World).
(** The module-level configuration, read from the environment on import. *)
Variable SERVICE_ACCOUNT_FILE : string.

(** [print] once, and several times in a row. *)
Definition say (line : text) : M World unit := lift (print (stdout L) line).
Definition says (lines : list text) : M World unit := lift (prints (stdout L) lines).

(** Lines 174-179: [while response is None]. One unit of [fuel] is one
    turn of the loop. *)
Fixpoint resumable_upload (fuel : nat) (package_name : string) (edit_id : pyval)
    : M World dict :=
  match fuel with
  | O => lift Diverges
  | S fuel =>
      '(status, response) ← perform (NextChunk package_name edit_id)
                              (next_chunk L package_name edit_id)
                              (fun sr => Chunk sr.1 sr.2);
      _ ← match status with
          | Some status =>
              progress ← lift (int (progress status * 100)%float);
              print_progress progress
          | None => mret tt
          end;
      match response with
      | None => resumable_upload fuel package_name edit_id
      | Some response => mret response
      end
  end.

(** Lines 251-264: [except Exception as e]. *)
Definition except_Exception (msg : string) : M World bool :=
  _ ← says (error_report msg);
  mret false.

(** Lines 116-264. The size of the bundle is asked for inside the line
    that reports it (line 163), and the lines about the release are written
    where the descriptor is built (lines 199-208). *)
Definition upload_to_google_play (fuel : nat)
    (package_name aab_path track : string) (rollout_percentage : float)
    (release_notes : string) (draft : bool) : M World bool :=
  _ ← say authenticating;
  found ← ask (os_path_exists L SERVICE_ACCOUNT_FILE);
  if negb found then
    _ ← says (setup_instructions SERVICE_ACCOUNT_FILE);
    mret false
  else
    try_except
      (_ ← perform (FromServiceAccountFile SERVICE_ACCOUNT_FILE SCOPES)
             (from_service_account_file L SERVICE_ACCOUNT_FILE SCOPES)
             (fun _ => Object);
       _ ← perform (Build "androidpublisher" "v3")
             (build L "androidpublisher" "v3") (fun _ => Object);
       _ ← says [[GREEN; Glyph check_mark; Str " Authenticated successfully"; NC];
                 [CYAN; Str "Creating new edit..."; NC]];
       edit ← perform (EditsInsert ∅ package_name)
                (edits_insert_execute L ∅ package_name) Body;
       edit_id ← lift (getitem edit "id");
       _ ← says [[GREEN; Glyph check_mark; Str " Edit created: "; Val edit_id; NC];
                 [CYAN; Str "Uploading AAB file..."; NC];
                 [BLUE; Str "   File: "; Str (os_path_basename aab_path); NC]];
       _ ← perform (GetSize aab_path) (os_path_getsize L aab_path) Size;
       _ ← says [[BLUE; Str "   Size: "; Number; Str " MB"; NC]];
       _ ← perform (NewMediaFileUpload aab_path "application/octet-stream" true)
             (MediaFileUpload L aab_path "application/octet-stream" true)
             (fun _ => Object);
       _ ← perform (BundlesUpload package_name edit_id aab_path)
             (bundles_upload L package_name edit_id aab_path) (fun _ => Object);
       response ← resumable_upload fuel package_name edit_id;
       _ ← says [[LF; GREEN; Glyph check_mark; Str " Upload complete"; NC]];
       version_code ← lift (getitem response "versionCode");
       _ ← says [[BLUE; Str "   Version code: "; Val version_code; NC];
                 [CYAN; Str "Creating release on '"; Str track; Str "' track..."; NC]];
       let release_config :=
         release_config version_code track rollout_percentage release_notes draft in
       _ ← says (if draft then
                   [[YELLOW; Str "   Creating as DRAFT (won't be submitted)"; NC]]
                 else if bool_decide (track = "production")
                         && (rollout_percentage <? 100)%float then
                   [[BLUE; Str "   Staged rollout: "; Number; Str "%"; NC]]
                 else []);
       _ ← perform (TracksUpdate package_name edit_id track
                      {[ "releases" := PyList [PyDict release_config] ]})
             (tracks_update_execute L package_name edit_id track
                {[ "releases" := PyList [PyDict release_config] ]})
             (fun _ => Object);
       _ ← says [[GREEN; Glyph check_mark; Str " Release created on '"; Str track;
                  Str "' track"; NC];
                 [CYAN; Str "Committing changes..."; NC]];
       _ ← perform (EditsCommit package_name edit_id)
             (edits_commit_execute L package_name edit_id) (fun _ => Object);
       _ ← says [[GREEN; Glyph check_mark; Str " Changes committed to Google Play"; NC];
                 [];
                 GREEN :: rule ++ [NC];
                 [GREEN; Str "Google Play submission complete!"; NC];
                 GREEN :: rule ++ [NC];
                 [BLUE; Str "   Package: "; Str package_name; NC];
                 [BLUE; Str "   Track: "; Str track; NC];
                 [BLUE; Str "   Version code: "; Val version_code; NC];
                 if draft then
                   [YELLOW; Str "   Status: DRAFT - go to Play Console to submit"; NC]
                 else if bool_decide (track = "production") then
                   if (rollout_percentage <? 100)%float then
                     [BLUE; Str "   Rollout: "; Number; Str "% staged rollout"; NC]
                   else [BLUE; Str "   Status: Submitted for review"; NC]
                 else [BLUE; Str "   Status: Published to "; Str track; NC]];
       mret true)
      except_Exception.
End Script.

(** ** A test double

    The world is the list of answers [next_chunk] has still to give; every
    other call succeeds, unless the credentials file is missing, and the
    console is a terminal that takes every line. *)
Definition ack : Type := option MediaUploadProgress * option dict.

Definition terminal : Console := {| writable := true; encodes _ := true |}.

Definition scripted (credentials_present : bool) : Library (list (outcome ack)) := {|
  os_path_exists _ _ := credentials_present;
  from_service_account_file _ _ w := (Returns tt, w);
  build _ _ w := (Returns tt, w);
  edits_insert_execute _ _ w := (Returns {[ "id" := PyStr "edit-1" ]}, w);
  os_path_getsize _ w := (Returns 47185920%Z, w);
  MediaFileUpload _ _ _ w := (Returns tt, w);
  bundles_upload _ _ _ w := (Returns tt, w);
  next_chunk _ _ w :=
    match w with
    | a :: w => (a, w)
    | [] => (Raises (Exception "HttpError 400"), [])
    end;
  tracks_update_execute _ _ _ _ w := (Returns tt, w);
  edits_commit_execute _ _ w := (Returns tt, w);
  stdout := terminal
|}.

(** Other consoles: one whose encoding is ASCII; one whose encoding is
    Latin-1, which has neither the check mark nor the bar; one that has the
    check mark and not the bar; and one that takes nothing, as a full
    device does. *)
Definition plain : Console := {| writable := true; encodes _ := false |}.
Definition latin1 : Console := {| writable := true; encodes c := (c <? 256)%N |}.
Definition without_bar : Console :=
  {| writable := true; encodes c := negb (c =? bar)%N |}.
Definition full_device : Console := {| writable := false; encodes _ := true |}.

(** The library [L], writing to the console [C]. *)
Definition on_console {World} (C : Console) (L : Library World) : Library World := {|
  os_path_exists := os_path_exists L;
  from_service_account_file := from_service_account_file L;
  build := build L;
  edits_insert_execute := edits_insert_execute L;
  os_path_getsize := os_path_getsize L;
  MediaFileUpload := MediaFileUpload L;
  bundles_upload := bundles_upload L;
  next_chunk := next_chunk L;
  tracks_update_execute := tracks_update_execute L;
  edits_commit_execute := edits_commit_execute L;
  stdout := C
|}.

(** The library [L], with a client library that rejects the credentials
    file with an [Exception] of text [msg]; and such a text, in French,
    with a character beyond ASCII. *)
Definition rejecting {World} (msg : string) (L : Library World) : Library World := {|
  os_path_exists := os_path_exists L;
  from_service_account_file _ _ w := (Raises (Exception msg), w);
  build := build L;
  edits_insert_execute := edits_insert_execute L;
  os_path_getsize := os_path_getsize L;
  MediaFileUpload := MediaFileUpload L;
  bundles_upload := bundles_upload L;
  next_chunk := next_chunk L;
  tracks_update_execute := tracks_update_execute L;
  edits_commit_execute := edits_commit_execute L;
  stdout := stdout L
|}.

Definition illisible : string := "cl" +:+ String "233" " illisible".

Definition two_chunks : list (outcome ack) :=
  [Returns (Some {| progress := 0.5 |}, None);
   Returns (None, Some {[ "versionCode" := PyInt 32 ]})].


(** A call of the script against the test double: a 45 MB bundle uploaded
    in two chunks. *)
Definition demo (rollout_percentage : float) (track : string) (draft : bool)
    : outcome bool * state (list (outcome ack)) :=
  upload_to_google_play (scripted true) "service-account.json" 5
    "com.example.app" "app-release.aab" track rollout_percentage
    "Bug fixes and improvements" draft (State two_chunks []).

(** ** The runs of the script, as a transition system

    A run of [upload_to_google_play] that has written line 126 and found
    the credentials file walks through the points below. The relation
    [reaches] collects the traces that bring the script to a point with
    every call answered; [run] lists the ways it can end there. Both are
    read off the script and shown to describe all of its runs
    ([upload_to_google_play_run]). *)

(** What the [try] statement makes of the end of its body, on a console
    that is written to: the handler reports an [Exception] and returns
    [False], unless the console cannot encode the report. *)
Definition caught {A} (C : Console) (o : outcome A) : outcome bool :=
  match o with
  | Raises (Exception msg) =>
      match prints C (error_report msg) with
      | Returns _ => Returns false
      | Raises e => Raises e
      | Diverges => Diverges
      end
  | Raises (BaseException msg) => Raises (BaseException msg)
  | Diverges => Diverges
  | Returns _ => Returns false
  end.

(** Lines 177-179: what one acknowledgment puts on the console. *)
Definition progress_line (status : option MediaUploadProgress) : outcome (list event) :=
  match status with
  | Some status =>
      match int (progress status * 100)%float with
      | Returns percent => Returns [Progress percent]
      | Raises e => Raises e
      | Diverges => Diverges
      end
  | None => Returns []
  end.

Inductive point :=
| Authenticating
| BuildingService
| CreatingEdit
| MeasuringBundle (edit_id : pyval)
| OpeningBundle (edit_id : pyval)
| PreparingUpload (edit_id : pyval)
| Uploading (edit_id : pyval)
| CreatingRelease (edit_id version_code : pyval)
| Committing (edit_id : pyval)
| Finished.

(** The points past the upload. *)
Definition uploaded (p : point) : bool :=
  match p with
  | CreatingRelease _ _ | Committing _ | Finished => true
  | _ => false
  end.

Section Runs.
Variables (SERVICE_ACCOUNT_FILE package_name aab_path track : string).
Variables (rollout_percentage : float) (release_notes : string) (draft : bool).
(** The console of the run, and the turns the upload loop is given. *)
Variables (C : Console) (fuel : nat).

Definition releases (version_code : pyval) : dict :=
  {[ "releases" :=
       PyList [PyDict (release_config version_code track rollout_percentage
                         release_notes draft)] ]}.

(** The call the script makes next at each point. *)
Definition call_at (p : point) : option call :=
  match p with
  | Authenticating => Some (FromServiceAccountFile SERVICE_ACCOUNT_FILE SCOPES)
  | BuildingService => Some (Build "androidpublisher" "v3")
  | CreatingEdit => Some (EditsInsert ∅ package_name)
  | MeasuringBundle _ => Some (GetSize aab_path)
  | OpeningBundle _ =>
      Some (NewMediaFileUpload aab_path "application/octet-stream" true)
  | PreparingUpload edit_id => Some (BundlesUpload package_name edit_id aab_path)
  | Uploading edit_id => Some (NextChunk package_name edit_id)
  | CreatingRelease edit_id version_code =>
      Some (TracksUpdate package_name edit_id track (releases version_code))
  | Committing edit_id => Some (EditsCommit package_name edit_id)
  | Finished => None
  end.

(** One answered call (and the console line it causes) moves the script
    from a point to the next. *)
Inductive step : point -> list event -> point -> Prop :=
| step_credentials :
    step Authenticating
      [Call (FromServiceAccountFile SERVICE_ACCOUNT_FILE SCOPES) (Returns Object)]
      BuildingService
| step_build :
    step BuildingService [Call (Build "androidpublisher" "v3") (Returns Object)]
      CreatingEdit
| step_insert edit edit_id :
    edit !! "id" = Some edit_id ->
    step CreatingEdit [Call (EditsInsert ∅ package_name) (Returns (Body edit))]
      (MeasuringBundle edit_id)
| step_getsize edit_id n :
    step (MeasuringBundle edit_id) [Call (GetSize aab_path) (Returns (Size n))]
      (OpeningBundle edit_id)
| step_media edit_id :
    step (OpeningBundle edit_id)
      [Call (NewMediaFileUpload aab_path "application/octet-stream" true)
         (Returns Object)]
      (PreparingUpload edit_id)
| step_upload edit_id :
    step (PreparingUpload edit_id)
      [Call (BundlesUpload package_name edit_id aab_path) (Returns Object)]
      (Uploading edit_id)
| step_chunk edit_id status line :
    progress_line status = Returns line ->
    step (Uploading edit_id)
      (Call (NextChunk package_name edit_id) (Returns (Chunk status None)) :: line)
      (Uploading edit_id)
| step_last_chunk edit_id status line response version_code :
    progress_line status = Returns line ->
    response !! "versionCode" = Some version_code ->
    step (Uploading edit_id)
      (Call (NextChunk package_name edit_id)
         (Returns (Chunk status (Some response))) :: line)
      (CreatingRelease edit_id version_code)
| step_track edit_id version_code :
    step (CreatingRelease edit_id version_code)
      [Call (TracksUpdate package_name edit_id track (releases version_code))
         (Returns Object)]
      (Committing edit_id)
| step_commit edit_id :
    step (Committing edit_id)
      [Call (EditsCommit package_name edit_id) (Returns Object)]
      Finished.

Inductive reaches : list event -> point -> Prop :=
| reaches_start : reaches [] Authenticating
| reaches_step t p es q : reaches t p -> step p es q -> reaches (t ++ es) q.

(** The ways a run ends: after the commit and the summary; on a call
    that raises or never answers; on a response without the expected key;
    on a progress value that [int] rejects; with the upload loop still
    turning when its [fuel] is spent; or on a line the console refuses,
    which the handler reports as any other [Exception]. *)
Inductive run : outcome bool -> list event -> Prop :=
| run_finished t :
    reaches t Finished -> run (Returns true) t
| run_call_failed t p c (o : outcome reply) :
    reaches t p -> call_at p = Some c -> returned o = false ->
    run (caught C o) (t ++ [Call c o])
| run_no_edit_id t edit :
    reaches t CreatingEdit -> edit !! "id" = None ->
    run (Returns false)
      (t ++ [Call (EditsInsert ∅ package_name) (Returns (Body edit))])
| run_bad_progress t edit_id status response :
    reaches t (Uploading edit_id) -> returned (progress_line status) = false ->
    run (caught C (progress_line status))
      (t ++ [Call (NextChunk package_name edit_id) (Returns (Chunk status response))])
| run_no_version_code t edit_id status line response :
    reaches t (Uploading edit_id) ->
    progress_line status = Returns line ->
    response !! "versionCode" = None ->
    run (Returns false)
      (t ++ Call (NextChunk package_name edit_id)
              (Returns (Chunk status (Some response))) :: line)
| run_still_uploading t edit_id :
    reaches t (Uploading edit_id) ->
    remote_ops t = OpenEdit :: replicate fuel BundleUpload ->
    run Diverges t
| run_refused t p lines e :
    reaches t p -> prints C lines = Raises e ->
    run (Returns false) t.

(** The release descriptor of a track update is the one built from the
    version code of the response that ended the upload. *)
Definition submits_releases (t : list event) : Prop :=
  forall package_name' edit_id track' body o,
    Call (TracksUpdate package_name' edit_id track' body) o ∈ t ->
    exists status response version_code,
      Call (NextChunk package_name edit_id)
        (Returns (Chunk status (Some response))) ∈ t /\
      response !! "versionCode" = Some version_code /\
      track' = track /\
      body = releases version_code.

(** The remote operations behind a point, for an upload that has sent [k]
    chunks so far. *)
Definition ops_at (p : point) (k : nat) : list remote_op :=
  match p with
  | Authenticating | BuildingService | CreatingEdit => []
  | MeasuringBundle _ | OpeningBundle _ | PreparingUpload _ => [OpenEdit]
  | Uploading _ | CreatingRelease _ _ => OpenEdit :: replicate k BundleUpload
  | Committing _ => OpenEdit :: replicate k BundleUpload ++ [TrackUpdate]
  | Finished => protocol k
  end.
End Runs.

(** ** Sequences of chunk acknowledgments

    [acknowledges L package_name edit_id w acks w']: asked again and again
    from the world [w], [next_chunk] answers with [acks], in this order, and
    leaves the world [w'] behind. *)
Inductive acknowledges {World} (L : Library World) (package_name : string)
    (edit_id : pyval) : World -> list ack -> World -> Prop :=
| acknowledges_nil w : acknowledges L package_name edit_id w [] w
| acknowledges_cons w a w' acks w'' :
    next_chunk L package_name edit_id w = (Returns a, w') ->
    acknowledges L package_name edit_id w' acks w'' ->
    acknowledges L package_name edit_id w (a :: acks) w''.

(** A status that reports progress and carries no final result yet. *)
Definition in_progress (status : MediaUploadProgress) : ack := (Some status, None).

(** The final acknowledgment, as the client library returns it:
    [(None, body)]. *)
Definition final (response : dict) : ack := (None, Some response).

(** What the upload loop leaves on the trace for [n] acknowledgments in
    progress followed by the final one. *)
Definition upload_events (package_name : string) (edit_id : pyval)
    (statuses : list MediaUploadProgress) (percents : list Z) (response : dict)
    : list event :=
  flat_map (fun sp : MediaUploadProgress * Z =>
              [Call (NextChunk package_name edit_id) (Returns (Chunk (Some sp.1) None));
               Progress sp.2])
           (zip statuses percents)
  ++ [Call (NextChunk package_name edit_id) (Returns (Chunk None (Some response)))].

Definition progress_lines (t : list event) : list Z :=
  omap (fun e => match e with Progress percent => Some percent | _ => None end) t.

(** Nothing is attempted after a call that failed: whatever is followed by
    another event has succeeded. *)
Definition stops_at_failure (t : list event) : Prop :=
  forall t1 e t2, t = t1 ++ e :: t2 -> t2 <> [] -> succeeded e = true.

(** ** Regular expressions, as [re.search] runs them

    The fragment of Python's [re] the two patterns of [get_package_name]
    are written in: literal text, one character of a set, a greedy [*] or
    [+] over a set, a capturing group and concatenation.

    [matches] is the backtracking matcher: it tries the ways a pattern can
    match at the start of [text] in the order [re] does, the longest
    repetition first, and hands what is left of the text, and the groups
    captured so far, to the continuation [k], moving to the next way when
    [k] fails. [search] tries every start position from left to right and
    answers with the groups of the first match. Groups are numbered as they
    close, which is the order they open in when none is inside another. *)

Module Re.

Inductive regex :=
| Lit (s : string)               (* the characters of [s] *)
| Char (p : ascii -> bool)       (* one character of a set: [[...]], [\s] *)
| Star (p : ascii -> bool)       (* [set*] *)
| Plus (p : ascii -> bool)       (* [set+] *)
| Group (r : regex)              (* [(r)] *)
| Seq (r1 r2 : regex).           (* [r1r2] *)

(** [text] without the prefix [s], when it starts with [s]. *)
Fixpoint lit (s text : string) : option string :=
  match s, text with
  | EmptyString, _ => Some text
  | String c s, String d text => if bool_decide (c = d) then lit s text else None
  | String _ _, EmptyString => None
  end.

(** As many characters of the set as there are, then one fewer, and so on
    down to none, until the continuation accepts. *)
Fixpoint star {A} (p : ascii -> bool) (text : string) (k : string -> option A)
    : option A :=
  match text with
  | String c rest =>
      if p c then
        match star p rest k with
        | Some a => Some a
        | None => k text
        end
      else k text
  | EmptyString => k text
  end.

(** The part of [text] in front of its suffix [rest]. *)
Definition consumed (text rest : string) : string :=
  String.substring 0 (String.length text - String.length rest) text.

Fixpoint matches {A} (r : regex) (text : string) (groups : list string)
    (k : string -> list string -> option A) : option A :=
  match r with
  | Lit s =>
      match lit s text with
      | Some rest => k rest groups
      | None => None
      end
  | Char p =>
      match text with
      | String c rest => if p c then k rest groups else None
      | EmptyString => None
      end
  | Star p => star p text (fun rest => k rest groups)
  | Plus p =>
      match text with
      | String c rest => if p c then star p rest (fun rest => k rest groups) else None
      | EmptyString => None
      end
  | Group r =>
      matches r text groups
        (fun rest groups => k rest (groups ++ [consumed text rest]))
  | Seq r1 r2 =>
      matches r1 text groups (fun rest groups => matches r2 rest groups k)
  end.

(** [re.search(r, text)]: the groups of the leftmost match, [None] when
    the pattern matches nowhere. *)
Fixpoint search (r : regex) (text : string) : option (list string) :=
  match matches r text [] (fun _ groups => Some groups) with
  | Some groups => Some groups
  | None =>
      match text with
      | String _ text => search r text
      | EmptyString => None
      end
  end.

(** [match.group(n)], for [n] from 1. *)
Definition group (n : nat) (m : list string) : option string := m !! (n - 1).

Definition one_of (chars : list ascii) (c : ascii) : bool := bool_decide (c ∈ chars).
Definition none_of (chars : list ascii) (c : ascii) : bool := negb (one_of chars c).

(** [\s] of a [str] pattern: the characters [str.isspace] accepts, here
    those below 256. *)
Definition whitespace (c : ascii) : bool :=
  let n := nat_of_ascii c in
  (9 <=? n) && (n <=? 13) || (28 <=? n) && (n <=? 31) || (n =? 32)
  || (n =? 133) || (n =? 160).

(** What the patterns mean, without the order of the search. Every
    character of [s] is in the set: *)
Fixpoint all (p : ascii -> bool) (s : string) : bool :=
  match s with
  | EmptyString => true
  | String c s => p c && all p s
  end.

(** [r] matches the whole of [m] and captures the groups [cs] on it, as
    the documentation of [re] says of each construct. *)
Fixpoint lang (r : regex) (m : string) (cs : list string) : Prop :=
  match r with
  | Lit s => m = s /\ cs = []
  | Char p => exists c, p c = true /\ m = String c "" /\ cs = []
  | Star p => all p m = true /\ cs = []
  | Plus p => m <> "" /\ all p m = true /\ cs = []
  | Group r => exists cs', lang r m cs' /\ cs = cs' ++ [m]
  | Seq r1 r2 =>
      exists m1 m2 cs1 cs2,
        m = m1 +:+ m2 /\ cs = cs1 ++ cs2 /\ lang r1 m1 cs1 /\ lang r2 m2 cs2
  end.

(** A match of [r] in [text]: right after [pre], capturing [cs]. *)
Definition occurs (r : regex) (text pre : string) (cs : list string) : Prop :=
  exists m post, text = pre +:+ m +:+ post /\ lang r m cs.

(** A match of [r] in [text] that no match starts before. *)
Definition leftmost (r : regex) (text : string) (cs : list string) : Prop :=
  exists pre,
    occurs r text pre cs /\
    forall pre' cs', occurs r text pre' cs' -> String.length pre <= String.length pre'.

(** At a given place, [r] matches in one way at most. *)
Definition unambiguous (r : regex) : Prop :=
  forall m cs post m' cs' post',
    lang r m cs -> lang r m' cs' -> m +:+ post = m' +:+ post' -> m = m' /\ cs = cs'.

End Re.

Declare Scope regex_scope.
Delimit Scope regex_scope with re.
Bind Scope regex_scope with Re.regex.
Infix "⋅" := Re.Seq (at level 60, right associativity) : regex_scope.

(** The double and the single quote. *)
Definition quotes : list ascii := ["034"; "'"]%char.

(** Line 87, with [Q] for the double quote character:
    [applicationId\s*[=:]\s*[Q']([^Q']+)[Q']]. *)
Definition applicationId_re : Re.regex :=
  (Re.Lit "applicationId" ⋅ Re.Star Re.whitespace ⋅ Re.Char (Re.one_of ["="; ":"]%char)
   ⋅ Re.Star Re.whitespace ⋅ Re.Char (Re.one_of quotes)
   ⋅ Re.Group (Re.Plus (Re.none_of quotes)) ⋅ Re.Char (Re.one_of quotes))%re.

(** Line 97, with [Q] for the double quote character:
    [package=Q([^Q]+)Q]. *)
Definition package_re : Re.regex :=
  (Re.Lit "package=" ⋅ Re.Char (Re.one_of ["034"]%char)
   ⋅ Re.Group (Re.Plus (Re.none_of ["034"]%char)) ⋅ Re.Char (Re.one_of ["034"]%char))%re.

(** [text] assigns [name] to the application id: the word
    [applicationId], white space or none, [=] or [:], white space or none,
    and [name] between two quotes, each double or single, where [name] is
    not empty and holds no quote. *)
Definition assignment (name text : string) : Prop :=
  exists ws1 sep ws2 q1 q2,
    text = "applicationId" +:+ ws1
           +:+ String sep (ws2 +:+ String q1 (name +:+ String q2 "")) /\
    Re.all Re.whitespace ws1 = true /\ sep ∈ ["="; ":"]%char /\
    Re.all Re.whitespace ws2 = true /\ q1 ∈ quotes /\ q2 ∈ quotes /\
    name <> "" /\ Re.all (Re.none_of quotes) name = true.

(** [text] is a [package] attribute with the value [name]: [package=] and
    [name] between double quotes, where [name] is not empty and holds no
    double quote. *)
Definition package_attribute (name text : string) : Prop :=
  text = "package=" +:+ String "034" (name +:+ String "034" "") /\
  name <> "" /\ Re.all (Re.none_of ["034"]%char) name = true.

(** [name] is what the first piece of [content] of the form [P] names. *)
Definition first_in (P : string -> string -> Prop) (content name : string) : Prop :=
  exists pre text post,
    content = pre +:+ text +:+ post /\ P name text /\
    forall pre' text' post' name',
      content = pre' +:+ text' +:+ post' -> P name' text' ->
      String.length pre <= String.length pre'.

(** [argparse.Namespace], as [parser.parse_args()] fills it for the
    arguments [main] declares. *)
Module Namespace.
Record t := {
  version : string;
  project_path : string;
  track : string;
  rollout : float;
  draft : bool;
  release_notes : string;
  package_name : option string
}.
End Namespace.

(** What [parser.parse_args()] makes of the command line: the namespace;
    or, for [-h], the help text, after which it leaves the process with
    status 0; or a message about what is wrong with the command line, after
    which it leaves the process with status 2. *)
Inductive parsed :=
| Parsed (args : Namespace.t)
| Help
| Usage.

(** ** The project on disk

    What [get_package_name], [find_aab_file] and [main] ask of the
    operating system, beside [os.path.exists], which is a field of
    [Library]: the command line, through [parser.parse_args()], which
    writes to the standard streams itself and may raise as any call;
    [os.path.abspath], which asks for the current directory and raises when
    there is none; [open(path, 'r')] and [read()] in one step; [glob.glob]
    and [os.path.getmtime]. *)
Record Files (World : Type) := {
  parse_args : World -> outcome parsed;
  os_path_abspath : string -> World -> outcome string;
  open_read : string -> World -> outcome string * World;
  glob_glob : string -> World -> list string * World;
  os_path_getmtime : string -> World -> outcome float * World
}.
Arguments parse_args {World}.
Arguments os_path_abspath {World}.
Arguments open_read {World}.
Arguments glob_glob {World}.
Arguments os_path_getmtime {World}.

(** [posixpath.join(a, b)]. *)
Fixpoint endswith_sep (path : string) : bool :=
  match path with
  | EmptyString => false
  | String c EmptyString => bool_decide (c = "/"%char)
  | String _ path => endswith_sep path
  end.

Definition os_path_join (a b : string) : string :=
  if String.prefix "/" b then b
  else if bool_decide (a = "") || endswith_sep a then a +:+ b
  else a +:+ "/" +:+ b.

(** The truth value of an optional string: [None] and [''] are false. *)
Definition truthy (s : option string) : bool :=
  match s with
  | Some (String _ _) => true
  | _ => false
  end.

(** The string behind an optional string that passed the truth test. *)
Definition str (s : option string) : string := default "" s.

Section Project.
Context {World : Type} (L : Library World) (F : Files World).
Variable SERVICE_ACCOUNT_FILE : string.

(** A question to the operating system; the answer is not put on the
    trace, which records the publishing transaction. *)
Definition consult {A} (f : World -> outcome A * World) : M World A := fun s =>
  let '(o, w) := f (world s) in
  (o, State w (trace s)).

(** Lines 81-89: [for gradle_path in gradle_paths], leaving the function
    at the first file that assigns an application id and going on to
    [otherwise] past the last. *)
Fixpoint for_gradle_paths (gradle_paths : list string)
    (otherwise : M World (option string)) : M World (option string) :=
  match gradle_paths with
  | [] => otherwise
  | gradle_path :: gradle_paths => fun s =>
      if os_path_exists L gradle_path (world s) then
        (content ← consult (open_read F gradle_path);
         match Re.search applicationId_re content with
         | Some m => mret (Re.group 1 m)
         | None => for_gradle_paths gradle_paths otherwise
         end) s
      else for_gradle_paths gradle_paths otherwise s
  end.

(** Lines 91-101: the manifest, tried last. *)
Definition manifest_package_name (project_path : string) : M World (option string) :=
  let manifest_path :=
    os_path_join project_path "android/app/src/main/AndroidManifest.xml" in
  fun s =>
    if os_path_exists L manifest_path (world s) then
      (content ← consult (open_read F manifest_path);
       match Re.search package_re content with
       | Some m => mret (Re.group 1 m)
       | None => mret None
       end) s
    else (Returns None, s).

(** Lines 72-101. *)
Definition get_package_name (project_path : string) : M World (option string) :=
  let gradle_paths :=
    [os_path_join project_path "android/app/build.gradle";
     os_path_join project_path "android/app/build.gradle.kts"] in
  for_gradle_paths gradle_paths (manifest_package_name project_path).

(** [max(items, key=os.path.getmtime)] past the first item: the key of
    every item is taken, in order, and an item replaces the maximum when its
    key is greater. *)
Fixpoint max_getmtime (maxitem : string) (maxval : float) (items : list string)
    : M World string :=
  match items with
  | [] => mret maxitem
  | item :: items =>
      val ← consult (os_path_getmtime F item);
      if (maxval <? val)%float then max_getmtime item val items
      else max_getmtime maxitem maxval items
  end.

(** Lines 104-113. *)
Definition find_aab_file (project_path : string) : M World (option string) :=
  let aab_pattern := os_path_join project_path "build/app/outputs/bundle/release/*.aab" in
  aab_files ← consult (fun w => let '(files, w) := glob_glob F aab_pattern w in
                                (Returns files, w));
  match aab_files with
  | [] => mret None
  | item :: items =>
      maxval ← consult (os_path_getmtime F item);
      newest ← max_getmtime item maxval items;
      mret (Some newest)
  end.

(** Lines 289-296. *)
Definition banner (args : Namespace.t) : list text :=
  [[];
   CYAN :: rule ++ [NC];
   [CYAN; Str "Google Play Auto-Upload"; NC];
   [CYAN; Str "Built by Filip Kowalski | @filippkowalski | fkowalski.com"; NC];
   CYAN :: rule ++ [NC];
   [BLUE; Str "   Version: "; Str (Namespace.version args); NC];
   [BLUE; Str "   Track: "; Str (Namespace.track args); NC];
   []].

(** Lines 267-332. The value is the status the process exits with. *)
Definition main (fuel : nat) : M World Z := fun s =>
  match parse_args F (world s) with
  | Raises e => (Raises e, s)
  | Diverges => (Diverges, s)
  | Returns Help => (Returns 0%Z, s)
  | Returns Usage => (Returns 2%Z, s)
  | Returns (Parsed args) =>
      (project_path ← lift (os_path_abspath F (Namespace.project_path args) (world s));
       _ ← says L (banner args);
       package_name ← (if truthy (Namespace.package_name args)
                       then mret (Namespace.package_name args)
                       else get_package_name project_path);
       if negb (truthy package_name) then
         _ ← says L [[RED; Str "Error: Could not detect package name"; NC];
                     [YELLOW; Str "Use --package-name to specify manually"; NC]];
         mret 1%Z
       else
       _ ← says L [[BLUE; Str "Package: "; Str (str package_name); NC]];
       aab_path ← find_aab_file project_path;
       if negb (truthy aab_path) then
         _ ← says L [[RED; Str "Error: No AAB file found"; NC];
                     [YELLOW; Str "Run 'flutter build appbundle --release' first"; NC]];
         mret 1%Z
       else
       _ ← says L [[BLUE; Str "AAB: "; Str (os_path_basename (str aab_path)); NC]; []];
       success ← upload_to_google_play L SERVICE_ACCOUNT_FILE fuel (str package_name)
                   (str aab_path) (Namespace.track args) (Namespace.rollout args)
                   (Namespace.release_notes args) (Namespace.draft args);
       mret (if success : bool then 0 else 1)%Z) s
  end.
End Project.

(** ** What the properties of the rest of the script are stated with *)

(** The three files [get_package_name] looks into, and the pattern
    [find_aab_file] hands to [glob]. *)
Definition gradle_path (project_path : string) : string :=
  os_path_join project_path "android/app/build.gradle".
Definition gradle_kts_path (project_path : string) : string :=
  os_path_join project_path "android/app/build.gradle.kts".
Definition manifest_path (project_path : string) : string :=
  os_path_join project_path "android/app/src/main/AndroidManifest.xml".
Definition aab_pattern (project_path : string) : string :=
  os_path_join project_path "build/app/outputs/bundle/release/*.aab".

Section Sources.
Context {World : Type} (L : Library World) (F : Files World).

(** In some world the file at [path] was there, could be read, and [name]
    is what the first piece of the form [P] in it names. *)
Definition read_from (P : string -> string -> Prop) (path name : string) : Prop :=
  exists content w w',
    os_path_exists L path w = true /\
    open_read F path w = (Returns content, w') /\
    first_in P content name.

(** Where the package name of a run of [main] comes from: the command
    line, or one of the three files. *)
Definition package_source (args : Namespace.t) (project_path name : string) : Prop :=
  Namespace.package_name args = Some name \/
  (truthy (Namespace.package_name args) = false /\
   (read_from assignment (gradle_path project_path) name \/
    read_from assignment (gradle_kts_path project_path) name \/
    read_from package_attribute (manifest_path project_path) name)).

(** In the world [w], where the files hold [content]: the file at [path]
    is there and [name] is the first it names; *)
Definition declares (w : World) (content : string -> string)
    (P : string -> string -> Prop) (path name : string) : Prop :=
  os_path_exists L path w = true /\ first_in P (content path) name.

(** the file at [path] is missing, or names nothing. *)
Definition silent (w : World) (content : string -> string)
    (P : string -> string -> Prop) (path : string) : Prop :=
  os_path_exists L path w = false \/
  forall pre text post name, content path = pre +:+ text +:+ post -> ~ P name text.
End Sources.

(** [stats F w paths mtimes w']: asked for the modification time of
    [paths], one after the other from the world [w], [os.path.getmtime]
    answers with [mtimes] and leaves the world [w'] behind. *)
Inductive stats {World} (F : Files World)
    : World -> list string -> list float -> World -> Prop :=
| stats_nil w : stats F w [] [] w
| stats_cons w path t w' paths ts w'' :
    os_path_getmtime F path w = (Returns t, w') ->
    stats F w' paths ts w'' ->
    stats F w (path :: paths) (t :: ts) w''.

(** [mtime] is later than [other] (or [other] is no time at all); [other]
    is not later than [mtime]. *)
Definition later_than (mtime other : float) : Prop := (mtime <=? other)%float = false.
Definition not_before (mtime other : float) : Prop := (mtime <? other)%float = false.

(** What [sys.exit(0 if success else 1)] makes of the end of
    [upload_to_google_play]. *)
Definition exit_status (o : outcome bool) : outcome Z :=
  match o with
  | Returns success => Returns (if success then 0 else 1)%Z
  | Raises e => Raises e
  | Diverges => Diverges
  end.

(** The edit, the package and the bundle file an event names. *)
Definition edit_id_of (e : event) : option pyval :=
  match e with
  | Call (BundlesUpload _ editId _) _ | Call (NextChunk _ editId) _
  | Call (TracksUpdate _ editId _ _) _ | Call (EditsCommit _ editId) _ => Some editId
  | _ => None
  end.

Definition package_of (e : event) : option string :=
  match e with
  | Call (EditsInsert _ packageName) _ | Call (BundlesUpload packageName _ _) _
  | Call (NextChunk packageName _) _ | Call (TracksUpdate packageName _ _ _) _
  | Call (EditsCommit packageName _) _ => Some packageName
  | _ => None
  end.

Definition bundle_of (e : event) : option string :=
  match e with
  | Call (GetSize path) _ | Call (NewMediaFileUpload path _ _) _
  | Call (BundlesUpload _ _ path) _ => Some path
  | _ => None
  end.

(** The edit the script holds at a point of its run. *)
Definition edit_id_at (p : point) : option pyval :=
  match p with
  | Authenticating | BuildingService | CreatingEdit | Finished => None
  | MeasuringBundle edit_id | OpeningBundle edit_id | PreparingUpload edit_id
  | Uploading edit_id | CreatingRelease edit_id _ | Committing edit_id => Some edit_id
  end.

Section RunEvents.
Variables (SERVICE_ACCOUNT_FILE package_name aab_path track : string).
Variables (rollout_percentage : float) (release_notes : string) (draft : bool).

(** An event of a run: the call of some point, answered one way or
    another, or a progress line. *)
Definition at_point (e : event) : Prop :=
  (exists p c o,
     e = Call c o /\
     call_at SERVICE_ACCOUNT_FILE package_name aab_path track rollout_percentage
       release_notes draft p = Some c) \/
  (exists percent, e = Progress percent).
End RunEvents.

(** The status a chunk acknowledgment reports. *)
Definition status_of (e : event) : option MediaUploadProgress :=
  match e with
  | Call (NextChunk _ _) (Returns (Chunk status _)) => status
  | _ => None
  end.

(** [percent] is what [int(status.progress() * 100)] makes of a status
    reported on the trace [t]. *)
Definition reported (t : list event) (percent : Z) : Prop :=
  exists e status,
    e ∈ t /\ status_of e = Some status /\
    int (progress status * 100)%float = Returns percent.

(** [e] was raised by a file that could not be read, or be looked at. *)
Definition unreadable {World} (F : Files World) (e : exn) : Prop :=
  exists path w0 w1,
    open_read F path w0 = (Raises e, w1) \/ os_path_getmtime F path w0 = (Raises e, w1).

(** [e] was raised by [parse_args]; by [os.path.abspath]. *)
Definition unparsed {World} (F : Files World) (e : exn) : Prop :=
  exists w0, parse_args F w0 = Raises e.

Definition homeless {World} (F : Files World) (e : exn) : Prop :=
  exists path w0, os_path_abspath F path w0 = Raises e.

(** [e] was raised before the publishing transaction: by [parse_args],
    by [os.path.abspath], by a file, or by the console. *)
Definition early {World} (L : Library World) (F : Files World) (e : exn) : Prop :=
  unparsed F e \/ homeless F e \/ unreadable F e \/ refuses (stdout L) e.

(** [F] with another way to read files. *)
Definition reading {World} (F : Files World)
    (open_read' : string -> World -> outcome string * World) : Files World := {|
  parse_args := parse_args F;
  os_path_abspath := os_path_abspath F;
  open_read := open_read';
  glob_glob := glob_glob F;
  os_path_getmtime := os_path_getmtime F
|}.

(** ** A project on disk, for the examples

    A Flutter project in [/work/app], the current directory: a Groovy
    [build.gradle] that names the application id the Groovy way, without
    [=], a Kotlin [build.gradle.kts] that assigns it, a manifest with a
    [package] attribute, and three bundles, two of them of the same age. *)

Definition quoted (s : string) : string := String "034" (s +:+ String "034" "").

Definition build_gradle : string :=
  "android { defaultConfig { applicationId " +:+ quoted "com.example.groovy" +:+ " } }".

Definition build_gradle_kts : string :=
  "android { defaultConfig { applicationId = " +:+ quoted "com.example.app" +:+ " } }".

Definition AndroidManifest_xml : string :=
  "<manifest package=" +:+ quoted "com.example.manifest" +:+ "></manifest>".

Definition disk : gmap string string :=
  {[ "service-account.json" := "{}";
     "/work/app/android/app/build.gradle" := build_gradle;
     "/work/app/android/app/build.gradle.kts" := build_gradle_kts;
     "/work/app/android/app/src/main/AndroidManifest.xml" := AndroidManifest_xml ]}.

(** What [glob] lists, with the modification times; [None] stands for a
    file that is gone by the time it is looked at. *)
Definition bundles : list (string * option float) :=
  [("/work/app/build/app/outputs/bundle/release/app-old.aab", Some 1700000000%float);
   ("/work/app/build/app/outputs/bundle/release/app-release.aab", Some 1700000600%float);
   ("/work/app/build/app/outputs/bundle/release/app-copy.aab", Some 1700000600%float)].

Definition vanished : list (string * option float) :=
  [("/work/app/build/app/outputs/bundle/release/app-old.aab", Some 1700000000%float);
   ("/work/app/build/app/outputs/bundle/release/app-gone.aab", None);
   ("/work/app/build/app/outputs/bundle/release/app-release.aab", Some 1700000600%float)].

(** The library of the test double, on a machine with the files of
    [disk]. *)
Definition installed (disk : gmap string string) : Library (list (outcome ack)) := {|
  os_path_exists path _ := bool_decide (is_Some (disk !! path));
  from_service_account_file := from_service_account_file (scripted true);
  build := build (scripted true);
  edits_insert_execute := edits_insert_execute (scripted true);
  os_path_getsize := os_path_getsize (scripted true);
  MediaFileUpload := MediaFileUpload (scripted true);
  bundles_upload := bundles_upload (scripted true);
  next_chunk := next_chunk (scripted true);
  tracks_update_execute := tracks_update_execute (scripted true);
  edits_commit_execute := edits_commit_execute (scripted true);
  stdout := terminal
|}.

(** [parser.parse_args()] on the command line [1.13.0+32]. *)
Definition defaults : Namespace.t := {|
  Namespace.version := "1.13.0+32";
  Namespace.project_path := ".";
  Namespace.track := "production";
  Namespace.rollout := 100;
  Namespace.draft := false;
  Namespace.release_notes := "Bug fixes and improvements";
  Namespace.package_name := None
|}.

(** [parser.parse_args()] on [1.13.0+32 --package-name com.example.override]. *)
Definition overriding : Namespace.t := {|
  Namespace.version := "1.13.0+32";
  Namespace.project_path := ".";
  Namespace.track := "production";
  Namespace.rollout := 100;
  Namespace.draft := false;
  Namespace.release_notes := "Bug fixes and improvements";
  Namespace.package_name := Some "com.example.override"
|}.

(** The files of [disk] and the bundles [glob] lists, for the command
    line [1.13.0+32]. *)
Definition mounted (disk : gmap string string) (bundles : list (string * option float))
    : Files (list (outcome ack)) := {|
  parse_args _ := Returns (Parsed defaults);
  os_path_abspath path _ :=
    Returns (if String.prefix "/" path then path
             else if bool_decide (path = ".") then "/work/app"
             else os_path_join "/work/app" path);
  open_read path w :=
    match disk !! path with
    | Some content => (Returns content, w)
    | None => (Raises (Exception "FileNotFoundError"), w)
    end;
  glob_glob pattern w :=
    (if bool_decide (pattern = "/work/app/build/app/outputs/bundle/release/*.aab")
     then bundles.*1 else [], w);
  os_path_getmtime path w :=
    match (list_to_map bundles : gmap string (option float)) !! path with
    | Some (Some mtime) => (Returns mtime, w)
    | _ => (Raises (Exception "FileNotFoundError"), w)
    end
|}.

(** [F] for another command line, and in a current directory that is
    gone. *)
Definition invoked {World} (line : parsed) (F : Files World) : Files World := {|
  parse_args _ := Returns line;
  os_path_abspath := os_path_abspath F;
  open_read := open_read F;
  glob_glob := glob_glob F;
  os_path_getmtime := os_path_getmtime F
|}.

Definition adrift {World} (F : Files World) : Files World := {|
  parse_args := parse_args F;
  os_path_abspath _ _ := Raises (Exception "[Errno 2] No such file or directory");
  open_read := open_read F;
  glob_glob := glob_glob F;
  os_path_getmtime := os_path_getmtime F
|}.

(** A service whose answer to [edits().insert] carries no ['id']. *)
Definition anonymous_edits : Library (list (outcome ack)) := {|
  os_path_exists := os_path_exists (scripted true);
  from_service_account_file := from_service_account_file (scripted true);
  build := build (scripted true);
  edits_insert_execute _ _ w := (Returns ∅, w);
  os_path_getsize := os_path_getsize (scripted true);
  MediaFileUpload := MediaFileUpload (scripted true);
  bundles_upload := bundles_upload (scripted true);
  next_chunk := next_chunk (scripted true);
  tracks_update_execute := tracks_update_execute (scripted true);
  edits_commit_execute := edits_commit_execute (scripted true);
  stdout := terminal
|}.

(** * Proofs *)

(** ** Python's [int] on a few floats *)

Example int_half : int (0.5 * 100)%float = Returns 50%Z.
Proof. vm_compute. reflexivity. Qed.
Example int_neg : int (-2.75)%float = Returns (-2)%Z.
Proof. vm_compute. reflexivity. Qed.
Example int_big : int (1e22)%float = Returns 10000000000000000000000%Z.
Proof. vm_compute. reflexivity. Qed.
Example int_below : int (0x1.cffffffffffffp+4)%float = Returns 28%Z.
Proof. vm_compute. reflexivity. Qed.
Example int_nan : returned (int nan) = false.
Proof. vm_compute. reflexivity. Qed.

(** ** Facts about binary64 comparison and division

    [<?], [<=?], [=?] and [/] on [float] are specified by their counterparts
    on [spec_float]; the facts below are read off these specifications. *)

Module FloatFacts.
Local Open Scope Z_scope.

(** *** The constants of the script *)

Lemma Prim2SF_100 : Prim2SF 100 = S754_finite false 7036874417766400 (-46).
Proof. vm_compute. reflexivity. Qed.
Lemma Prim2SF_0 : Prim2SF 0 = S754_zero false.
Proof. vm_compute. reflexivity. Qed.
Lemma Prim2SF_1 : Prim2SF 1 = S754_finite false 4503599627370496 (-52).
Proof. vm_compute. reflexivity. Qed.

(** *** Comparison *)

Lemma SFcompare_antisym x y : SFcompare y x = CompOpp <$> SFcompare x y.
Proof.
  destruct x as [[]|[]| |[] m1 e1], y as [[]|[]| |[] m2 e2]; try reflexivity.
  all: unfold SFcompare; cbn [fmap option_fmap option_map]; f_equal.
  all: rewrite (Z.compare_antisym e1 e2); destruct (e1 ?= e2)%Z; try reflexivity.
  all: cbn [CompOpp].
  all: by rewrite (Pos.compare_cont_antisym m1 m2 Eq).
Qed.

Lemma SFltb_asym x y : SFltb x y = true -> SFltb y x = false.
Proof.
  unfold SFltb. rewrite (SFcompare_antisym x y).
  by destruct (SFcompare x y) as [[]|].
Qed.

Lemma SFltb_zero_finite x m e :
  SFltb x (S754_zero false) = true -> SFltb x (S754_finite false m e) = true.
Proof. by destruct x as [[]|[]| |[] m1 e1]. Qed.

Lemma above_100_not_below (r : float) :
  (100 <? r)%float = true -> (r <? 100)%float = false.
Proof. rewrite !ltb_spec. apply SFltb_asym. Qed.

Lemma below_0_below_100 (r : float) :
  (r <? 0)%float = true -> (r <? 100)%float = true.
Proof. rewrite !ltb_spec, Prim2SF_100, Prim2SF_0. apply SFltb_zero_finite. Qed.

Lemma at_most_100_not_below (r : float) :
  (r <=? 100)%float = true -> (r <? 100)%float = false -> (r =? 100)%float = true.
Proof.
  rewrite leb_spec, ltb_spec, FloatAxioms.eqb_spec. unfold SFleb, SFltb, SFeqb.
  by destruct (SFcompare _ _) as [[]|].
Qed.

(** *** Digits and shifts *)

Lemma digits2_pos_size p : digits2_pos p = Pos.size p.
Proof. induction p; simpl; congruence. Qed.

Lemma digits2_pos_gt p : Z.pos p < 2 ^ Z.pos (digits2_pos p).
Proof.
  rewrite digits2_pos_size. pose proof (Pos.size_gt p) as H.
  apply Pos2Z.pos_lt_pos in H. by rewrite Pos2Z.inj_pow in H.
Qed.

Lemma digits2_pos_le p : 2 ^ Z.pos (digits2_pos p) <= 2 * Z.pos p.
Proof.
  rewrite digits2_pos_size. pose proof (Pos.size_le p) as H.
  apply Pos2Z.pos_le_pos in H. by rewrite Pos2Z.inj_pow in H.
Qed.

Lemma Zdigits2_le m B : 0 <= m -> 0 <= B -> m < 2 ^ B -> Zdigits2 m <= B.
Proof.
  intros Hm HB Hlt. destruct m as [|p|p]; [done| |lia]. cbn [Zdigits2].
  pose proof (digits2_pos_le p) as Hle.
  assert (2 ^ Z.pos (digits2_pos p) < 2 ^ (B + 1)) as Hpow.
  { rewrite Z.pow_add_r, Z.pow_1_r by lia. lia. }
  apply Z.pow_lt_mono_r_iff in Hpow; lia.
Qed.

Lemma shr_1_div2 mrs : 0 <= shr_m mrs -> shr_m (shr_1 mrs) = shr_m mrs / 2.
Proof.
  intros Hm. rewrite <- Z.div2_div.
  destruct mrs as [[|[p|p|]|p] r s]; try reflexivity. cbn in Hm. lia.
Qed.

Lemma shr_1_nonneg mrs : 0 <= shr_m mrs -> 0 <= shr_m (shr_1 mrs).
Proof. intros Hm. rewrite shr_1_div2 by done. by apply Z.div_pos. Qed.

Lemma iter_pos_shr_1 p : forall mrs,
  0 <= shr_m mrs ->
  shr_m (SpecFloat.iter_pos shr_1 p mrs) = shr_m mrs / 2 ^ Z.pos p.
Proof.
  induction p as [p IH|p IH|]; intros mrs Hm; cbn [SpecFloat.iter_pos].
  - assert (0 <= shr_m (shr_1 mrs)) as H1 by by apply shr_1_nonneg.
    assert (0 <= shr_m (SpecFloat.iter_pos shr_1 p (shr_1 mrs))) as H2.
    { rewrite IH by done. apply Z.div_pos; lia. }
    rewrite IH, IH, shr_1_div2 by done.
    rewrite !Z.div_div by lia. f_equal.
    replace (Z.pos p~1) with (Z.pos p + Z.pos p + 1) by lia.
    rewrite !Z.pow_add_r, Z.pow_1_r by lia. lia.
  - assert (0 <= shr_m (SpecFloat.iter_pos shr_1 p mrs)) as H2.
    { rewrite IH by done. apply Z.div_pos; lia. }
    rewrite IH, IH by done. rewrite Z.div_div by lia. f_equal.
    replace (Z.pos p~0) with (Z.pos p + Z.pos p) by lia.
    by rewrite Z.pow_add_r by lia.
  - by rewrite shr_1_div2, Z.pow_1_r.
Qed.

(** The mantissa and exponent [shr_fexp] leaves: the mantissa is shifted
    right by the difference of the exponents. *)
Lemma shr_fexp_spec prec emax m e l :
  0 <= m ->
  let e1 := Z.max e (fexp prec emax (Zdigits2 m + e)) in
  (shr_fexp prec emax m e l).2 = e1 /\
  shr_m (shr_fexp prec emax m e l).1 = m / 2 ^ (e1 - e).
Proof.
  intros Hm e1. unfold shr_fexp, shr. subst e1.
  assert (shr_m (shr_record_of_loc m l) = m) as Hrec by (by destruct l as [|[]]).
  destruct (fexp prec emax (Zdigits2 m + e) - e) as [|p|p] eqn:Hn; cbn [fst snd].
  - replace (Z.max e _) with e by lia. by rewrite Hrec, Z.sub_diag, Z.div_1_r.
  - replace (Z.max e _) with (e + Z.pos p) by lia.
    rewrite iter_pos_shr_1 by (rewrite Hrec; lia). rewrite Hrec.
    split; [done|]. f_equal. f_equal. lia.
  - replace (Z.max e _) with e by lia. by rewrite Hrec, Z.sub_diag, Z.div_1_r.
Qed.

Lemma round_nearest_even_bounds m l :
  0 <= m -> 0 <= round_nearest_even m l <= m + 1.
Proof. intros. destruct l as [|[]]; simpl; try lia. destruct (Z.even m); lia. Qed.

(** A value whose mantissa stays clear of [2 ^ (- e)] at every shift rounds
    to a float below one. *)
Lemma binary_round_aux_below_one s m e l :
  0 <= m -> e <= -53 ->
  (forall k, 0 <= k -> e + k <= -53 -> m / 2 ^ k + 1 < 2 ^ (- (e + k))) ->
  let x := binary_round_aux prec emax s m e l in
  x = S754_zero s \/ exists m' e', x = S754_finite s m' e' /\ e' <= -53.
Proof.
  intros Hm He Hsmall. unfold binary_round_aux.
  assert (forall z, z <= 0 -> fexp prec emax z <= -53) as Hfexp.
  { intros z Hz. unfold fexp, emin, prec, emax. lia. }
  destruct (shr_fexp_spec prec emax m e l Hm) as [He1 Hm1].
  destruct (shr_fexp prec emax m e l) as [mrs' e1]. cbn [fst snd] in He1, Hm1.
  cbv zeta in He1, Hm1. rewrite <- He1 in Hm1.
  assert (Zdigits2 m + e <= 0) as Hdigits.
  { pose proof (Hsmall 0 ltac:(lia) ltac:(lia)) as H0.
    rewrite Z.pow_0_r, Z.div_1_r, Z.add_0_r in H0.
    pose proof (Zdigits2_le m (- e) Hm ltac:(lia) ltac:(lia)). lia. }
  assert (e1 <= -53) as He1' by (pose proof (Hfexp _ Hdigits); lia).
  assert (e <= e1) as Hee1 by lia.
  pose proof (Hsmall (e1 - e) ltac:(lia) ltac:(lia)) as Hk.
  replace (e + (e1 - e)) with e1 in Hk by lia. rewrite <- Hm1 in Hk.
  assert (0 <= shr_m mrs') as Hm1' by (rewrite Hm1; apply Z.div_pos; lia).
  pose proof (round_nearest_even_bounds (shr_m mrs') (loc_of_shr_record mrs') Hm1')
    as [Hr0 Hr1].
  set (m1 := round_nearest_even (shr_m mrs') (loc_of_shr_record mrs')) in *.
  destruct (shr_fexp_spec prec emax m1 e1 loc_Exact Hr0) as [He2 Hm2].
  destruct (shr_fexp prec emax m1 e1 loc_Exact) as [mrs'' e2]. cbn [fst snd] in He2, Hm2.
  cbv zeta in He2, Hm2. rewrite <- He2 in Hm2.
  assert (Zdigits2 m1 + e1 <= 0) as Hdigits1.
  { pose proof (Zdigits2_le m1 (- e1) Hr0 ltac:(lia) ltac:(lia)). lia. }
  assert (e2 <= -53) as He2' by (pose proof (Hfexp _ Hdigits1); lia).
  assert (0 <= shr_m mrs'') as Hm2' by (rewrite Hm2; apply Z.div_pos; lia).
  destruct (shr_m mrs'') as [|p|p]; [by left| |lia].
  right. replace (e2 <=? emax - prec) with true; [by eauto|].
  symmetry. apply Z.leb_le. unfold emax, prec. lia.
Qed.

Lemma bounded_digits m e : bounded prec emax m e = true -> Z.pos m < 2 ^ 53.
Proof.
  unfold bounded, canonical_mantissa, fexp, emin, prec, emax.
  intros [Hcanonical _]%andb_prop. apply Z.eqb_eq in Hcanonical.
  pose proof (digits2_pos_gt m) as Hgt.
  assert (2 ^ Z.pos (digits2_pos m) <= 2 ^ 53) as Hpow by (apply Z.pow_le_mono_r; lia).
  lia.
Qed.

Lemma SFltb_finite_100 m e :
  SFltb (S754_finite false m e) (S754_finite false 7036874417766400 (-46)) = true ->
  e < -46 \/ e = -46 /\ Z.pos m < 7036874417766400.
Proof.
  unfold SFltb, SFcompare. destruct (Z.compare_spec e (-46)) as [->|Hlt|Hgt]; try done.
  - intros Hm. right. split; [done|].
    by destruct (Pos.compare_cont Eq m 7036874417766400) eqn:Hcmp.
  - intros _. by left.
Qed.

(** A positive float below 100, divided by 100, gives a float with an
    exponent of at most -53, that is, a float below one. *)
Lemma SFdiv_100_below_one m e :
  bounded prec emax m e = true ->
  SFltb (S754_finite false m e) (S754_finite false 7036874417766400 (-46)) = true ->
  let q := SFdiv prec emax (S754_finite false m e)
             (S754_finite false 7036874417766400 (-46)) in
  q = S754_zero false \/ exists m' e', q = S754_finite false m' e' /\ e' <= -53.
Proof.
  intros Hm%bounded_digits Hlt%SFltb_finite_100. cbn [SFdiv xorb].
  unfold SFdiv_core_binary.
  change (Zdigits2 (Z.pos 7036874417766400)) with 53.
  set (d := Zdigits2 (Z.pos m)).
  assert (d <= 53) as Hd.
  { subst d. apply Zdigits2_le; lia. }
  set (e' := Z.min (fexp prec emax (d + e - (53 + -46))) (e - -46)).
  assert (e' <= -53) as He'.
  { subst e'. unfold fexp, emin, prec, emax. lia. }
  set (s := e - -46 - e').
  assert (0 <= s) as Hs by (subst s e'; lia).
  set (m' := match s with Z0 => Z.pos m | Zpos _ => Z.shiftl (Z.pos m) s | Zneg _ => 0 end).
  assert (m' = Z.pos m * 2 ^ s) as Hm'.
  { subst m'. destruct s as [|p|p]; [lia| |lia]. by rewrite Z.shiftl_mul_pow2. }
  pose proof (Z_div_mod m' 7036874417766400 ltac:(lia)) as Hdiv.
  destruct (Z.div_eucl m' 7036874417766400) as [q r]. destruct Hdiv as [Hq Hr].
  assert (0 < 2 ^ s) as Hpow by (apply Z.pow_pos_nonneg; lia).
  assert (0 <= q) as Hq0 by nia.
  apply binary_round_aux_below_one; [done|done|].
  intros k Hk HE.
  set (E := - (e' + k)) in *.
  assert (0 < 2 ^ k) as HK by (apply Z.pow_pos_nonneg; lia).
  pose proof (Z.mul_div_le q (2 ^ k) HK) as Hshift.
  assert (2 ^ 53 <= 2 ^ E) as HP by (apply Z.pow_le_mono_r; lia).
  destruct (Z.lt_ge_cases (q / 2 ^ k + 1) (2 ^ E)) as [|Hbig]; [done|exfalso].
  assert (0 <= q / 2 ^ k) as Hq1 by (apply Z.div_pos; lia).
  assert (s = e + 46 + E + k) as Hs' by (subst s E; lia).
  destruct Hlt as [Hlt|[-> Hlt]].
  - assert (2 ^ s <= 2 ^ (E - 1) * 2 ^ k) as Hle.
    { rewrite <- Z.pow_add_r by lia. apply Z.pow_le_mono_r; lia. }
    assert (2 ^ E = 2 * 2 ^ (E - 1)) as HE2.
    { replace E with (1 + (E - 1)) at 1 by lia. rewrite Z.pow_add_r by lia. lia. }
    nia.
  - assert (2 ^ s = 2 ^ E * 2 ^ k) as Heq.
    { rewrite <- Z.pow_add_r by lia. f_equal. lia. }
    nia.
Qed.

(** *** Signs *)

Lemma shr_fexp_nonneg prec emax m e l :
  0 <= m -> 0 <= shr_m (shr_fexp prec emax m e l).1.
Proof.
  intros Hm. destruct (shr_fexp_spec prec emax m e l Hm) as [_ ->].
  apply Z.div_pos; [done|]. apply Z.pow_pos_nonneg; lia.
Qed.

Lemma binary_round_aux_sign prec emax s m e l :
  0 <= m ->
  let x := binary_round_aux prec emax s m e l in
  x = S754_zero s \/ x = S754_infinity s \/ exists m' e', x = S754_finite s m' e'.
Proof.
  intros Hm. unfold binary_round_aux.
  pose proof (shr_fexp_nonneg prec emax m e l Hm) as H1.
  destruct (shr_fexp prec emax m e l) as [mrs' e']; cbn [fst] in H1.
  pose proof (shr_fexp_nonneg prec emax _ e' loc_Exact
                (proj1 (round_nearest_even_bounds _ (loc_of_shr_record mrs') H1))) as H2.
  destruct (shr_fexp prec emax (round_nearest_even _ _) e' loc_Exact) as [mrs'' e''].
  cbn [fst] in H2. destruct (shr_m mrs'') as [|p|p]; [by left| |lia].
  destruct (e'' <=? _)%Z; eauto.
Qed.

Lemma SFdiv_core_binary_nonneg prec emax m1 e1 m2 e2 :
  0 <= (SFdiv_core_binary prec emax (Z.pos m1) e1 (Z.pos m2) e2).1.1.
Proof.
  unfold SFdiv_core_binary.
  set (s := (_ - _ - _)%Z).
  set (m' := match s with Z0 => _ | Zpos _ => _ | Zneg _ => _ end).
  assert (0 <= m')%Z as Hm'.
  { subst m'. destruct s; try lia. apply Z.shiftl_nonneg. lia. }
  pose proof (Z_div_mod m' (Z.pos m2) ltac:(lia)) as H.
  destruct (Z.div_eucl m' (Z.pos m2)) as [q r]. cbn [fst]. nia.
Qed.

(** A finite float divided by a positive finite float keeps its sign. *)
Lemma SFdiv_finite_sign s m e m2 e2 :
  let q := SFdiv prec emax (S754_finite s m e) (S754_finite false m2 e2) in
  q = S754_zero s \/ q = S754_infinity s \/ exists m' e', q = S754_finite s m' e'.
Proof.
  cbn [SFdiv]. rewrite xorb_false_r.
  pose proof (SFdiv_core_binary_nonneg prec emax m e m2 e2) as Hq.
  destruct (SFdiv_core_binary _ _ _ _ _ _) as [[mz ez] lz]. cbn [fst] in Hq.
  by apply binary_round_aux_sign.
Qed.

(** *** Dividing by 100 *)

Lemma negative_div_100 (r : float) :
  (r <? 0)%float = true ->
  (r / 100 <? 0)%float = true \/ (r / 100)%float = (-0)%float.
Proof.
  rewrite !ltb_spec, div_spec, Prim2SF_100, Prim2SF_0. unfold SF64div.
  destruct (Prim2SF r) as [s|[]| |[] m e] eqn:Hr; try done; intros _.
  - by left.
  - destruct (SFdiv_finite_sign true m e 7036874417766400 (-46)) as [H|[H|(m' & e' & H)]].
    + right. apply Prim2SF_inj. rewrite div_spec, Prim2SF_100, Hr. exact H.
    + left. by rewrite H.
    + left. by rewrite H.
Qed.

Lemma negative_div_100_signbit (r : float) :
  (r <? 0)%float = true -> signbit (r / 100)%float = true.
Proof.
  rewrite ltb_spec, Prim2SF_0. unfold signbit.
  rewrite div_spec, Prim2SF_100. unfold SF64div.
  destruct (Prim2SF r) as [s|[]| |[] m e]; try done; intros _.
  by destruct (SFdiv_finite_sign true m e 7036874417766400 (-46))
    as [->|[->|(m' & e' & ->)]].
Qed.

Lemma nonnegative_div_100 (r : float) :
  (0 <=? r)%float = true -> (0 <=? r / 100)%float = true.
Proof.
  rewrite !leb_spec, div_spec, Prim2SF_100, Prim2SF_0. unfold SF64div.
  destruct (Prim2SF r) as [s|[]| |[] m e]; try done; intros _.
  by destruct (SFdiv_finite_sign false m e 7036874417766400 (-46))
    as [->|[->|(m' & e' & ->)]].
Qed.

Lemma below_100_div_100 (r : float) :
  (r <? 100)%float = true -> (r / 100 <? 1)%float = true.
Proof.
  rewrite !ltb_spec, div_spec, Prim2SF_100, Prim2SF_1. unfold SF64div.
  pose proof (Prim2SF_valid r) as Hvalid.
  destruct (Prim2SF r) as [s|[]| |[] m e]; try done; intros Hlt.
  - by destruct (SFdiv_finite_sign true m e 7036874417766400 (-46))
      as [->|[->|(m' & e' & ->)]].
  - destruct (SFdiv_100_below_one m e Hvalid Hlt) as [->|(m' & e' & -> & He')]; [done|].
    unfold SFltb, SFcompare. by destruct (Z.compare_spec e' (-52)); try lia.
Qed.
End FloatFacts.

(** The quotient of the smallest negative float underflows to [-0.0],
    which is not below zero. *)
Example tiny_negative_fraction :
  (-0x1p-1074 / 100)%float = (-0)%float /\
  (-0x1p-1074 / 100 <? 0)%float = false /\
  signbit (-0x1p-1074 / 100)%float = true.
Proof. vm_compute. by split_and!. Qed.

(** ** The release descriptor *)

Section ReleaseConfig.
Variables (version_code : pyval) (release_notes : string).

Lemma release_config_draft track rollout_percentage :
  let config := release_config version_code track rollout_percentage release_notes true in
  config !! "status" = Some (PyStr "draft") /\ config !! "userFraction" = None.
Proof. by split. Qed.

Lemma release_config_staged rollout_percentage :
  (rollout_percentage <? 100)%float = true ->
  let config :=
    release_config version_code "production" rollout_percentage release_notes false in
  config !! "status" = Some (PyStr "inProgress") /\
  config !! "userFraction" = Some (PyFloat (rollout_percentage / 100)%float).
Proof. intros Hlt. unfold release_config. rewrite Hlt. by split. Qed.

Lemma release_config_full rollout_percentage :
  (rollout_percentage <? 100)%float = false ->
  let config :=
    release_config version_code "production" rollout_percentage release_notes false in
  config !! "status" = Some (PyStr "completed") /\ config !! "userFraction" = None.
Proof. intros Hlt. unfold release_config. rewrite Hlt. by split. Qed.

Lemma release_config_other_track track rollout_percentage :
  track <> "production" ->
  let config := release_config version_code track rollout_percentage release_notes false in
  config !! "status" = Some (PyStr "completed") /\ config !! "userFraction" = None.
Proof.
  intros Htrack. unfold release_config.
  rewrite (bool_decide_eq_false_2 _ Htrack). by split.
Qed.

(** Whatever the arguments, the descriptor carries the version code it was
    given, alone, and the notes under [en-US]. *)
Lemma release_config_contents track rollout_percentage draft :
  let config :=
    release_config version_code track rollout_percentage release_notes draft in
  config !! "versionCodes" = Some (PyList [version_code]) /\
  config !! "releaseNotes" =
    Some (PyList [PyDict {[ "language" := PyStr "en-US";
                            "text" := PyStr release_notes ]}]).
Proof.
  unfold release_config.
  destruct draft; [by split|].
  destruct (bool_decide _ && _); by split.
Qed.

(** The fraction goes with [inProgress], and only with it. *)
Lemma release_config_fraction track rollout_percentage draft :
  let config :=
    release_config version_code track rollout_percentage release_notes draft in
  (is_Some (config !! "userFraction") <->
   config !! "status" = Some (PyStr "inProgress")) /\
  (forall fraction,
     config !! "userFraction" = Some fraction ->
     fraction = PyFloat (rollout_percentage / 100)%float /\
     (rollout_percentage / 100 <? 1)%float = true /\
     ((0 <=? rollout_percentage)%float = true ->
      (0 <=? rollout_percentage / 100)%float = true) /\
     (rollout_percentage <? 100)%float = true /\
     track = "production" /\ draft = false) /\
  (config !! "status" = Some (PyStr "draft") -> config !! "userFraction" = None).
Proof.
  unfold release_config.
  destruct draft.
  { split_and!; [split; [by intros [? [=]]|done]|done|done]. }
  destruct (bool_decide_reflect (track = "production")) as [->|Htrack]; cbn [andb].
  - destruct (rollout_percentage <? 100)%float eqn:Hlt.
    + split_and!; [split; [done|by eexists]| |done]. intros ? [= <-].
      split_and!; try done.
      * by apply FloatFacts.below_100_div_100.
      * apply FloatFacts.nonnegative_div_100.
    + split_and!; [split; [by intros [? [=]]|done]|done|done].
  - split_and!; [split; [by intros [? [=]]|done]|done|done].
Qed.
End ReleaseConfig.

(** C2. With [draft=False] on the [production] track and a rollout
    percentage [r] in [[0, 100]], the release descriptor has status
    [inProgress] (the spec's [in_progress]) with rollout fraction [r / 100]
    exactly when [r < 100], and this fraction then lies in [[0, 1)];
    otherwise [r] is 100 and the descriptor has status [completed] and no
    rollout fraction. *)
Theorem release_config_production_in_range
    (version_code : pyval) (release_notes : string) (r : float) :
  (0 <=? r)%float = true -> (r <=? 100)%float = true ->
  let config := release_config version_code "production" r release_notes false in
  ((config !! "status" = Some (PyStr "inProgress") /\
    config !! "userFraction" = Some (PyFloat (r / 100)%float))
   <-> (r <? 100)%float = true) /\
  ((r <? 100)%float = true ->
   (0 <=? r / 100)%float = true /\ (r / 100 <? 1)%float = true) /\
  ((r <? 100)%float = false ->
   (r =? 100)%float = true /\
   config !! "status" = Some (PyStr "completed") /\
   config !! "userFraction" = None).
Proof.
  intros Hge Hle. split_and!.
  - split; [|by apply release_config_staged].
    intros [Hstatus _]. destruct (r <? 100)%float eqn:Hlt; [done|].
    destruct (release_config_full version_code release_notes r Hlt) as [Hcompleted _].
    cbv zeta in Hstatus, Hcompleted. congruence.
  - intros Hlt. split.
    + by apply FloatFacts.nonnegative_div_100.
    + by apply FloatFacts.below_100_div_100.
  - intros Hlt. split; [by apply FloatFacts.at_most_100_not_below|].
    by apply release_config_full.
Qed.

Lemma release_config_production_in_range_witness :
  let config := release_config (PyInt 32) "production" 10 "Bug fixes and improvements" false in
  ((config !! "status" = Some (PyStr "inProgress") /\
    config !! "userFraction" = Some (PyFloat (10 / 100)%float))
   <-> (10 <? 100)%float = true) /\
  ((10 <? 100)%float = true ->
   (0 <=? 10 / 100)%float = true /\ (10 / 100 <? 1)%float = true) /\
  ((10 <? 100)%float = false ->
   (10 =? 100)%float = true /\
   config !! "status" = Some (PyStr "completed") /\
   config !! "userFraction" = None).
Proof.
  apply (release_config_production_in_range (PyInt 32) "Bug fixes and improvements" 10);
    vm_compute; reflexivity.
Defined.

(** C5. With [draft=True] the release descriptor has status [draft] and no
    rollout fraction, for every track and every rollout percentage. *)
Theorem release_config_draft_ignores_rollout
    (version_code : pyval) (track : string) (r : float) (release_notes : string) :
  let config := release_config version_code track r release_notes true in
  config !! "status" = Some (PyStr "draft") /\ config !! "userFraction" = None.
Proof. apply release_config_draft. Qed.

(** C6. On every track other than [production], with [draft=False], the
    release descriptor has status [completed] and no rollout fraction, for
    every rollout percentage. *)
Theorem release_config_other_tracks_completed
    (version_code : pyval) (track : string) (r : float) (release_notes : string) :
  track <> "production" ->
  let config := release_config version_code track r release_notes false in
  config !! "status" = Some (PyStr "completed") /\ config !! "userFraction" = None.
Proof. apply release_config_other_track. Qed.

Lemma release_config_other_tracks_completed_witness :
  let config := release_config (PyInt 32) "beta" 10 "Bug fixes and improvements" false in
  config !! "status" = Some (PyStr "completed") /\ config !! "userFraction" = None.
Proof.
  apply (release_config_other_tracks_completed (PyInt 32) "beta" 10
           "Bug fixes and improvements").
  vm_compute. discriminate.
Defined.

(** C10, as the code has it. With [draft=False] on the [production] track,
    a rollout percentage above 100 gives a descriptor with status
    [completed] and no rollout fraction, and a rollout percentage below 0
    gives status [inProgress] with the rollout fraction [r / 100], whose
    sign bit is set: the fraction is below zero, or it is the negative zero
    [-0.0], where the quotient underflows, and that is not below zero.
    [release_config] is total: nothing is raised on the way. *)
Theorem release_config_out_of_range
    (version_code : pyval) (release_notes : string) (r : float) :
  let config := release_config version_code "production" r release_notes false in
  ((100 <? r)%float = true ->
   config !! "status" = Some (PyStr "completed") /\ config !! "userFraction" = None) /\
  ((r <? 0)%float = true ->
   config !! "status" = Some (PyStr "inProgress") /\
   config !! "userFraction" = Some (PyFloat (r / 100)%float) /\
   signbit (r / 100)%float = true /\
   ((r / 100 <? 0)%float = true \/ (r / 100)%float = (-0)%float)).
Proof.
  split.
  - intros Habove. by apply release_config_full, FloatFacts.above_100_not_below.
  - intros Hbelow.
    destruct (release_config_staged version_code release_notes r
                (FloatFacts.below_0_below_100 r Hbelow)) as [Hstatus Hfraction].
    split_and!; [done|done|by apply FloatFacts.negative_div_100_signbit
                |by apply FloatFacts.negative_div_100].
Qed.

Lemma release_config_out_of_range_witness :
  (let config := release_config (PyInt 32) "production" 150 "notes" false in
   config !! "status" = Some (PyStr "completed") /\ config !! "userFraction" = None) /\
  (let config := release_config (PyInt 32) "production" (-5) "notes" false in
   config !! "status" = Some (PyStr "inProgress") /\
   config !! "userFraction" = Some (PyFloat (-5 / 100)%float) /\
   signbit (-5 / 100)%float = true /\
   ((-5 / 100 <? 0)%float = true \/ (-5 / 100)%float = (-0)%float)).
Proof.
  split.
  - apply (release_config_out_of_range (PyInt 32) "notes" 150). vm_compute. reflexivity.
  - apply (release_config_out_of_range (PyInt 32) "notes" (-5)). vm_compute. reflexivity.
Defined.

(** C10 fails as stated: for the rollout percentage [-5e-324], the
    negative number closest to zero, the descriptor has status [inProgress]
    and a rollout fraction that is not negative: the quotient underflows to
    [-0.0], which equals zero and is not below it. *)
Lemma rollout_underflow_fraction :
  let r := (-0x1p-1074)%float in
  let config :=
    release_config (PyInt 32) "production" r "Bug fixes and improvements" false in
  (r <? 0)%float = true /\
  config !! "status" = Some (PyStr "inProgress") /\
  config !! "userFraction" = Some (PyFloat (-0)%float) /\
  (-0 <? 0)%float = false /\
  (-0 =? 0)%float = true.
Proof. vm_compute. by split_and!. Qed.

(** ** The upload loop, one turn at a time *)

Section Loop.
Context {World : Type} (L : Library World).
Variables (package_name : string) (edit_id : pyval).

Lemma resumable_upload_turn fuel (s : state World) :
  resumable_upload L (S fuel) package_name edit_id s =
  match next_chunk L package_name edit_id (world s) with
  | (Returns (status, response), w) =>
      let t := trace s ++ [Call (NextChunk package_name edit_id)
                             (Returns (Chunk status response))] in
      match progress_line status with
      | Returns line =>
          match response with
          | None => resumable_upload L fuel package_name edit_id (State w (t ++ line))
          | Some response => (Returns response, State w (t ++ line))
          end
      | Raises e => (Raises e, State w t)
      | Diverges => (Diverges, State w t)
      end
  | (Raises e, w) =>
      (Raises e, State w (trace s ++ [Call (NextChunk package_name edit_id) (Raises e)]))
  | (Diverges, w) =>
      (Diverges, State w (trace s ++ [Call (NextChunk package_name edit_id) Diverges]))
  end.
Proof.
  cbn [resumable_upload]. unfold mbind, M_bind, perform.
  destruct (next_chunk L package_name edit_id (world s)) as [[[status response]|e|] w];
    cbn [logged fst snd]; try reflexivity.
  destruct status as [status|]; unfold progress_line.
  - unfold lift. destruct (int _) as [percent|e|]; try reflexivity.
    unfold print_progress; cbn [world trace]. by destruct response.
  - unfold mret, M_ret. rewrite app_nil_r. by destruct response.
Qed.
End Loop.

(** ** The upload loop on a given sequence of acknowledgments *)

Section Acknowledged.
Context {World : Type} (L : Library World).
Variables (package_name : string) (edit_id : pyval).

Lemma upload_events_cons status percent statuses percents response :
  upload_events package_name edit_id (status :: statuses) (percent :: percents) response =
  Call (NextChunk package_name edit_id) (Returns (Chunk (Some status) None))
    :: Progress percent
    :: upload_events package_name edit_id statuses percents response.
Proof. reflexivity. Qed.

Lemma progress_lines_upload_events statuses percents response :
  length statuses = length percents ->
  progress_lines (upload_events package_name edit_id statuses percents response) = percents.
Proof.
  revert percents; induction statuses as [|st sts IH]; intros [|p ps] Hlen;
    try done; injection Hlen as Hlen.
  rewrite upload_events_cons. unfold progress_lines in *; cbn [omap list_omap].
  f_equal. by apply IH.
Qed.

Lemma remote_ops_upload_events statuses percents response :
  length statuses = length percents ->
  remote_ops (upload_events package_name edit_id statuses percents response)
  = replicate (S (length statuses)) BundleUpload.
Proof.
  revert percents; induction statuses as [|st sts IH]; intros [|p ps] Hlen;
    try done; injection Hlen as Hlen.
  rewrite upload_events_cons. unfold remote_ops in *; cbn [omap list_omap remote_op_of].
  change (length (st :: sts)) with (S (length sts)).
  rewrite (replicate_S (S _)). f_equal. by apply IH.
Qed.

Lemma resumable_upload_acknowledged statuses : forall percents response w w' t fuel,
  acknowledges L package_name edit_id w
    ((in_progress <$> statuses) ++ [final response]) w' ->
  Forall2 (fun status percent =>
             int (progress status * 100)%float = Returns percent) statuses percents ->
  length statuses < fuel ->
  resumable_upload L fuel package_name edit_id (State w t) =
  (Returns response,
   State w' (t ++ upload_events package_name edit_id statuses percents response)).
Proof.
  unfold final, in_progress.
  induction statuses as [|st sts IH]; intros percents response w w' t fuel Hacks Hint Hfuel.
  - apply Forall2_nil_inv_l in Hint as ->.
    destruct fuel as [|fuel]; [lia|]. rewrite resumable_upload_turn.
    inversion Hacks as [|? a w1 acks ? Hnext Hrest]; subst.
    inversion Hrest; subst. cbn [world trace]. rewrite Hnext.
    cbn [progress_line]. by rewrite app_nil_r.
  - apply Forall2_cons_inv_l in Hint as (p & ps & Hp & Hps & ->).
    destruct fuel as [|fuel]; [cbn in Hfuel; lia|]. rewrite resumable_upload_turn.
    inversion Hacks as [|? a w1 acks ? Hnext Hrest]; subst.
    cbn [world trace]. rewrite Hnext. cbn [progress_line]. rewrite Hp.
    rewrite (IH ps response w1 w' _ fuel Hrest Hps) by (cbn in Hfuel; lia).
    rewrite upload_events_cons. by rewrite <- !app_assoc.
Qed.
End Acknowledged.

(** ** The console *)

Section ConsoleFacts.
Variable C : Console.

Lemma print_writable line :
  writable C = true ->
  print C line = Returns tt \/ print C line = Raises UnicodeEncodeError.
Proof. intros Hw. unfold print. rewrite Hw. destruct (encodable C line); auto. Qed.

Lemma prints_writable lines :
  writable C = true ->
  prints C lines = Returns tt \/ prints C lines = Raises UnicodeEncodeError.
Proof.
  intros Hw. induction lines as [|line lines IH]; [by left|]. cbn [prints].
  destruct (print_writable line Hw) as [->| ->]; [done|by right].
Qed.

Lemma prints_raises lines e : prints C lines = Raises e -> refuses C e.
Proof.
  induction lines as [|line lines IH]; [done|]. cbn [prints].
  destruct (print C line) as [[]|e'|] eqn:Hline; [done| |done].
  intros [= <-]. by exists line.
Qed.

Lemma print_returns_or_raises line : print C line <> Diverges.
Proof. unfold print. by destruct (encodable C line), (writable C). Qed.

Lemma prints_returns_or_raises lines : prints C lines <> Diverges.
Proof.
  induction lines as [|line lines IH]; [done|]. cbn [prints].
  pose proof (print_returns_or_raises line). by destruct (print C line) as [[]| |].
Qed.

Lemma generous_encodable line : generous C -> encodable C line = true.
Proof.
  intros [_ Henc]. unfold encodable. apply forallb_forall. intros c _.
  unfold takes. rewrite Henc. apply orb_true_r.
Qed.

Lemma generous_print line : generous C -> print C line = Returns tt.
Proof.
  intros Hgen. unfold print. rewrite (generous_encodable line Hgen).
  destruct Hgen as [-> _]. done.
Qed.

Lemma generous_prints lines : generous C -> prints C lines = Returns tt.
Proof.
  intros Hgen. induction lines as [|line lines IH]; [done|]. cbn [prints].
  by rewrite generous_print.
Qed.

(** Line 126 is ASCII: it is written exactly when the console is written
    to. *)
Lemma print_authenticating :
  print C authenticating = if writable C then Returns tt else Raises OSError.
Proof. unfold print. by destruct (writable C). Qed.

Lemma prints_encodable lines :
  writable C = true -> forallb (encodable C) lines = true -> prints C lines = Returns tt.
Proof.
  intros Hw. induction lines as [|line lines IH]; [done|].
  cbn [forallb prints]. intros [Hline Hlines]%andb_prop.
  unfold print. rewrite Hline, Hw. by apply IH.
Qed.

(** The handler on what a console that is written to raises, on a missing
    key and on a progress value that is no number: the report is ASCII. *)
Lemma caught_refused {A} :
  writable C = true -> caught (A := A) C (Raises UnicodeEncodeError) = Returns false.
Proof.
  intros Hw. unfold caught, UnicodeEncodeError.
  rewrite prints_encodable; [done|done|]. vm_compute. reflexivity.
Qed.

Lemma caught_getitem d key :
  writable C = true -> key = "id" \/ key = "versionCode" ->
  d !! key = None -> caught C (getitem d key) = Returns false.
Proof.
  intros Hw Hkey Hnone. unfold getitem. rewrite Hnone. unfold caught.
  rewrite prints_encodable; [done|done|].
  destruct Hkey as [-> | ->]; vm_compute; reflexivity.
Qed.

Lemma caught_int x :
  writable C = true -> returned (int x) = false -> caught C (int x) = Returns false.
Proof.
  intros Hw. unfold int. destruct (Prim2SF x); try done; intros _.
  all: unfold caught; rewrite prints_encodable; [done|done|]; vm_compute; reflexivity.
Qed.
Lemma caught_progress_line status :
  writable C = true ->
  returned (progress_line status) = false ->
  caught C (progress_line status) = Returns false.
Proof.
  intros Hw. destruct status as [status|]; cbn [progress_line]; [|done].
  intros Hbad. pose proof (caught_int (progress status * 100)%float Hw) as Hint.
  destruct (int _) as [percent|e|]; [done|by apply Hint..].
Qed.
End ConsoleFacts.

Lemma remote_ops_progress_line status line :
  progress_line status = Returns line -> remote_ops line = [].
Proof.
  destruct status as [status|]; cbn [progress_line]; [|by intros [= <-]].
  destruct (int _); by intros [= <-].
Qed.

(** ** The [try] statement, one step at a time *)

Section TryFacts.
Context {World : Type} (L : Library World).

Lemma try_except_mbind {A B} (m : M World A) (k : A -> M World B) h (s : state World) :
  try_except (m ≫= k) h s =
  match m s with
  | (Returns a, s') => try_except (k a) h s'
  | (Raises (Exception msg), s') => h msg s'
  | (Raises (BaseException msg), s') => (Raises (BaseException msg), s')
  | (Diverges, s') => (Diverges, s')
  end.
Proof.
  unfold try_except, mbind, M_bind. by destruct (m s) as [[a|[msg|msg]|] s'].
Qed.

Lemma try_except_perform {A B} c (f : World -> outcome A * World) r
    (k : A -> M World B) h (s : state World) :
  try_except (perform c f r ≫= k) h s =
  match f (world s) with
  | (Returns a, w) => try_except (k a) h (State w (trace s ++ [Call c (Returns (r a))]))
  | (Raises (Exception msg), w) =>
      h msg (State w (trace s ++ [Call c (Raises (Exception msg))]))
  | (Raises (BaseException msg), w) =>
      (Raises (BaseException msg),
       State w (trace s ++ [Call c (Raises (BaseException msg))]))
  | (Diverges, w) => (Diverges, State w (trace s ++ [Call c Diverges]))
  end.
Proof.
  rewrite try_except_mbind. unfold perform.
  by destruct (f (world s)) as [[a|[msg|msg]|] w].
Qed.

Lemma try_except_lift {A B} (o : outcome A) (k : A -> M World B) h (s : state World) :
  try_except (lift o ≫= k) h s =
  match o with
  | Returns a => try_except (k a) h s
  | Raises (Exception msg) => h msg s
  | Raises (BaseException msg) => (Raises (BaseException msg), s)
  | Diverges => (Diverges, s)
  end.
Proof. rewrite try_except_mbind. unfold lift. by destruct o as [a|[msg|msg]|]. Qed.

Lemma try_except_says {B} lines (k : unit -> M World B) h (s : state World) :
  try_except (says L lines ≫= k) h s =
  match prints (stdout L) lines with
  | Returns a => try_except (k a) h s
  | Raises (Exception msg) => h msg s
  | Raises (BaseException msg) => (Raises (BaseException msg), s)
  | Diverges => (Diverges, s)
  end.
Proof. apply try_except_lift. Qed.

Lemma try_except_mret {A} (a : A) h (s : state World) :
  try_except (mret a) h s = (Returns a, s).
Proof. reflexivity. Qed.

Lemma except_Exception_caught {A} msg (s : state World) :
  except_Exception L msg s = (caught (A := A) (stdout L) (Raises (Exception msg)), s).
Proof.
  unfold except_Exception, says, lift, mbind, M_bind, caught.
  by destruct (prints (stdout L) (error_report msg)) as [[]|e|].
Qed.
End TryFacts.

(** ** Every run of the script is a run of the transition system *)

Section Characterisation.
Context {World : Type} (L : Library World).
Variables (SERVICE_ACCOUNT_FILE package_name aab_path track : string).
Variables (rollout_percentage : float) (release_notes : string) (draft : bool).
Variable fuel : nat.

Local Abbreviation reaches :=
  (reaches SERVICE_ACCOUNT_FILE package_name aab_path track rollout_percentage
     release_notes draft).
Local Abbreviation run :=
  (run SERVICE_ACCOUNT_FILE package_name aab_path track rollout_percentage
     release_notes draft (stdout L) fuel).
Local Abbreviation step :=
  (step SERVICE_ACCOUNT_FILE package_name aab_path track rollout_percentage
     release_notes draft).
Local Abbreviation submits_releases :=
  (submits_releases package_name track rollout_percentage release_notes draft).

(** The loop either hands over a response, having been acknowledged up to
    the final chunk, or ends the run; [k] chunks have been asked for, and
    there is fuel for [n] more. *)
Lemma resumable_upload_run n edit_id : forall (s : state World) k,
  k + n = fuel ->
  reaches (trace s) (Uploading edit_id) ->
  remote_ops (trace s) = OpenEdit :: replicate k BundleUpload ->
  match resumable_upload L n package_name edit_id s with
  | (Returns response, s') =>
      exists t status line,
        trace s' = t ++ Call (NextChunk package_name edit_id)
                          (Returns (Chunk status (Some response))) :: line /\
        reaches t (Uploading edit_id) /\
        progress_line status = Returns line
  | (o, s') => run (caught (stdout L) o) (trace s')
  end.
Proof.
  induction n as [|n IH]; intros s k Hfuel Hs Hops.
  { apply run_still_uploading with edit_id; [done|].
    rewrite Hops. do 2 f_equal. lia. }
  rewrite resumable_upload_turn.
  destruct (next_chunk L package_name edit_id (world s)) as [[[status response]|e|] w].
  - destruct (progress_line status) as [line|e|] eqn:Hline.
    + destruct response as [response|].
      * cbn [trace]. exists (trace s), status, line.
        by rewrite <- app_assoc.
      * apply (IH _ (S k)); [lia| |].
        -- cbn [trace]. rewrite <- app_assoc.
           eapply reaches_step; [done|]. by apply step_chunk.
        -- cbn [trace]. unfold remote_ops in *. rewrite !omap_app, Hops.
           cbn [omap list_omap remote_op_of].
           fold (remote_ops line). rewrite (remote_ops_progress_line _ _ Hline).
           by rewrite app_nil_r, replicate_S_end.
    + pose proof (run_bad_progress SERVICE_ACCOUNT_FILE package_name aab_path track
                    rollout_percentage release_notes draft (stdout L) fuel
                    _ _ status response Hs) as Hrun.
      rewrite Hline in Hrun. by apply Hrun.
    + pose proof (run_bad_progress SERVICE_ACCOUNT_FILE package_name aab_path track
                    rollout_percentage release_notes draft (stdout L) fuel
                    _ _ status response Hs) as Hrun.
      rewrite Hline in Hrun. by apply Hrun.
  - cbn [trace]. by eapply run_call_failed with (o := Raises e).
  - cbn [trace]. by eapply run_call_failed with (o := Diverges).
Qed.

Lemma reaches_after t p es q : step p es q -> reaches t p -> reaches (t ++ es) q.
Proof. intros; by eapply reaches_step. Qed.

(** Walk a trace backwards, one answered call at a time. *)
Ltac walk :=
  first [ eassumption
        | apply reaches_start
        | eapply reaches_after; [solve [econstructor; eauto]|walk] ].

(** The script has ended: read off what it returned and the trace it left. *)
Ltac leaf :=
  let H := fresh in intros H; apply pair_equal_spec in H as [<- <-]; cbn [trace].

(** The call just made raised an [Exception], which the handler reports;
    raised something else; or never answered. *)
Ltac failed :=
  rewrite (except_Exception_caught L (A := reply)); leaf;
  eapply run_call_failed with (o := Raises (Exception _)); [walk|reflexivity|reflexivity].

Ltac interrupted :=
  leaf;
  eapply run_call_failed with (o := Raises (BaseException _));
  [walk|reflexivity|reflexivity].

Ltac hung :=
  leaf; eapply run_call_failed with (o := Diverges); [walk|reflexivity|reflexivity].

(** The next statement is a call. *)
Ltac called :=
  cbv beta zeta; rewrite try_except_perform; cbn [world trace].

(** The next statement writes lines: the console takes them, or the
    handler reports that it does not. *)
Ltac written Hw :=
  cbv beta zeta; rewrite try_except_says;
  match goal with
  | |- match prints ?C ?lines with _ => _ end = _ -> _ =>
      let Hp := fresh "Hp" in
      destruct (prints_writable C lines Hw) as [Hp|Hp]; rewrite Hp;
      [cbv beta zeta
      |unfold UnicodeEncodeError at 1;
       rewrite (except_Exception_caught L (A := reply));
       rewrite (caught_refused _ Hw); leaf;
       eapply run_refused; [walk|exact Hp]]
  end.

(** Whatever the outside world answers, a call of the script that has
    written line 126 and finds the credentials file is a run of the
    transition system. *)
Theorem upload_to_google_play_run (w : World) o s :
  writable (stdout L) = true ->
  os_path_exists L SERVICE_ACCOUNT_FILE w = true ->
  upload_to_google_play L SERVICE_ACCOUNT_FILE fuel package_name aab_path
    track rollout_percentage release_notes draft (State w []) = (o, s) ->
  run o (trace s).
Proof.
  intros Hw Hexists. unfold upload_to_google_play.
  unfold mbind at 1, M_bind at 1.
  change (say L authenticating (State w []))
    with (print (stdout L) authenticating, State w []).
  rewrite print_authenticating, Hw.
  unfold mbind at 1, M_bind at 1, ask. cbn [world]. rewrite Hexists. cbn [negb].
  called.
  destruct (from_service_account_file L _ _ w) as [[[]|[msg|msg]|] w1];
    [|failed|interrupted|hung].
  called.
  destruct (build L _ _ w1) as [[[]|[msg|msg]|] w2]; [|failed|interrupted|hung].
  written Hw.
  called.
  destruct (edits_insert_execute L _ _ w2) as [[edit|[msg|msg]|] w3];
    [|failed|interrupted|hung].
  cbv beta zeta. rewrite try_except_lift.
  destruct (edit !! "id") as [edit_id|] eqn:Hid; cycle 1.
  { pose proof (caught_getitem (stdout L) edit "id" Hw ltac:(by left) Hid) as Hcaught.
    unfold getitem in *. rewrite Hid in *.
    rewrite (except_Exception_caught L (A := pyval)), Hcaught.
    leaf. eapply run_no_edit_id; [walk|done]. }
  unfold getitem at 1. rewrite Hid. cbv beta zeta.
  written Hw.
  called.
  destruct (os_path_getsize L _ w3) as [[n|[msg|msg]|] w4]; [|failed|interrupted|hung].
  written Hw.
  called.
  destruct (MediaFileUpload L _ _ _ w4) as [[[]|[msg|msg]|] w5];
    [|failed|interrupted|hung].
  called.
  destruct (bundles_upload L _ _ _ w5) as [[[]|[msg|msg]|] w6];
    [|failed|interrupted|hung].
  cbv beta zeta. rewrite try_except_mbind.
  match goal with
  | |- context [resumable_upload L fuel package_name edit_id ?s] =>
      pose proof (resumable_upload_run fuel edit_id s 0 eq_refl
                    ltac:(cbn [trace]; walk) eq_refl) as Hloop;
      destruct (resumable_upload L fuel package_name edit_id s) as [[response|e|] s7]
  end.
  - destruct Hloop as (t & status & line & Ht & Hreach & Hline).
    destruct s7 as [w7 t7]. cbn [trace] in Ht. subst t7.
    cbv beta zeta.
    rewrite try_except_says.
    match goal with
    | |- match prints ?C ?lines with _ => _ end = _ -> _ =>
        destruct (prints_writable C lines Hw) as [Hdone|Hdone]; rewrite Hdone
    end; cycle 1.
    { unfold UnicodeEncodeError at 1.
      rewrite (except_Exception_caught L (A := reply)), (caught_refused _ Hw). leaf.
      destruct (response !! "versionCode") as [version_code|] eqn:Hvc.
      - eapply run_refused; [|exact Hdone]. walk.
      - by eapply run_no_version_code. }
    rewrite try_except_lift.
    destruct (response !! "versionCode") as [version_code|] eqn:Hvc; cycle 1.
    { pose proof (caught_getitem (stdout L) response "versionCode" Hw
                    ltac:(by right) Hvc) as Hcaught.
      unfold getitem in *. rewrite Hvc in *.
      rewrite (except_Exception_caught L (A := pyval)), Hcaught.
      leaf. by eapply run_no_version_code. }
    unfold getitem at 1. rewrite Hvc. cbv beta zeta.
    written Hw.
    written Hw.
    called.
    destruct (tracks_update_execute L _ _ _ _ w7) as [[[]|[msg|msg]|] w8];
      [|failed|interrupted|hung].
    written Hw.
    called.
    destruct (edits_commit_execute L _ _ w8) as [[[]|[msg|msg]|] w9];
      [|failed|interrupted|hung].
    written Hw.
    cbv beta zeta. rewrite try_except_mret. leaf. apply run_finished. walk.
  - destruct e as [msg|msg].
    + rewrite (except_Exception_caught L (A := dict)). by leaf.
    + by leaf.
  - by leaf.
Qed.

(** Without the credentials file the script writes line 126 and the setup
    instructions, and makes no call. *)
Lemma upload_to_google_play_without_credentials (s : state World) :
  os_path_exists L SERVICE_ACCOUNT_FILE (world s) = false ->
  upload_to_google_play L SERVICE_ACCOUNT_FILE fuel package_name aab_path
    track rollout_percentage release_notes draft s
  = (match prints (stdout L) (authenticating :: setup_instructions SERVICE_ACCOUNT_FILE) with
     | Returns _ => Returns false
     | Raises e => Raises e
     | Diverges => Diverges
     end, s).
Proof.
  intros Hmissing. unfold upload_to_google_play.
  unfold mbind at 1, M_bind at 1.
  change (say L authenticating s) with (print (stdout L) authenticating, s).
  cbn [prints]. destruct (print (stdout L) authenticating) as [[]|e|]; [|done..].
  unfold mbind, M_bind, ask, says, lift. rewrite Hmissing. cbn [negb].
  by destruct (prints _ _) as [[]|e|].
Qed.

(** Line 126 is the first thing a call does. *)
Lemma upload_to_google_play_unwritable (s : state World) :
  writable (stdout L) = false ->
  upload_to_google_play L SERVICE_ACCOUNT_FILE fuel package_name aab_path
    track rollout_percentage release_notes draft s = (Raises OSError, s).
Proof.
  intros Hw. unfold upload_to_google_play. unfold mbind at 1, M_bind at 1.
  change (say L authenticating s) with (print (stdout L) authenticating, s).
  by rewrite print_authenticating, Hw.
Qed.
End Characterisation.

(** ** What holds of the runs of the transition system *)

Section RunFacts.
Variables (SERVICE_ACCOUNT_FILE package_name aab_path track : string).
Variables (rollout_percentage : float) (release_notes : string) (draft : bool).
Variables (C : Console) (fuel : nat).

Local Abbreviation reaches :=
  (reaches SERVICE_ACCOUNT_FILE package_name aab_path track rollout_percentage
     release_notes draft).
Local Abbreviation run :=
  (run SERVICE_ACCOUNT_FILE package_name aab_path track rollout_percentage
     release_notes draft C fuel).
Local Abbreviation step :=
  (step SERVICE_ACCOUNT_FILE package_name aab_path track rollout_percentage
     release_notes draft).
Local Abbreviation submits_releases :=
  (submits_releases package_name track rollout_percentage release_notes draft).

(** *** What holds along the way *)

Lemma reaches_succeeded t p : reaches t p -> Forall (fun e => succeeded e = true) t.
Proof.
  induction 1 as [|t p es q _ IH Hstep]; [by constructor|].
  apply Forall_app; split; [done|].
  destruct Hstep; repeat constructor.
  all: match goal with
       | H : progress_line ?status = Returns _ |- _ =>
           destruct status; cbn [progress_line] in H;
           [destruct (int _); simplify_eq|simplify_eq]
       end.
  all: repeat constructor.
Qed.

Lemma reaches_remote_ops t p : reaches t p -> exists k, remote_ops t = ops_at p k.
Proof.
  assert (Hline : forall status line,
             progress_line status = Returns line -> remote_ops line = []).
  { intros [status|] line; cbn [progress_line]; [|by intros [= <-]].
    destruct (int _); by intros [= <-]. }
  induction 1 as [|t p es q _ [k IH] Hstep]; [by exists 0|].
  unfold remote_ops in *. rewrite omap_app, IH.
  destruct Hstep; cbn [omap list_omap remote_op_of ops_at];
    try rewrite (Hline _ _ ltac:(eassumption)).
  1-6: by exists 0.
  1-2: by exists (S k); rewrite replicate_S_end.
  - by exists k.
  - exists k. unfold protocol. cbn [app]. by rewrite <- app_assoc.
Qed.

Lemma progress_line_cases status line :
  progress_line status = Returns line ->
  line = [] \/ exists percent, line = [Progress percent].
Proof.
  destruct status as [status|]; cbn [progress_line]; [|intros [= <-]; by left].
  destruct (int _) as [percent| |]; intros [= <-]. right; by exists percent.
Qed.

Lemma all_succeeded_stops t :
  Forall (fun e => succeeded e = true) t -> stops_at_failure t.
Proof.
  intros Hall t1 e t2 -> _. rewrite Forall_app, Forall_cons in Hall. tauto.
Qed.

Lemma all_succeeded_stops_after t e :
  Forall (fun e => succeeded e = true) t -> stops_at_failure (t ++ [e]).
Proof.
  intros Hall t1 e' t2 Heq Hmore.
  destruct (exists_last Hmore) as (t2' & e'' & ->).
  change (t1 ++ e' :: t2' ++ [e'']) with (t1 ++ (e' :: t2') ++ [e'']) in Heq.
  rewrite app_assoc in Heq. apply app_inj_tail in Heq as [-> _].
  rewrite Forall_app, Forall_cons in Hall. tauto.
Qed.

(** *** What holds of every run *)

Lemma reaches_uploaded t p :
  reaches t p -> uploaded p = true -> BundleUpload ∈ remote_ops t.
Proof.
  induction 1 as [|t p es q Ht IH Hstep]; [done|].
  unfold remote_ops in *. rewrite omap_app.
  destruct Hstep; try done; intros _.
  - apply elem_of_app. right. by left.
  - apply elem_of_app. left. by apply IH.
  - apply elem_of_app. left. by apply IH.
Qed.

(** Past the upload, at least one chunk was asked for. *)
Lemma reaches_ops_uploaded t p :
  reaches t p -> uploaded p = true -> exists k, remote_ops t = ops_at p (S k).
Proof.
  intros Ht Hp. pose proof (reaches_uploaded _ _ Ht Hp) as Hop.
  destruct (reaches_remote_ops _ _ Ht) as [[|k] Hk]; [|by exists k].
  rewrite Hk in Hop. destruct p; try done; cbn in Hop.
  all: repeat (apply elem_of_cons in Hop as [[=]|Hop]); by apply elem_of_nil in Hop.
Qed.

Lemma protocol_sent k :
  OpenEdit :: replicate k BundleUpload ++ [BundleUpload] `prefix_of` protocol (S k).
Proof.
  exists [TrackUpdate; CommitEdit]. unfold protocol.
  rewrite replicate_S_end. simpl. by rewrite <- !app_assoc.
Qed.

Lemma reaches_protocol t p :
  reaches t p -> exists k, remote_ops t `prefix_of` protocol (S k).
Proof.
  intros Ht. destruct (uploaded p) eqn:Hp.
  - destruct (reaches_ops_uploaded _ _ Ht Hp) as [k ->]. exists k.
    destruct p; try done; cbn [ops_at].
    + by exists [TrackUpdate; CommitEdit].
    + exists [CommitEdit]. unfold protocol. simpl. by rewrite <- app_assoc.
  - destruct (reaches_remote_ops _ _ Ht) as [k ->].
    destruct p; try done; cbn [ops_at].
    1-3: exists 0; apply prefix_nil.
    1-3: by exists 0, [BundleUpload; TrackUpdate; CommitEdit].
    exists k. etrans; [|apply protocol_sent]. by exists [BundleUpload].
Qed.

Lemma run_protocol o t : run o t -> exists k, remote_ops t `prefix_of` protocol (S k).
Proof.
  destruct 1 as [t Ht|t p c o Ht Hc _|t edit Ht _|t edit_id status response Ht _
                |t edit_id status line response Ht Hline _|t edit_id Ht _
                |t p lines e Ht _];
    try (by eapply reaches_protocol).
  - destruct (uploaded p) eqn:Hp.
    + destruct (reaches_ops_uploaded _ _ Ht Hp) as [k Hk]. exists k.
      unfold remote_ops in *. rewrite omap_app, Hk.
      destruct p; simplify_eq/=.
      * exists [CommitEdit]. unfold protocol. simpl. by rewrite <- app_assoc.
      * exists []. unfold protocol. simpl. by rewrite <- !app_assoc, app_nil_r.
    + destruct (reaches_remote_ops _ _ Ht) as [k Hk].
      unfold remote_ops in *. rewrite omap_app, Hk.
      destruct p; simplify_eq/=.
      1-2: exists 0; apply prefix_nil.
      1-4: by exists 0, [BundleUpload; TrackUpdate; CommitEdit].
      exists k. apply protocol_sent.
  - by exists 0, [BundleUpload; TrackUpdate; CommitEdit];
      destruct (reaches_remote_ops _ _ Ht) as [k Hk];
      unfold remote_ops in *; rewrite omap_app, Hk.
  - destruct (reaches_remote_ops _ _ Ht) as [k Hk].
    unfold remote_ops in *. rewrite omap_app, Hk.
    exists k. apply protocol_sent.
  - destruct (reaches_remote_ops _ _ Ht) as [k Hk].
    unfold remote_ops in *. rewrite omap_app, Hk. exists k.
    destruct (progress_line_cases _ _ Hline) as [->|[percent ->]]; apply protocol_sent.
Qed.

Lemma run_stops_at_failure o t : run o t -> stops_at_failure t.
Proof.
  destruct 1 as [t Ht|t p c o Ht Hc _|t edit Ht _|t edit_id status response Ht _
                |t edit_id status line response Ht Hline _|t edit_id Ht _
                |t p lines e Ht _];
    pose proof (reaches_succeeded _ _ Ht) as Hall.
  - by apply all_succeeded_stops.
  - by apply all_succeeded_stops_after.
  - by apply all_succeeded_stops_after.
  - by apply all_succeeded_stops_after.
  - apply all_succeeded_stops, Forall_app; split; [done|].
    destruct (progress_line_cases _ _ Hline) as [->|[percent ->]]; by repeat constructor.
  - by apply all_succeeded_stops.
  - by apply all_succeeded_stops.
Qed.

Lemma caught_not_true {A} (o : outcome A) : caught C o <> Returns true.
Proof.
  destruct o as [a|[msg|msg]|]; cbn [caught]; try done.
  by destruct (prints _ _) as [[]| |].
Qed.

(** A run that returns [True] has gone through every point. *)
Lemma run_true t : run (Returns true) t -> reaches t Finished.
Proof.
  inversion 1 as [t' Ht|t' p c o Ht Hc Ho Hcaught|t' edit Ht|t' edit_id status response Ht
                    Hbad Hcaught|t' edit_id status line response Ht| |]; subst.
  - done.
  - by apply caught_not_true in Hcaught.
  - by apply caught_not_true in Hcaught.
Qed.

Lemma reaches_finished_commit t :
  reaches t Finished ->
  exists t1 edit_id,
    t = t1 ++ [Call (EditsCommit package_name edit_id) (Returns Object)] /\
    reaches t1 (Committing edit_id).
Proof. inversion 1 as [|t1 p es q Ht1 Hstep]; subst. inversion Hstep; subst. eauto. Qed.

Lemma run_committed t :
  run (Returns true) t ->
  exists t1 edit_id, t = t1 ++ [Call (EditsCommit package_name edit_id) (Returns Object)].
Proof.
  intros Ht%run_true. destruct (reaches_finished_commit _ Ht) as (t1 & edit_id & -> & _).
  eauto.
Qed.

(** What is left of a run on a console that takes every line: it goes on
    until a call fails, an answer lacks its key, a progress value is no
    number, or the fuel of the loop is spent. *)
Lemma run_goes_on o t :
  generous C -> run o t -> Forall (fun e => succeeded e = true) t ->
  o = Returns true \/
  (exists t1 edit,
     t = t1 ++ [Call (EditsInsert ∅ package_name) (Returns (Body edit))] /\
     edit !! "id" = None) \/
  (exists t1 edit_id status response,
     t = t1 ++ [Call (NextChunk package_name edit_id) (Returns (Chunk status response))] /\
     returned (progress_line status) = false) \/
  (exists t1 edit_id status response line,
     t = t1 ++ Call (NextChunk package_name edit_id)
                  (Returns (Chunk status (Some response))) :: line /\
     progress_line status = Returns line /\
     response !! "versionCode" = None) \/
  (o = Diverges /\ remote_ops t = OpenEdit :: replicate fuel BundleUpload).
Proof.
  intros Hgen.
  destruct 1 as [t Ht|t p c o Ht Hc Ho|t edit Ht Hid|t edit_id status response Ht Hbad
                |t edit_id status line response Ht Hline Hvc|t edit_id Ht Hops
                |t p lines e Ht Hp]; intros Hall.
  - by left.
  - rewrite Forall_app, Forall_singleton in Hall. destruct Hall as [_ Hlast].
    cbn [succeeded] in Hlast. rewrite Hlast in Ho. discriminate Ho.
  - right. left. eauto.
  - right. right. left. eauto 10.
  - right. right. right. left. eauto 10.
  - do 4 right. done.
  - by rewrite (generous_prints _ lines Hgen) in Hp.
Qed.

Lemma progress_line_not_call status line c o :
  progress_line status = Returns line -> Call c o ∉ line.
Proof.
  intros [->|[percent ->]]%progress_line_cases; [apply not_elem_of_nil|].
  by intros [=]%list_elem_of_singleton.
Qed.

Lemma reaches_version_code t edit_id version_code :
  reaches t (CreatingRelease edit_id version_code) ->
  exists status response,
    Call (NextChunk package_name edit_id) (Returns (Chunk status (Some response))) ∈ t /\
    response !! "versionCode" = Some version_code.
Proof.
  inversion 1 as [|t1 p es q _ Hstep]; subst. inversion Hstep; subst.
  eexists _, _. split; [|done]. apply elem_of_app. right. by left.
Qed.

Lemma submits_releases_app t es :
  submits_releases t ->
  (forall package_name' edit_id track' body o,
     Call (TracksUpdate package_name' edit_id track' body) o ∉ es) ->
  submits_releases (t ++ es).
Proof.
  intros Ht Hes package_name' edit_id track' body o [Hin|Hin]%elem_of_app.
  - destruct (Ht _ _ _ _ _ Hin) as (status & response & version_code & ? & ?).
    exists status, response, version_code. split; [|done]. apply elem_of_app. by left.
  - by apply Hes in Hin.
Qed.

Lemma submits_releases_track t edit_id version_code o :
  reaches t (CreatingRelease edit_id version_code) ->
  submits_releases t ->
  submits_releases
    (t ++ [Call (TracksUpdate package_name edit_id track
                   (releases track rollout_percentage release_notes draft version_code))
             o]).
Proof.
  intros Hreach Ht package_name' edit_id' track' body o' [Hin|Hin]%elem_of_app.
  - destruct (Ht _ _ _ _ _ Hin) as (status & response & version_code' & ? & ?).
    exists status, response, version_code'. split; [|done]. apply elem_of_app. by left.
  - apply list_elem_of_singleton in Hin. injection Hin as -> -> -> -> ->.
    destruct (reaches_version_code _ _ _ Hreach) as (status & response & ? & ?).
    exists status, response, version_code. split; [|done]. apply elem_of_app. by left.
Qed.

Ltac no_track_update :=
  let Hin := fresh "Hin" in
  intros ? ? ? ? ? Hin;
  repeat (apply elem_of_cons in Hin as [[=]|Hin]);
  by apply elem_of_nil in Hin.

Lemma reaches_submits_releases t p : reaches t p -> submits_releases t.
Proof.
  induction 1 as [|t p es q Ht IH Hstep].
  { intros ? ? ? ? ? []%not_elem_of_nil. }
  destruct Hstep; try (apply submits_releases_app; [done|no_track_update]).
  - apply submits_releases_app; [done|]. intros ? ? ? ? ?.
    intros [[=]|Hin]%elem_of_cons. by apply (progress_line_not_call status) in Hin.
  - apply submits_releases_app; [done|]. intros ? ? ? ? ?.
    intros [[=]|Hin]%elem_of_cons. by apply (progress_line_not_call status) in Hin.
  - by apply submits_releases_track.
Qed.

Lemma run_submits_releases o t : run o t -> submits_releases t.
Proof.
  destruct 1 as [t Ht|t p c o Ht Hc Ho|t edit Ht _|t edit_id status response Ht Hbad
                |t edit_id status line response Ht Hline _|t edit_id Ht _
                |t p lines e Ht _];
    pose proof (reaches_submits_releases _ _ Ht) as Hsub; try done.
  - destruct p; simplify_eq/=;
      try (apply submits_releases_app; [done|no_track_update]).
    by apply submits_releases_track.
  - apply submits_releases_app; [done|no_track_update].
  - apply submits_releases_app; [done|no_track_update].
  - apply submits_releases_app; [done|]. intros ? ? ? ? ?.
    intros [[=]|Hin]%elem_of_cons. by apply (progress_line_not_call status) in Hin.
Qed.

End RunFacts.

(** ** The publishing protocol *)

Section Protocol.
Context {World : Type} (L : Library World).
Variables (SERVICE_ACCOUNT_FILE package_name aab_path track : string).
Variables (rollout_percentage : float) (release_notes : string) (draft : bool).

Local Abbreviation publish fuel w :=
  (upload_to_google_play L SERVICE_ACCOUNT_FILE fuel package_name aab_path track
     rollout_percentage release_notes draft (State w [])).

(** A call of the script ends before the [try] statement, on a line the
    console refuses or on the missing credentials file, with nothing on the
    trace; or it is a run of the transition system. *)
Lemma publish_cases fuel (w : World) :
  (exists e, publish fuel w = (Raises e, State w []) /\ refuses (stdout L) e) \/
  (os_path_exists L SERVICE_ACCOUNT_FILE w = false /\
   publish fuel w = (Returns false, State w [])) \/
  (writable (stdout L) = true /\
   os_path_exists L SERVICE_ACCOUNT_FILE w = true /\
   run SERVICE_ACCOUNT_FILE package_name aab_path track rollout_percentage
     release_notes draft (stdout L) fuel (publish fuel w).1 (trace (publish fuel w).2)).
Proof.
  destruct (writable (stdout L)) eqn:Hw; cycle 1.
  { left. exists OSError. split; [by apply upload_to_google_play_unwritable|].
    exists authenticating. by rewrite print_authenticating, Hw. }
  destruct (os_path_exists L SERVICE_ACCOUNT_FILE w) eqn:Hexists.
  - right. right. split_and!; [done..|].
    eapply upload_to_google_play_run; [done..|]. apply surjective_pairing.
  - rewrite (upload_to_google_play_without_credentials L _ _ _ _ _ _ _ _ (State w []))
      by done.
    pose proof (prints_returns_or_raises (stdout L)
                  (authenticating :: setup_instructions SERVICE_ACCOUNT_FILE)) as Hdiv.
    destruct (prints _ _) as [[]|e|] eqn:Hprints; [| |done].
    + right. left. done.
    + left. exists e. split; [done|]. by eapply prints_raises.
Qed.

Lemma stops_at_failure_before t1 e t2 :
  stops_at_failure (t1 ++ e :: t2) -> Forall (fun e => succeeded e = true) t1.
Proof.
  intros Hstops. apply Forall_forall. intros e' (t1a & t1b & ->)%list_elem_of_split.
  apply (Hstops t1a e' (t1b ++ e :: t2)); [by rewrite <- app_assoc|].
  by destruct t1b.
Qed.

(** The same, for what the properties of a run need: a call that does not
    get as far as the [try] statement does not return [True] and leaves
    nothing on the trace. *)
Lemma upload_to_google_play_cases fuel (w : World) o s :
  upload_to_google_play L SERVICE_ACCOUNT_FILE fuel package_name aab_path track
    rollout_percentage release_notes draft (State w []) = (o, s) ->
  (o <> Returns true /\ trace s = []) \/
  (writable (stdout L) = true /\
   run SERVICE_ACCOUNT_FILE package_name aab_path track rollout_percentage
     release_notes draft (stdout L) fuel o (trace s)).
Proof.
  intros Hupload.
  destruct (publish_cases fuel w) as [(e & Heq & _)|[[_ Heq]|(Hw & _ & Hrun)]];
    rewrite Hupload in *.
  - left. by injection Heq as -> ->.
  - left. by injection Heq as -> ->.
  - by right.
Qed.
End Protocol.


(** C9, as the code has it. When the service-account file does not exist,
    [upload_to_google_play] leaves the world and the trace as they were: no
    credentials are loaded, no client is built and no remote call is made.
    It returns [False] when the console takes line 126 and the eleven lines
    of the setup instructions, as every console does that is written to and
    encodes the path of the file; when the console refuses one of them,
    the exception of [print] leaves the function instead. *)
Theorem upload_to_google_play_missing_credentials {World : Type} (L : Library World)
    (SERVICE_ACCOUNT_FILE package_name aab_path track : string)
    (rollout_percentage : float) (release_notes : string) (draft : bool)
    (fuel : nat) (s : state World) :
  os_path_exists L SERVICE_ACCOUNT_FILE (world s) = false ->
  let result :=
    upload_to_google_play L SERVICE_ACCOUNT_FILE fuel package_name aab_path track
      rollout_percentage release_notes draft s in
  let written :=
    prints (stdout L) (authenticating :: setup_instructions SERVICE_ACCOUNT_FILE) in
  result.2 = s /\
  (written = Returns tt <-> result.1 = Returns false) /\
  (forall e, written = Raises e <-> result.1 = Raises e) /\
  (writable (stdout L) = true ->
   forallb (takes (stdout L)) (codes SERVICE_ACCOUNT_FILE) = true ->
   result.1 = Returns false).
Proof.
  intros Hmissing. cbv zeta.
  rewrite upload_to_google_play_without_credentials by done. cbn [fst snd].
  split_and!.
  - done.
  - by destruct (prints _ _) as [[]|e|].
  - intros e. destruct (prints _ _) as [[]|e'|]; split; congruence.
  - intros Hw Hpath. rewrite prints_encodable; [done|done|].
    unfold setup_instructions, authenticating, encodable.
    cbn [forallb flat_map chars app RED YELLOW CYAN NC LF].
    rewrite !forallb_app, Hpath. vm_compute. reflexivity.
Qed.

Lemma upload_to_google_play_missing_credentials_witness :
  let result :=
    upload_to_google_play (scripted false) "service-account.json" 5 "com.example.app"
      "app-release.aab" "production" 100 "Bug fixes and improvements" false
      (State two_chunks []) in
  let written := prints terminal (authenticating :: setup_instructions "service-account.json") in
  result.2 = State two_chunks [] /\
  (written = Returns tt <-> result.1 = Returns false) /\
  (forall e, written = Raises e <-> result.1 = Raises e) /\
  (writable terminal = true ->
   forallb (takes terminal) (codes "service-account.json") = true ->
   result.1 = Returns false).
Proof.
  apply (upload_to_google_play_missing_credentials (scripted false)).
  reflexivity.
Defined.

(** C9 fails as stated: on a console that takes nothing, as a full device
    does, the call with the credentials file missing does not return
    [False]; the [OSError] of line 126 leaves it. No call has been made. *)
Lemma missing_credentials_full_device :
  upload_to_google_play (on_console full_device (scripted false)) "service-account.json"
    5 "com.example.app" "app-release.aab" "production" 100
    "Bug fixes and improvements" false (State two_chunks [])
  = (Raises OSError, State two_chunks []).
Proof. vm_compute. reflexivity. Qed.



(** ** The release descriptor that is submitted *)

Section Submitted.
Context {World : Type} (L : Library World).
Variables (SERVICE_ACCOUNT_FILE package_name aab_path track : string).
Variables (rollout_percentage : float) (release_notes : string) (draft : bool).

(** Every track update on the trace of a call carries the descriptor
    built from the version code of the response that ended the upload. *)
Lemma publish_submits_releases fuel (w : World) :
  submits_releases package_name track rollout_percentage release_notes draft
    (trace (upload_to_google_play L SERVICE_ACCOUNT_FILE fuel package_name aab_path
              track rollout_percentage release_notes draft (State w [])).2).
Proof.
  destruct (upload_to_google_play _ _ _ _ _ _ _ _ _ _) as [o s] eqn:Hupload.
  cbn [snd].
  apply upload_to_google_play_cases in Hupload as [[_ ->]|[_ Hrun]].
  - by intros ? ? ? ? ? ?%elem_of_nil.
  - by eapply run_submits_releases.
Qed.
End Submitted.

(** C7, as the code has it. In every release descriptor submitted to the
    track update, the rollout fraction is present exactly when the status is
    [inProgress]; when present it is [rollout_percentage / 100] for a
    rollout percentage below 100 on the [production] track with
    [draft=False], and it lies below 1.0, but not always above 0.0: no lower
    bound is checked, and all that holds is that the fraction is at least 0.0
    when the rollout percentage is; and a descriptor with status [draft]
    carries no rollout fraction. *)
Theorem submitted_release_fraction {World : Type} (L : Library World)
    (SERVICE_ACCOUNT_FILE package_name aab_path track : string)
    (rollout_percentage : float) (release_notes : string) (draft : bool)
    (fuel : nat) (w : World)
    (package_name' : string) (edit_id : pyval) (track' : string) (body : dict)
    (o : outcome reply) :
  let result :=
    upload_to_google_play L SERVICE_ACCOUNT_FILE fuel package_name aab_path track
      rollout_percentage release_notes draft (State w []) in
  Call (TracksUpdate package_name' edit_id track' body) o ∈ trace result.2 ->
  exists config,
    body = {[ "releases" := PyList [PyDict config] ]} /\
    (is_Some (config !! "userFraction") <->
     config !! "status" = Some (PyStr "inProgress")) /\
    (forall fraction,
       config !! "userFraction" = Some fraction ->
       fraction = PyFloat (rollout_percentage / 100)%float /\
       (rollout_percentage / 100 <? 1)%float = true /\
       ((0 <=? rollout_percentage)%float = true ->
        (0 <=? rollout_percentage / 100)%float = true) /\
       (rollout_percentage <? 100)%float = true /\
       track = "production" /\ draft = false) /\
    (config !! "status" = Some (PyStr "draft") -> config !! "userFraction" = None).
Proof.
  intros result Hin.
  destruct (publish_submits_releases L SERVICE_ACCOUNT_FILE package_name aab_path track
              rollout_percentage release_notes draft fuel w _ _ _ _ _ Hin)
    as (status & response & version_code & _ & _ & _ & ->).
  eexists. split; [reflexivity|]. apply release_config_fraction.
Qed.

Lemma submitted_release_fraction_witness :
  exists config,
    ({[ "releases" :=
          PyList [PyDict (release_config (PyInt 32) "production" 10
                            "Bug fixes and improvements" false)] ]} : dict)
    = {[ "releases" := PyList [PyDict config] ]} /\
    (is_Some (config !! "userFraction") <->
     config !! "status" = Some (PyStr "inProgress")) /\
    (forall fraction,
       config !! "userFraction" = Some fraction ->
       fraction = PyFloat (10 / 100)%float /\
       (10 / 100 <? 1)%float = true /\
       ((0 <=? 10)%float = true -> (0 <=? 10 / 100)%float = true) /\
       (10 <? 100)%float = true /\
       "production" = "production" /\ false = false) /\
    (config !! "status" = Some (PyStr "draft") -> config !! "userFraction" = None).
Proof.
  apply (submitted_release_fraction (scripted true) "service-account.json"
           "com.example.app" "app-release.aab" "production" 10
           "Bug fixes and improvements" false 5 two_chunks
           "com.example.app" (PyStr "edit-1") "production" _ (Returns Object)).
  vm_compute. do 9 right. left.
Defined.

(** C7 fails as stated: with [--rollout 0] on the [production] track the
    descriptor sent to the track update has status [inProgress] and the
    rollout fraction [0.0], which is not inside the open interval (0, 1). *)
Lemma submitted_fraction_zero :
  let config :=
    release_config (PyInt 32) "production" 0 "Bug fixes and improvements" false in
  trace (demo 0 "production" false).2 !! 9 =
    Some (Call (TracksUpdate "com.example.app" (PyStr "edit-1") "production"
                  {[ "releases" := PyList [PyDict config] ]})
            (Returns Object)) /\
  config !! "status" = Some (PyStr "inProgress") /\
  config !! "userFraction" = Some (PyFloat 0) /\
  ((0 <? 0) && (0 <? 1))%float = false.
Proof. vm_compute. by split_and!. Qed.

(** C8. Every release descriptor submitted to the track update carries
    exactly one version code, the [versionCode] of the response that ended
    the upload, and the release notes under the single locale [en-US],
    whatever the track, the draft flag and the rollout percentage. *)
Theorem submitted_release_contents {World : Type} (L : Library World)
    (SERVICE_ACCOUNT_FILE package_name aab_path track : string)
    (rollout_percentage : float) (release_notes : string) (draft : bool)
    (fuel : nat) (w : World)
    (package_name' : string) (edit_id : pyval) (track' : string) (body : dict)
    (o : outcome reply) :
  let result :=
    upload_to_google_play L SERVICE_ACCOUNT_FILE fuel package_name aab_path track
      rollout_percentage release_notes draft (State w []) in
  Call (TracksUpdate package_name' edit_id track' body) o ∈ trace result.2 ->
  exists status response version_code config,
    Call (NextChunk package_name edit_id)
      (Returns (Chunk status (Some response))) ∈ trace result.2 /\
    response !! "versionCode" = Some version_code /\
    body = {[ "releases" := PyList [PyDict config] ]} /\
    config !! "versionCodes" = Some (PyList [version_code]) /\
    config !! "releaseNotes" =
      Some (PyList [PyDict {[ "language" := PyStr "en-US";
                              "text" := PyStr release_notes ]}]).
Proof.
  intros result Hin.
  destruct (publish_submits_releases L SERVICE_ACCOUNT_FILE package_name aab_path track
              rollout_percentage release_notes draft fuel w _ _ _ _ _ Hin)
    as (status & response & version_code & Hchunk & Hcode & _ & ->).
  exists status, response, version_code. eexists.
  split_and!; [done|done|reflexivity|apply release_config_contents..].
Qed.

Lemma submitted_release_contents_witness :
  exists status response version_code config,
    Call (NextChunk "com.example.app" (PyStr "edit-1"))
      (Returns (Chunk status (Some response))) ∈ trace (demo 10 "beta" true).2 /\
    response !! "versionCode" = Some version_code /\
    ({[ "releases" :=
          PyList [PyDict (release_config (PyInt 32) "beta" 10
                            "Bug fixes and improvements" true)] ]} : dict)
    = {[ "releases" := PyList [PyDict config] ]} /\
    config !! "versionCodes" = Some (PyList [version_code]) /\
    config !! "releaseNotes" =
      Some (PyList [PyDict {[ "language" := PyStr "en-US";
                              "text" := PyStr "Bug fixes and improvements" ]}]).
Proof.
  apply (submitted_release_contents (scripted true) "service-account.json"
           "com.example.app" "app-release.aab" "beta" 10
           "Bug fixes and improvements" true 5 two_chunks
           "com.example.app" (PyStr "edit-1") "beta" _ (Returns Object)).
  vm_compute. do 9 right. left.
Defined.

(** ** Out-of-range rollout percentages *)

Section NotValidated.
Context {World : Type} (L : Library World).
Variables (SERVICE_ACCOUNT_FILE package_name aab_path track : string).
Variables (release_notes : string) (draft : bool).

(** The script compares the rollout percentage with 100 and, when it is
    below, divides it by 100: a percentage that is not below 100 gives the
    call that 100 gives. *)
Lemma upload_to_google_play_full r fuel (s : state World) :
  (r <? 100)%float = false ->
  upload_to_google_play L SERVICE_ACCOUNT_FILE fuel package_name aab_path track r
    release_notes draft s
  = upload_to_google_play L SERVICE_ACCOUNT_FILE fuel package_name aab_path track 100
      release_notes draft s.
Proof.
  intros Hr. unfold upload_to_google_play, release_config. rewrite Hr.
  change (100 <? 100)%float with false. by rewrite !andb_false_r.
Qed.

(** The trace only grows. *)
Lemma appends_mret {A} (a : A) : appends (World := World) (mret a).
Proof. intros s. exists []. by rewrite app_nil_r. Qed.

Lemma appends_lift {A} (o : outcome A) : appends (World := World) (lift o).
Proof. intros s. exists []. by rewrite app_nil_r. Qed.

Lemma appends_says lines : appends (says L lines).
Proof. apply appends_lift. Qed.

Lemma appends_perform {A} c (f : World -> outcome A * World) r : appends (perform c f r).
Proof. intros s. unfold perform. destruct (f (world s)). by eexists. Qed.

Lemma appends_print_progress percent : appends (World := World) (print_progress percent).
Proof. intros s. by eexists. Qed.

Lemma appends_mbind {A B} (m : M World A) (k : A -> M World B) :
  appends m -> (forall a, appends (k a)) -> appends (m ≫= k).
Proof.
  intros Hm Hk s. unfold mbind, M_bind. destruct (Hm s) as [rest Hrest].
  destruct (m s) as [[a|e|] s']; cbn [snd] in Hrest; try by exists rest.
  destruct (Hk a s') as [rest' Hrest']. exists (rest ++ rest').
  by rewrite Hrest', Hrest, app_assoc.
Qed.

Lemma appends_try_except {A} (body : M World A) handler :
  appends body -> (forall msg, appends (handler msg)) ->
  appends (try_except body handler).
Proof.
  intros Hbody Hhandler s. unfold try_except. destruct (Hbody s) as [rest Hrest].
  destruct (body s) as [[a|[msg|msg]|] s']; cbn [snd] in Hrest; try by exists rest.
  destruct (Hhandler msg s') as [rest' Hrest']. exists (rest ++ rest').
  by rewrite Hrest', Hrest, app_assoc.
Qed.

Lemma appends_resumable_upload fuel edit_id :
  appends (resumable_upload L fuel package_name edit_id).
Proof.
  induction fuel as [|fuel IH]; [apply appends_lift|]. cbn [resumable_upload].
  apply appends_mbind; [apply appends_perform|]. intros [status response].
  apply appends_mbind.
  - destruct status; [|apply appends_mret].
    apply appends_mbind; [apply appends_lift|]. intros. apply appends_print_progress.
  - intros _. destruct response; [apply appends_mret|apply IH].
Qed.

Lemma appends_except_Exception msg : appends (except_Exception L msg).
Proof.
  unfold except_Exception. apply appends_mbind; [apply appends_says|].
  intros _. apply appends_mret.
Qed.

(** Lines 151 and 154 on a console that is written to and has the check
    mark. *)
Lemma prints_authenticated :
  writable (stdout L) = true -> encodes (stdout L) check_mark = true ->
  prints (stdout L)
    [[GREEN; Glyph check_mark; Str " Authenticated successfully"; NC];
     [CYAN; Str "Creating new edit..."; NC]] = Returns tt.
Proof.
  intros Hw Hcheck. apply prints_encodable; [done|].
  destruct (stdout L) as [wr enc]. cbn [encodes] in Hcheck.
  vm_compute in Hcheck. vm_compute. by rewrite Hcheck.
Qed.
End NotValidated.

(** C3 fails as stated: with a rollout percentage of 150 the script raises
    nothing, makes every remote call of the protocol and returns [True]. *)
Lemma rollout_150_is_published :
  (demo 150 "production" false).1 = Returns true /\
  remote_ops (trace (demo 150 "production" false).2)
  = [OpenEdit; BundleUpload; BundleUpload; TrackUpdate; CommitEdit].
Proof. vm_compute. by split. Qed.

(** C3, as the code has it. A rollout percentage outside [[0, 100]] is not
    checked and raises nothing of its own: once the credentials are loaded
    and the client is built, on a console that is written to and has the
    check mark of line 151, the edit is opened, whatever the rollout
    percentage, and a rollout percentage above 100 makes the whole call
    behave exactly as 100 does, on every console. *)
Theorem rollout_percentage_not_validated {World : Type} (L : Library World)
    (SERVICE_ACCOUNT_FILE package_name aab_path track : string)
    (r : float) (release_notes : string) (draft : bool)
    (fuel : nat) (w w1 w2 : World) :
  (r <? 0)%float = true \/ (100 <? r)%float = true ->
  os_path_exists L SERVICE_ACCOUNT_FILE w = true ->
  from_service_account_file L SERVICE_ACCOUNT_FILE SCOPES w = (Returns tt, w1) ->
  build L "androidpublisher" "v3" w1 = (Returns tt, w2) ->
  let result :=
    upload_to_google_play L SERVICE_ACCOUNT_FILE fuel package_name aab_path track r
      release_notes draft (State w []) in
  (writable (stdout L) = true -> encodes (stdout L) check_mark = true ->
   exists answer rest,
     trace result.2 =
       Call (FromServiceAccountFile SERVICE_ACCOUNT_FILE SCOPES) (Returns Object)
       :: Call (Build "androidpublisher" "v3") (Returns Object)
       :: Call (EditsInsert ∅ package_name) answer
       :: rest) /\
  ((100 <? r)%float = true ->
   result =
     upload_to_google_play L SERVICE_ACCOUNT_FILE fuel package_name aab_path track 100
       release_notes draft (State w [])).
Proof.
  intros _ Hexists Hcredentials Hbuild result. split.
  - intros Hw Hcheck. subst result. unfold upload_to_google_play.
    unfold mbind at 1, M_bind at 1.
    change (say L authenticating (State w []))
      with (print (stdout L) authenticating, State w []).
    rewrite print_authenticating, Hw.
    unfold mbind at 1, M_bind at 1, ask. cbn [world]. rewrite Hexists. cbn [negb].
    rewrite try_except_perform. cbn [world trace]. rewrite Hcredentials.
    cbv beta. rewrite try_except_perform. cbn [world trace]. rewrite Hbuild.
    cbv beta. rewrite try_except_says, (prints_authenticated L Hw Hcheck).
    cbv beta. rewrite try_except_perform. cbn [world trace].
    destruct (edits_insert_execute L ∅ package_name w2) as [[edit|[msg|msg]|] w3];
      cycle 1.
    + match goal with
      | |- context [except_Exception L msg ?s] =>
          destruct (appends_except_Exception L msg s) as [rest Hrest]
      end.
      exists (Raises (Exception msg)), rest. rewrite Hrest. cbn [trace].
      by rewrite <- !app_assoc.
    + by eexists _, _.
    + by eexists _, _.
    + exists (Returns (Body edit)).
      match goal with
      | |- context [try_except ?m ?h ?s] =>
          assert (appends (try_except m h)) as Happends
            by (apply appends_try_except; [|apply appends_except_Exception];
                cbv zeta;
                repeat first [ apply appends_mbind | apply appends_lift
                             | apply appends_says
                             | apply appends_perform | apply appends_resumable_upload
                             | apply appends_mret | intro ]);
          destruct (Happends s) as [rest Hrest]
      end.
      exists rest. by rewrite Hrest.
  - intros Habove%FloatFacts.above_100_not_below. subst result.
    by apply upload_to_google_play_full.
Qed.

Lemma rollout_percentage_not_validated_witness :
  let result := demo 150 "production" false in
  (writable terminal = true -> encodes terminal check_mark = true ->
   exists answer rest,
     trace result.2 =
       Call (FromServiceAccountFile "service-account.json" SCOPES) (Returns Object)
       :: Call (Build "androidpublisher" "v3") (Returns Object)
       :: Call (EditsInsert ∅ "com.example.app") answer
       :: rest) /\
  ((100 <? 150)%float = true -> result = demo 100 "production" false).
Proof.
  apply (rollout_percentage_not_validated (scripted true) "service-account.json"
           "com.example.app" "app-release.aab" "production" 150
           "Bug fixes and improvements" false 5 two_chunks two_chunks two_chunks).
  - right. vm_compute. reflexivity.
  - reflexivity.
  - reflexivity.
  - reflexivity.
Defined.

(** ** The script against the test double *)

(** A full rollout on [production]: every remote operation, in order, and
    [True]. *)
Example publish_full_rollout :
  (demo 100 "production" false).1 = Returns true /\
  remote_ops (trace (demo 100 "production" false).2)
  = [OpenEdit; BundleUpload; BundleUpload; TrackUpdate; CommitEdit] /\
  progress_lines (trace (demo 100 "production" false).2) = [50%Z].
Proof. vm_compute. by split_and!. Qed.

(** An upload that breaks on its second chunk: the script returns [False]
    and neither updates the track nor commits. *)
Example publish_broken_upload :
  let result :=
    upload_to_google_play (scripted true) "service-account.json" 5
      "com.example.app" "app-release.aab" "production" 100
      "Bug fixes and improvements" false
      (State [Returns (Some {| progress := 0.5 |}, None);
              Raises (Exception "HttpError 503")] []) in
  result.1 = Returns false /\
  remote_ops (trace result.2) = [OpenEdit; BundleUpload; BundleUpload].
Proof. vm_compute. by split. Qed.

(** On a console whose encoding has no check mark, line 151 raises after
    the client is built: the handler reports it, the script returns
    [False], and no edit is opened. *)
Example publish_latin1 :
  let result :=
    upload_to_google_play (on_console latin1 (scripted true)) "service-account.json" 5
      "com.example.app" "app-release.aab" "production" 100
      "Bug fixes and improvements" false (State two_chunks []) in
  result.1 = Returns false /\
  trace result.2 =
    [Call (FromServiceAccountFile "service-account.json" SCOPES) (Returns Object);
     Call (Build "androidpublisher" "v3") (Returns Object)].
Proof. vm_compute. by split. Qed.

(** On a console that has the check mark and not the bar, the summary
    raises after the commit: the release is committed, and the script
    returns [False]. *)
Example publish_without_bar :
  let result :=
    upload_to_google_play (on_console without_bar (scripted true)) "service-account.json"
      5 "com.example.app" "app-release.aab" "production" 100
      "Bug fixes and improvements" false (State two_chunks []) in
  result.1 = Returns false /\
  remote_ops (trace result.2) = protocol 2 /\
  last (trace result.2)
  = Some (Call (EditsCommit "com.example.app" (PyStr "edit-1")) (Returns Object)).
Proof. vm_compute. by split_and!. Qed.

(** A call that raises an [Exception] whose text the console cannot
    encode: the handler raises in its turn, and the exception leaves the
    script. *)
Example publish_unreportable :
  let result :=
    upload_to_google_play (on_console plain (rejecting illisible (scripted true)))
      "service-account.json" 5 "com.example.app" "app-release.aab" "production" 100
      "Bug fixes and improvements" false (State two_chunks []) in
  result.1 = Raises UnicodeEncodeError /\
  trace result.2 =
    [Call (FromServiceAccountFile "service-account.json" SCOPES)
       (Raises (Exception illisible))].
Proof. vm_compute. by split. Qed.

(** An upload that is never acknowledged to the end: the loop is still
    turning when the fuel is spent, and nothing has been committed. *)
Example publish_endless_upload :
  let result :=
    upload_to_google_play (scripted true) "service-account.json" 2
      "com.example.app" "app-release.aab" "production" 100
      "Bug fixes and improvements" false
      (State (replicate 3 (Returns (Some {| progress := 0.5 |}, None))) []) in
  result.1 = Diverges /\
  remote_ops (trace result.2) = [OpenEdit; BundleUpload; BundleUpload].
Proof. vm_compute. by split. Qed.

(** * The rest of the script: [get_package_name], [find_aab_file], [main] *)

(** ** The matcher and what the patterns mean *)

Module ReFacts.
Import Re.

Lemma append_cons c s t : String c s +:+ t = String c (s +:+ t).
Proof. reflexivity. Qed.

Lemma append_nil_l t : "" +:+ t = t.
Proof. reflexivity. Qed.

Lemma append_nil_r s : s +:+ "" = s.
Proof. induction s as [|c s IH]; [done|]. by rewrite append_cons, IH. Qed.

Lemma append_assoc s t u : (s +:+ t) +:+ u = s +:+ t +:+ u.
Proof. induction s as [|c s IH]; [done|]. by rewrite !append_cons, IH. Qed.

Lemma length_append s t : String.length (s +:+ t) = String.length s + String.length t.
Proof. induction s as [|c s IH]; [done|]. rewrite append_cons. simpl. by rewrite IH. Qed.

Lemma append_eq_nil s t : s +:+ t = "" -> s = "" /\ t = "".
Proof. destruct s; [done|]. by rewrite append_cons. Qed.

Lemma consumed_append m rest : consumed (m +:+ rest) rest = m.
Proof.
  unfold consumed. rewrite length_append.
  replace (String.length m + String.length rest - String.length rest)
    with (String.length m) by lia.
  induction m as [|c m IH]; [by destruct rest|].
  rewrite append_cons. simpl. by rewrite IH.
Qed.

(** Two prefixes of a text that are as long as each other are the same. *)
Lemma append_inj_length s s' t t' :
  s +:+ t = s' +:+ t' -> String.length s = String.length s' -> s = s' /\ t = t'.
Proof.
  revert s'. induction s as [|c s IH]; intros [|c' s'] Heq Hlen; try done.
  rewrite !append_cons in Heq. injection Heq as -> Heq. injection Hlen as Hlen.
  destruct (IH _ Heq Hlen) as [-> ->]. done.
Qed.

Lemma all_append p s t : all p (s +:+ t) = all p s && all p t.
Proof.
  induction s as [|c s IH]; [done|]. rewrite append_cons. simpl.
  by rewrite IH, andb_assoc.
Qed.

(** A run of characters of a set ends where the first character outside
    the set stands. *)
Lemma run_inj p s c t s' c' t' :
  all p s = true -> all p s' = true -> p c = false -> p c' = false ->
  s +:+ String c t = s' +:+ String c' t' -> s = s' /\ c = c' /\ t = t'.
Proof.
  revert s'. induction s as [|d s IH]; intros [|d' s'] Hs Hs' Hc Hc';
    rewrite ?append_cons, ?append_nil_l; intros Heq; simplify_eq/=.
  - done.
  - rewrite Hc in Hs'. done.
  - rewrite Hc' in Hs. done.
  - apply andb_true_iff in Hs as [_ Hs]. apply andb_true_iff in Hs' as [_ Hs'].
    destruct (IH _ Hs Hs' Hc Hc' ltac:(done)) as (-> & -> & ->). done.
Qed.

Lemma lit_Some s text rest : lit s text = Some rest <-> text = s +:+ rest.
Proof.
  revert text. induction s as [|c s IH]; intros text; simpl.
  - rewrite append_nil_l. split; [by intros [= ->]|by intros ->].
  - destruct text as [|d text]; [by rewrite append_cons|].
    rewrite append_cons. case_bool_decide as Hcd.
    + subst d. rewrite IH. split; [by intros ->|by intros [= ->]].
    + split; [done|]. by intros [= -> _].
Qed.

Lemma star_sound {A} p text (k : string -> option A) a :
  star p text k = Some a ->
  exists m rest, text = m +:+ rest /\ all p m = true /\ k rest = Some a.
Proof.
  revert a. induction text as [|c text IH]; intros a; simpl.
  - intros Hk. by exists "", "".
  - destruct (p c) eqn:Hc; [|intros Hk; by exists "", (String c text)].
    destruct (star p text k) as [a'|] eqn:Hstar.
    + intros [= ->]. destruct (IH _ eq_refl) as (m & rest & -> & Hm & Hk).
      exists (String c m), rest. simpl. by rewrite Hc, Hm.
    + intros Hk. by exists "", (String c text).
Qed.

Lemma star_accepts {A} p text (k : string -> option A) :
  is_Some (k text) -> is_Some (star p text k).
Proof.
  destruct text as [|c text]; simpl; [done|].
  destruct (p c); [|done]. by destruct (star p text k).
Qed.

Lemma star_complete {A} p m rest (k : string -> option A) :
  all p m = true -> is_Some (k rest) -> is_Some (star p (m +:+ rest) k).
Proof.
  intros Hm Hk. induction m as [|c m IH]; [by apply star_accepts|].
  simpl in Hm. apply andb_true_iff in Hm as [Hc Hm].
  rewrite append_cons. simpl. rewrite Hc.
  destruct (IH Hm) as [a ->]. done.
Qed.

(** What the matcher finds is a match, and the continuation accepted what
    was left. *)
Lemma matches_sound {A} r : forall text groups (k : string -> list string -> option A) a,
  matches r text groups k = Some a ->
  exists m rest cs,
    text = m +:+ rest /\ lang r m cs /\ k rest (groups ++ cs) = Some a.
Proof.
  induction r as [s|p|p|p|r IH|r1 IH1 r2 IH2]; intros text groups k a; simpl.
  - destruct (lit s text) as [rest|] eqn:Hlit; [|done].
    apply lit_Some in Hlit as ->. intros Hk.
    exists s, rest, []. by rewrite app_nil_r.
  - destruct text as [|c rest]; [done|]. destruct (p c) eqn:Hc; [|done].
    intros Hk. exists (String c ""), rest, []. rewrite app_nil_r.
    split; [done|]. split; [|done]. by exists c.
  - intros (m & rest & -> & Hm & Hk)%star_sound.
    exists m, rest, []. by rewrite app_nil_r.
  - destruct text as [|c text]; [done|]. destruct (p c) eqn:Hc; [|done].
    intros (m & rest & -> & Hm & Hk)%star_sound.
    exists (String c m), rest, []. rewrite app_nil_r. simpl. by rewrite Hc, Hm.
  - intros (m & rest & cs & -> & Hm & Hk)%IH.
    rewrite consumed_append in Hk.
    exists m, rest, (cs ++ [m]). rewrite (assoc_L (++)). split; [done|].
    split; [|done]. by exists cs.
  - intros (m1 & rest1 & cs1 & -> & Hm1 & (m2 & rest & cs2 & -> & Hm2 & Hk)%IH2)%IH1.
    exists (m1 +:+ m2), rest, (cs1 ++ cs2).
    rewrite append_assoc, (assoc_L (++)). split; [done|]. split; [|done].
    by exists m1, m2, cs1, cs2.
Qed.

(** Where there is a match that the continuation accepts, the matcher
    finds one. *)
Lemma matches_complete {A} r :
  forall m rest cs groups (k : string -> list string -> option A),
  lang r m cs -> is_Some (k rest (groups ++ cs)) ->
  is_Some (matches r (m +:+ rest) groups k).
Proof.
  induction r as [s|p|p|p|r IH|r1 IH1 r2 IH2]; intros m rest cs groups k; simpl.
  - intros [-> ->]. rewrite app_nil_r. intros Hk.
    by rewrite (proj2 (lit_Some s (s +:+ rest) rest) eq_refl).
  - intros (c & Hc & -> & ->). rewrite app_nil_r. intros Hk.
    rewrite append_cons, append_nil_l. by rewrite Hc.
  - intros [Hm ->]. rewrite app_nil_r. intros Hk. by apply star_complete.
  - intros (Hne & Hm & ->). rewrite app_nil_r. intros Hk.
    destruct m as [|c m]; [done|]. simpl in Hm. apply andb_true_iff in Hm as [Hc Hm].
    rewrite append_cons, Hc. by apply star_complete.
  - intros (cs' & Hm & ->) Hk. apply (IH m rest cs'); [done|].
    by rewrite consumed_append, <- (assoc_L (++)).
  - intros (m1 & m2 & cs1 & cs2 & -> & -> & Hm1 & Hm2) Hk.
    rewrite append_assoc. apply (IH1 m1 (m2 +:+ rest) cs1); [done|].
    apply (IH2 m2 rest cs2); [done|]. by rewrite <- (assoc_L (++)).
Qed.

Lemma matches_None r text :
  matches r text [] (fun _ groups => Some groups) = None ->
  forall cs, ~ occurs r text "" cs.
Proof.
  intros Hnone cs (m & post & -> & Hm). rewrite append_nil_l in Hnone.
  destruct (matches_complete r m post cs [] (fun _ groups => Some groups) Hm)
    as [gs Hgs]; [done|]. congruence.
Qed.

Lemma occurs_cons r c text pre cs :
  occurs r (String c text) (String c pre) cs <-> occurs r text pre cs.
Proof.
  split; intros (m & post & Heq & Hm); exists m, post; (split; [|done]).
  - rewrite append_cons in Heq. by injection Heq.
  - by rewrite append_cons, Heq.
Qed.

Lemma occurs_prefix r text pre cs :
  occurs r text pre cs -> exists rest, text = pre +:+ rest.
Proof. intros (m & post & -> & _). eauto. Qed.

(** [search] answers with a leftmost match. *)
Lemma search_Some r text cs : search r text = Some cs -> leftmost r text cs.
Proof.
  revert cs. induction text as [|c text IH]; intros cs; simpl.
  - destruct (matches r "" [] _) as [gs|] eqn:Hm; [|done]. intros [= ->].
    apply matches_sound in Hm as (m & rest & cs' & Htext & Hm & [= <-]).
    exists "". split; [by exists m, rest|]. intros; simpl; lia.
  - destruct (matches r (String c text) [] _) as [gs|] eqn:Hm.
    + intros [= ->].
      apply matches_sound in Hm as (m & rest & cs' & Htext & Hm & [= <-]).
      exists "". split; [by exists m, rest|]. intros; simpl; lia.
    + intros (pre & Hocc & Hleft)%IH. exists (String c pre).
      split; [by apply occurs_cons|]. intros [|c' pre'] cs' Hocc'.
      { by apply (matches_None _ _ Hm) in Hocc'. }
      destruct (occurs_prefix _ _ _ _ Hocc') as [rest [= <- _]].
      apply occurs_cons, Hleft in Hocc'. simpl. lia.
Qed.

(** [search] answers [None] only when there is no match anywhere. *)
Lemma search_None r text : search r text = None -> forall pre cs, ~ occurs r text pre cs.
Proof.
  induction text as [|c text IH]; simpl.
  - destruct (matches r "" [] _) as [gs|] eqn:Hm; [done|]. intros _ pre cs Hocc.
    destruct (occurs_prefix _ _ _ _ Hocc) as [rest Hpre].
    symmetry in Hpre. apply append_eq_nil in Hpre as [-> _].
    by apply (matches_None _ _ Hm) in Hocc.
  - destruct (matches r (String c text) [] _) as [gs|] eqn:Hm; [done|].
    intros Hnone [|c' pre] cs Hocc.
    { by apply (matches_None _ _ Hm) in Hocc. }
    destruct (occurs_prefix _ _ _ _ Hocc) as [rest [= <- _]].
    by apply occurs_cons, (IH Hnone) in Hocc.
Qed.

(** For a pattern that matches in one way at a place, [search] is the
    leftmost match. *)
Lemma search_leftmost r text cs :
  unambiguous r -> search r text = Some cs <-> leftmost r text cs.
Proof.
  intros Hr. split; [apply search_Some|].
  intros (pre & (m & post & -> & Hm) & Hleft).
  destruct (search r (pre +:+ m +:+ post)) as [cs'|] eqn:Hsearch.
  - apply search_Some in Hsearch as (pre' & Hocc' & Hleft').
    pose proof Hocc' as (m' & post' & Heq & Hm').
    assert (String.length pre = String.length pre') as Hlen.
    { apply Nat.le_antisymm.
      - by eapply Hleft.
      - eapply Hleft'. by exists m, post. }
    apply append_inj_length in Heq as [-> Heq]; [|done].
    by destruct (Hr _ _ _ _ _ _ Hm Hm' Heq) as [_ ->].
  - exfalso. eapply search_None; [done|]. by exists m, post.
Qed.

Lemma search_is_None r text :
  search r text = None <-> forall pre cs, ~ occurs r text pre cs.
Proof.
  split; [apply search_None|]. intros Hnone.
  destruct (search r text) as [cs|] eqn:Hsearch; [|done].
  apply search_Some in Hsearch as (pre & Hocc & _). by apply Hnone in Hocc.
Qed.

End ReFacts.

(** ** The two patterns of [get_package_name] *)

Module PatternFacts.
Import Re ReFacts.

Lemma one_of_true chars c : Re.one_of chars c = true <-> c ∈ chars.
Proof. unfold Re.one_of. apply bool_decide_eq_true. Qed.

Lemma lang_applicationId m cs :
  lang applicationId_re m cs <-> exists name, assignment name m /\ cs = [name].
Proof.
  unfold applicationId_re, assignment. cbn [lang]. split.
  - intros (? & ? & ? & ? & -> & -> & [-> ->] & H).
    destruct H as (ws1 & ? & ? & ? & -> & -> & [Hws1 ->] & H).
    destruct H as (? & ? & ? & ? & -> & -> & (sep & Hsep & -> & ->) & H).
    destruct H as (ws2 & ? & ? & ? & -> & -> & [Hws2 ->] & H).
    destruct H as (? & ? & ? & ? & -> & -> & (q1 & Hq1 & -> & ->) & H).
    destruct H as (name & ? & ? & ? & -> & -> & (? & (Hne & Hname & ->) & ->) & H).
    destruct H as (q2 & Hq2 & -> & ->).
    apply one_of_true in Hsep, Hq1, Hq2.
    exists name. split; [|done]. by exists ws1, sep, ws2, q1, q2.
  - intros (name & (ws1 & sep & ws2 & q1 & q2 & -> & Hws1 & Hsep & Hws2 & Hq1 & Hq2 & Hne
                    & Hname) & ->).
    apply one_of_true in Hsep, Hq1, Hq2.
    exists "applicationId", (ws1 +:+ String sep (ws2 +:+ String q1 (name +:+ String q2 ""))),
      [], [name].
    do 3 (split; [done|]).
    exists ws1, (String sep (ws2 +:+ String q1 (name +:+ String q2 ""))), [], [name].
    do 3 (split; [done|]).
    exists (String sep ""), (ws2 +:+ String q1 (name +:+ String q2 "")), [], [name].
    do 2 (split; [done|]). split; [by exists sep|].
    exists ws2, (String q1 (name +:+ String q2 "")), [], [name].
    do 3 (split; [done|]).
    exists (String q1 ""), (name +:+ String q2 ""), [], [name].
    do 2 (split; [done|]). split; [by exists q1|].
    exists name, (String q2 ""), [name], [].
    do 2 (split; [done|]). split; [by exists []|]. by exists q2.
Qed.

Lemma lang_package m cs :
  lang package_re m cs <-> exists name, package_attribute name m /\ cs = [name].
Proof.
  unfold package_re, package_attribute. cbn [lang]. split.
  - intros (? & ? & ? & ? & -> & -> & [-> ->] & H).
    destruct H as (? & ? & ? & ? & -> & -> & (q1 & Hq1 & -> & ->) & H).
    destruct H as (name & ? & ? & ? & -> & -> & (? & (Hne & Hname & ->) & ->) & H).
    destruct H as (q2 & Hq2 & -> & ->).
    apply one_of_true, list_elem_of_singleton in Hq1 as ->.
    apply one_of_true, list_elem_of_singleton in Hq2 as ->.
    by exists name.
  - intros (name & (-> & Hne & Hname) & ->).
    exists "package=", (String "034" (name +:+ String "034" "")), [], [name].
    do 3 (split; [done|]).
    exists (String "034" ""), (name +:+ String "034" ""), [], [name].
    do 2 (split; [done|]). split; [by exists "034"%char|].
    exists name, (String "034" ""), [name], [].
    do 2 (split; [done|]). split; [by exists []|]. by exists "034"%char.
Qed.

Lemma whitespace_not_sep c : c ∈ ["="; ":"]%char -> Re.whitespace c = false.
Proof. intros Hc. repeat (apply elem_of_cons in Hc as [->|Hc]; [done|]). by apply elem_of_nil in Hc. Qed.

Lemma whitespace_not_quote c : c ∈ quotes -> Re.whitespace c = false.
Proof. intros Hc. repeat (apply elem_of_cons in Hc as [->|Hc]; [done|]). by apply elem_of_nil in Hc. Qed.

Lemma none_of_false chars c : c ∈ chars -> Re.none_of chars c = false.
Proof. intros Hc. unfold Re.none_of. by rewrite (proj2 (one_of_true _ _) Hc). Qed.

Lemma assignment_inj name text post name' text' post' :
  assignment name text -> assignment name' text' ->
  text +:+ post = text' +:+ post' -> text = text' /\ name = name'.
Proof.
  intros (ws1 & sep & ws2 & q1 & q2 & -> & Hws1 & Hsep & Hws2 & Hq1 & Hq2 & _ & Hname).
  intros (ws1' & sep' & ws2' & q1' & q2' & -> & Hws1' & Hsep' & Hws2' & Hq1' & Hq2' & _
          & Hname').
  repeat (rewrite append_assoc || rewrite append_cons || rewrite append_nil_l).
  intros Heq. injection Heq as Heq.
  apply (run_inj Re.whitespace) in Heq as (-> & -> & Heq);
    [|done|done|by apply whitespace_not_sep..].
  apply (run_inj Re.whitespace) in Heq as (-> & -> & Heq);
    [|done|done|by apply whitespace_not_quote..].
  apply (run_inj (Re.none_of quotes)) in Heq as (-> & -> & Heq);
    [|done|done|by apply none_of_false..].
  done.
Qed.

Lemma package_attribute_inj name text post name' text' post' :
  package_attribute name text -> package_attribute name' text' ->
  text +:+ post = text' +:+ post' -> text = text' /\ name = name'.
Proof.
  intros (-> & _ & Hname) (-> & _ & Hname').
  repeat (rewrite append_assoc || rewrite append_cons || rewrite append_nil_l).
  intros Heq. injection Heq as Heq.
  apply (run_inj (Re.none_of ["034"]%char)) in Heq as (-> & _ & Heq);
    [|done|done|by apply none_of_false, list_elem_of_singleton..].
  done.
Qed.

Lemma applicationId_unambiguous : unambiguous applicationId_re.
Proof.
  intros m cs post m' cs' post' (name & Hm & ->)%lang_applicationId
    (name' & Hm' & ->)%lang_applicationId Heq.
  by destruct (assignment_inj _ _ _ _ _ _ Hm Hm' Heq) as [-> ->].
Qed.

Lemma package_unambiguous : unambiguous package_re.
Proof.
  intros m cs post m' cs' post' (name & Hm & ->)%lang_package
    (name' & Hm' & ->)%lang_package Heq.
  by destruct (package_attribute_inj _ _ _ _ _ _ Hm Hm' Heq) as [-> ->].
Qed.

(** Search with a pattern whose matches capture one group, the name. *)
Lemma search_first_in r P content :
  unambiguous r ->
  (forall m cs, lang r m cs <-> exists name, P name m /\ cs = [name]) ->
  (forall name, Re.search r content ≫= Re.group 1 = Some name <-> first_in P content name) /\
  (Re.search r content = None <->
   forall pre text post name, content = pre +:+ text +:+ post -> ~ P name text).
Proof.
  intros Hr HP. split; [intros name; split|split].
  - destruct (Re.search r content) as [cs|] eqn:Hsearch; [|done]. cbn [mbind option_bind].
    intros Hgroup. apply search_Some in Hsearch as (pre & (m & post & -> & Hm) & Hleft).
    apply HP in Hm as (name' & Hm & ->). injection Hgroup as ->.
    exists pre, m, post. do 2 (split; [done|]).
    intros pre' text' post' name' Heq Hm'. apply (Hleft pre' [name']).
    exists text', post'. split; [done|]. apply HP. by exists name'.
  - intros (pre & text & post & -> & Hm & Hleft).
    rewrite (proj2 (search_leftmost r _ [name] Hr)); [done|].
    exists pre. split.
    + exists text, post. split; [done|]. apply HP. by exists name.
    + intros pre' cs' (m' & post' & Heq & (name' & Hm' & ->)%HP). by eapply Hleft.
  - intros Hnone pre text post name -> Hm. eapply (search_None _ _ Hnone pre [name]).
    exists text, post. split; [done|]. apply HP. by exists name.
  - intros Hnone. apply search_is_None. intros pre cs (m & post & -> & (name & Hm & ->)%HP).
    by eapply Hnone.
Qed.

Lemma applicationId_search content :
  (forall name,
     Re.search applicationId_re content ≫= Re.group 1 = Some name <->
     first_in assignment content name) /\
  (Re.search applicationId_re content = None <->
   forall pre text post name, content = pre +:+ text +:+ post -> ~ assignment name text).
Proof.
  apply search_first_in; [apply applicationId_unambiguous|apply lang_applicationId].
Qed.

Lemma package_search content :
  (forall name,
     Re.search package_re content ≫= Re.group 1 = Some name <->
     first_in package_attribute content name) /\
  (Re.search package_re content = None <->
   forall pre text post name,
     content = pre +:+ text +:+ post -> ~ package_attribute name text).
Proof.
  apply search_first_in; [apply package_unambiguous|apply lang_package].
Qed.

Lemma all_none_of_quotes name :
  all (Re.none_of quotes) name = true -> all (Re.none_of ["034"]%char) name = true.
Proof.
  induction name as [|c name IH]; [done|]. simpl.
  intros [Hc Hname]%andb_true_iff. rewrite (IH Hname), andb_true_r.
  unfold Re.none_of, Re.one_of in *. apply negb_true_iff, bool_decide_eq_false.
  apply negb_true_iff, bool_decide_eq_false in Hc.
  intros ->%list_elem_of_singleton. apply Hc. by left.
Qed.

End PatternFacts.
Import PatternFacts.

(** ** [get_package_name], one file at a time *)

Section GetPackageName.
Context {World : Type} (L : Library World) (F : Files World).

Lemma consult_trace {A} (f : World -> outcome A * World) (s : state World) :
  trace (consult f s).2 = trace s.
Proof. unfold consult. by destruct (f (world s)). Qed.

(** One turn of the loop over the gradle files. *)
Lemma for_gradle_paths_absent path paths otherwise (s : state World) :
  os_path_exists L path (world s) = false ->
  for_gradle_paths L F (path :: paths) otherwise s
  = for_gradle_paths L F paths otherwise s.
Proof. intros Habsent. cbn [for_gradle_paths]. by rewrite Habsent. Qed.

Lemma for_gradle_paths_read path paths otherwise (s : state World) content w :
  os_path_exists L path (world s) = true ->
  open_read F path (world s) = (Returns content, w) ->
  for_gradle_paths L F (path :: paths) otherwise s
  = match Re.search applicationId_re content with
    | Some m => (Returns (Re.group 1 m), State w (trace s))
    | None => for_gradle_paths L F paths otherwise (State w (trace s))
    end.
Proof.
  intros Hexists Hread. cbn [for_gradle_paths]. rewrite Hexists.
  unfold mbind, M_bind, consult. rewrite Hread.
  by destruct (Re.search applicationId_re content).
Qed.

Lemma for_gradle_paths_failed path paths otherwise (s : state World) o w :
  os_path_exists L path (world s) = true ->
  open_read F path (world s) = (o, w) -> returned o = false ->
  for_gradle_paths L F (path :: paths) otherwise s
  = (match o with Raises e => Raises e | _ => Diverges end, State w (trace s)).
Proof.
  intros Hexists Hread Ho. cbn [for_gradle_paths]. rewrite Hexists.
  unfold mbind, M_bind, consult. rewrite Hread. by destruct o.
Qed.

Lemma for_gradle_paths_Some paths otherwise (s s' : state World) name :
  for_gradle_paths L F paths otherwise s = (Returns (Some name), s') ->
  (exists path, path ∈ paths /\ read_from L F assignment path name) \/
  (exists s1, otherwise s1 = (Returns (Some name), s')).
Proof.
  revert s. induction paths as [|path paths IH]; intros s; cbn [for_gradle_paths].
  { intros Hk. right. by exists s. }
  destruct (os_path_exists L path (world s)) eqn:Hexists.
  - unfold mbind, M_bind, consult.
    destruct (open_read F path (world s)) as [[content|e|] w] eqn:Hread; [|done..].
    destruct (Re.search applicationId_re content) as [m|] eqn:Hsearch.
    + unfold mret, M_ret. intros [= Hgroup <-]. left. exists path. split; [by left|].
      exists content, (world s), w. do 2 (split; [done|]).
      apply applicationId_search. by rewrite Hsearch.
    + intros [(path' & Hin & Hfrom)|Hk]%IH; [left|by right].
      exists path'. split; [by right|done].
  - intros [(path' & Hin & Hfrom)|Hk]%IH; [left|by right].
    exists path'. split; [by right|done].
Qed.

Lemma manifest_package_name_Some project_path (s s' : state World) name :
  manifest_package_name L F project_path s = (Returns (Some name), s') ->
  read_from L F package_attribute (manifest_path project_path) name.
Proof.
  unfold manifest_package_name. fold (manifest_path project_path).
  destruct (os_path_exists L _ (world s)) eqn:Hexists; [|done].
  unfold mbind, M_bind, consult.
  destruct (open_read F _ (world s)) as [[content|e|] w] eqn:Hread; [|done..].
  destruct (Re.search package_re content) as [m|] eqn:Hsearch; [|done].
  unfold mret, M_ret. intros [= Hgroup <-].
  exists content, (world s), w. do 2 (split; [done|]).
  apply package_search. by rewrite Hsearch.
Qed.

Lemma get_package_name_Some project_path (s s' : state World) name :
  get_package_name L F project_path s = (Returns (Some name), s') ->
  read_from L F assignment (gradle_path project_path) name \/
  read_from L F assignment (gradle_kts_path project_path) name \/
  read_from L F package_attribute (manifest_path project_path) name.
Proof.
  unfold get_package_name.
  intros [(path & Hin & Hfrom)|[s1 Hmanifest]]%for_gradle_paths_Some.
  - apply elem_of_cons in Hin as [->|Hin]; [by left|].
    apply list_elem_of_singleton in Hin as ->. right; by left.
  - right; right. by eapply manifest_package_name_Some.
Qed.

Lemma manifest_package_name_trace project_path (s : state World) :
  trace (manifest_package_name L F project_path s).2 = trace s.
Proof.
  unfold manifest_package_name.
  destruct (os_path_exists L _ (world s)); [|done].
  unfold mbind, M_bind, consult.
  destruct (open_read F _ (world s)) as [[content|e|] w]; [|done..].
  by destruct (Re.search package_re content).
Qed.

Lemma for_gradle_paths_trace paths otherwise :
  (forall s : state World, trace (otherwise s).2 = trace s) ->
  forall s : state World, trace (for_gradle_paths L F paths otherwise s).2 = trace s.
Proof.
  intros Hotherwise. induction paths as [|path paths IH]; intros s;
    cbn [for_gradle_paths]; [done|].
  destruct (os_path_exists L path (world s)); [|done].
  unfold mbind, M_bind, consult.
  destruct (open_read F path (world s)) as [[content|e|] w]; [|done..].
  destruct (Re.search applicationId_re content); [done|].
  by rewrite IH.
Qed.

Lemma get_package_name_trace project_path (s : state World) :
  trace (get_package_name L F project_path s).2 = trace s.
Proof. apply for_gradle_paths_trace, manifest_package_name_trace. Qed.
End GetPackageName.

Lemma read_from_well_formed {World} (L : Library World) (F : Files World) P path name :
  (forall name text, P name text ->
     name <> "" /\ Re.all (Re.none_of ["034"]%char) name = true) ->
  read_from L F P path name ->
  name <> "" /\ Re.all (Re.none_of ["034"]%char) name = true.
Proof.
  intros HP (content & w & w' & _ & _ & pre & text & post & _ & Hname & _). by eapply HP.
Qed.

(** ** [get_package_name] on a file system that reading leaves as it is *)

Section Precedence.
Context {World : Type} (L : Library World) (F : Files World).
Variables (w : World) (content : string -> string).

Hypothesis quiet :
  forall path, os_path_exists L path w = true ->
               open_read F path w = (Returns (content path), w).

Lemma for_gradle_paths_declares path paths otherwise t name :
  declares L w content assignment path name ->
  for_gradle_paths L F (path :: paths) otherwise (State w t)
  = (Returns (Some name), State w t).
Proof.
  intros [Hexists Hfirst].
  rewrite (for_gradle_paths_read L F path paths otherwise (State w t) (content path) w);
    [|done|by apply quiet].
  apply applicationId_search in Hfirst.
  destruct (Re.search applicationId_re (content path)) as [m|]; [|done].
  cbn [mbind option_bind] in Hfirst. by rewrite Hfirst.
Qed.

Lemma for_gradle_paths_silent path paths otherwise t :
  silent L w content assignment path ->
  for_gradle_paths L F (path :: paths) otherwise (State w t)
  = for_gradle_paths L F paths otherwise (State w t).
Proof.
  intros [Habsent|Hnone]; [by apply for_gradle_paths_absent|].
  destruct (os_path_exists L path w) eqn:Hexists; [|by apply for_gradle_paths_absent].
  rewrite (for_gradle_paths_read L F path paths otherwise (State w t) (content path) w);
    [|done|by apply quiet].
  apply applicationId_search in Hnone. by rewrite Hnone.
Qed.

Lemma manifest_package_name_declares project_path t name :
  declares L w content package_attribute (manifest_path project_path) name ->
  manifest_package_name L F project_path (State w t) = (Returns (Some name), State w t).
Proof.
  intros [Hexists Hfirst]. unfold manifest_package_name.
  fold (manifest_path project_path). cbn [world]. rewrite Hexists.
  unfold mbind, M_bind, consult. cbn [world trace]. rewrite (quiet _ Hexists).
  apply package_search in Hfirst.
  destruct (Re.search package_re _) as [m|]; [|done].
  cbn [mbind option_bind] in Hfirst. by rewrite Hfirst.
Qed.

Lemma manifest_package_name_silent project_path t :
  silent L w content package_attribute (manifest_path project_path) ->
  manifest_package_name L F project_path (State w t) = (Returns None, State w t).
Proof.
  intros Hsilent. unfold manifest_package_name.
  fold (manifest_path project_path). cbn [world].
  destruct (os_path_exists L _ w) eqn:Hexists; [|done].
  destruct Hsilent as [Habsent|Hnone]; [congruence|].
  unfold mbind, M_bind, consult. cbn [world trace]. rewrite (quiet _ Hexists).
  apply package_search in Hnone. by rewrite Hnone.
Qed.
End Precedence.

(** ** The order of binary64 numbers *)

Module FloatOrder.
Local Open Scope Z_scope.

Lemma SFcompare_Lt_trans x y z c :
  SFcompare x y = Some Lt -> SFcompare y z = Some c -> c <> Gt ->
  SFcompare x z = Some Lt.
Proof.
  destruct x as [[]|[]| |[] m1 e1], y as [[]|[]| |[] m2 e2], z as [[]|[]| |[] m3 e3];
    cbn [SFcompare]; try done.
  all: intros H12%(inj Some) H23%(inj Some) Hc; f_equal; try congruence.
  all: destruct (Z.compare_spec e1 e2) as [->| |]; try done.
  all: destruct (Z.compare_spec e2 e3) as [->| |]; try (by subst c).
  all: try (destruct (Z.compare_spec e1 e3); first [done|lia]).
  all: rewrite ?Z.compare_refl.
  all: try (destruct (Z.compare_spec e2 e3); first [done|lia]).
  all: rewrite Pos.compare_cont_spec in *; cbn [Pos.switch_Eq] in *.
  all: destruct (Pos.compare_spec m1 m2) as [->| |]; try done.
  all: destruct (Pos.compare_spec m2 m3) as [->| |]; try (by subst c).
  all: destruct (Pos.compare_spec m1 m3); first [done|lia].
Qed.

Lemma SFcompare_irrefl x : SFcompare x x <> Some Lt.
Proof.
  destruct x as [[]|[]| |[] m e]; cbn [SFcompare]; try done.
  all: rewrite Z.compare_refl, Pos.compare_cont_spec, Pos.compare_refl; done.
Qed.

(** Nothing below [v] is above what [m], itself below [v], is not below. *)
Lemma ltb_leb_false (m v t : float) :
  (m <? v)%float = true -> (m <? t)%float = false -> (v <=? t)%float = false.
Proof.
  rewrite !ltb_spec, leb_spec. unfold SFltb, SFleb.
  destruct (SFcompare (Prim2SF m) (Prim2SF v)) as [[]|] eqn:Hmv; try done.
  destruct (SFcompare (Prim2SF v) (Prim2SF t)) as [c|] eqn:Hvt; [|done].
  destruct (decide (c = Gt)) as [->|Hc]; [done|].
  by rewrite (SFcompare_Lt_trans _ _ _ _ Hmv Hvt Hc).
Qed.

Lemma ltb_irrefl (m : float) : (m <? m)%float = false.
Proof.
  rewrite ltb_spec. unfold SFltb.
  pose proof (SFcompare_irrefl (Prim2SF m)).
  by destruct (SFcompare _ _) as [[]|].
Qed.

Lemma leb_false_ltb (m t : float) : (m <=? t)%float = false -> (m <? t)%float = false.
Proof.
  rewrite ltb_spec, leb_spec. unfold SFltb, SFleb.
  by destruct (SFcompare _ _) as [[]|].
Qed.

End FloatOrder.

(** ** The percentage of a progress between 0 and 1 *)

Module PercentFacts.
Import FloatFacts.
Local Open Scope Z_scope.

Lemma pow2_split a b : 0 <= a -> 0 <= b -> 2 ^ (a + b) = 2 ^ a * 2 ^ b.
Proof. intros. by rewrite Z.pow_add_r. Qed.

(** A product of at most a hundred rounds to a float below a hundred and
    one. *)
Lemma binary_round_aux_percent m e l :
  0 <= m -> e <= -46 -> m <= 100 * 2 ^ (- e) ->
  let x := binary_round_aux prec emax false m e l in
  x = S754_zero false \/
  exists m' e', x = S754_finite false m' e' /\ e' <= -46 /\ Z.pos m' < 101 * 2 ^ (- e').
Proof.
  intros Hm He Hle. unfold binary_round_aux.
  assert (forall z, z <= 7 -> fexp prec emax z <= -46) as Hfexp.
  { intros z Hz. unfold fexp, emin, prec, emax. lia. }
  assert (forall m e, 0 <= m -> e <= -46 -> m < 101 * 2 ^ (- e) ->
                      Zdigits2 m + e <= 7) as Hdigits.
  { intros m0 e0 Hm0 He0 Hlt.
    assert (0 < 2 ^ (- e0)) by (apply Z.pow_pos_nonneg; lia).
    assert (m0 < 2 ^ (7 - e0)).
    { replace (7 - e0) with (7 + - e0) by lia. rewrite pow2_split by lia.
      change (2 ^ 7) with 128. lia. }
    pose proof (Zdigits2_le m0 (7 - e0) Hm0 ltac:(lia) ltac:(lia)). lia. }
  assert (0 < 2 ^ (- e)) as Hpe by (apply Z.pow_pos_nonneg; lia).
  destruct (shr_fexp_spec prec emax m e l Hm) as [He1 Hm1].
  destruct (shr_fexp prec emax m e l) as [mrs' e1]. cbn [fst snd] in He1, Hm1.
  cbv zeta in He1, Hm1. rewrite <- He1 in Hm1.
  assert (e1 <= -46) as He1'.
  { pose proof (Hfexp _ (Hdigits m e Hm He ltac:(lia))). lia. }
  assert (e <= e1) as Hee1 by lia.
  assert (0 < 2 ^ (- e1)) as Hpe1 by (apply Z.pow_pos_nonneg; lia).
  assert (0 < 2 ^ (e1 - e)) as Hpk by (apply Z.pow_pos_nonneg; lia).
  assert (2 ^ (- e) = 2 ^ (- e1) * 2 ^ (e1 - e)) as Hsplit.
  { rewrite <- pow2_split by lia. f_equal. lia. }
  assert (0 <= shr_m mrs' <= 100 * 2 ^ (- e1)) as [Hm1' Hm1''].
  { rewrite Hm1. split; [apply Z.div_pos; lia|].
    apply Z.div_le_upper_bound; [done|]. rewrite Hsplit in Hle.
    clear - Hle. lia. }
  pose proof (round_nearest_even_bounds (shr_m mrs') (loc_of_shr_record mrs') Hm1')
    as [Hr0 Hr1].
  set (m1 := round_nearest_even (shr_m mrs') (loc_of_shr_record mrs')) in *.
  assert (2 ^ 1 <= 2 ^ (- e1)) as Hbig by (apply Z.pow_le_mono_r; lia).
  rewrite Z.pow_1_r in Hbig.
  assert (m1 < 101 * 2 ^ (- e1)) as Hm1lt by (clear - Hr1 Hm1'' Hbig; lia).
  destruct (shr_fexp_spec prec emax m1 e1 loc_Exact Hr0) as [He2 Hm2].
  destruct (shr_fexp prec emax m1 e1 loc_Exact) as [mrs'' e2]. cbn [fst snd] in He2, Hm2.
  cbv zeta in He2, Hm2. rewrite <- He2 in Hm2.
  assert (e2 <= -46) as He2'.
  { pose proof (Hfexp _ (Hdigits m1 e1 Hr0 He1' Hm1lt)). lia. }
  assert (e1 <= e2) as He12 by lia.
  assert (0 < 2 ^ (- e2)) as Hpe2 by (apply Z.pow_pos_nonneg; lia).
  assert (0 < 2 ^ (e2 - e1)) as Hpk2 by (apply Z.pow_pos_nonneg; lia).
  assert (2 ^ (- e1) = 2 ^ (- e2) * 2 ^ (e2 - e1)) as Hsplit2.
  { rewrite <- pow2_split by lia. f_equal. lia. }
  assert (0 <= shr_m mrs'' < 101 * 2 ^ (- e2)) as [Hm2' Hm2''].
  { rewrite Hm2. split; [apply Z.div_pos; lia|].
    apply Z.div_lt_upper_bound; [done|]. rewrite Hsplit2 in Hm1lt.
    clear - Hm1lt Hr1 Hr0. lia. }
  destruct (shr_m mrs'') as [|p|p]; [by left| |lia].
  right. replace (e2 <=? emax - prec) with true.
  - exists p, e2. done.
  - symmetry. apply Z.leb_le. unfold emax, prec. lia.
Qed.

Lemma SFleb_finite_1 m e :
  bounded prec emax m e = true ->
  SFleb (S754_finite false m e) (S754_finite false 4503599627370496 (-52)) = true ->
  e <= -52 /\ Z.pos m <= 2 ^ (- e).
Proof.
  intros Hm%bounded_digits. unfold SFleb, SFcompare.
  destruct (Z.compare_spec e (-52)) as [->|Hlt|Hgt].
  - intros Hle. split; [done|]. change (2 ^ (- -52)) with 4503599627370496.
    destruct (Pos.compare_cont Eq m 4503599627370496) eqn:Hcmp.
    + apply (Pos.compare_eq m) in Hcmp. rewrite Hcmp. apply Z.le_refl.
    + apply (proj1 (Pos.compare_lt_iff m _)) in Hcmp.
      apply Pos2Z.pos_lt_pos in Hcmp. by apply Z.lt_le_incl.
    + discriminate.
  - intros _. split; [lia|].
    assert (2 ^ 53 <= 2 ^ (- e)) by (apply Z.pow_le_mono_r; lia). lia.
  - discriminate.
Qed.

(** [int(p * 100)] for a [p] between 0 and 1. *)
Lemma int_percent (p : float) :
  (0 <=? p)%float = true -> (p <=? 1)%float = true ->
  exists percent, int (p * 100)%float = Returns percent /\ 0 <= percent <= 100.
Proof.
  rewrite !leb_spec, Prim2SF_0, Prim2SF_1. unfold int.
  rewrite mul_spec, Prim2SF_100. unfold SF64mul.
  pose proof (Prim2SF_valid p) as Hvalid.
  destruct (Prim2SF p) as [s|[]| |[] m e]; try done; intros _ Hle.
  - exists 0. cbn [SFmul]. split; [done|lia].
  - apply (SFleb_finite_1 m e Hvalid) in Hle as [He Hm]. cbn [SFmul xorb].
    assert (0 < 2 ^ (- e)) by (apply Z.pow_pos_nonneg; lia).
    destruct (binary_round_aux_percent (Z.pos (m * 7036874417766400)) (e + -46)
                loc_Exact)
      as [->|(m' & e' & -> & He' & Hm')].
    + lia.
    + lia.
    + replace (- (e + -46)) with (- e + 46) by lia. rewrite pow2_split by lia.
      change (2 ^ 46) with 70368744177664. rewrite Pos2Z.inj_mul. lia.
    + exists 0. split; [done|lia].
    + replace (0 <=? e') with false by (symmetry; apply Z.leb_gt; lia).
      assert (0 < 2 ^ (- e')) by (apply Z.pow_pos_nonneg; lia).
      eexists. split; [done|]. split.
      * apply Z.div_pos; lia.
      * assert (Z.pos m' / 2 ^ (- e') < 101); [|lia].
        apply Z.div_lt_upper_bound; lia.
Qed.
End PercentFacts.

(** ** [find_aab_file] *)

Section FindAab.
Context {World : Type} (F : Files World).

Lemma max_getmtime_newest items : forall times w w' before tb maxitem maxval after ta t,
  stats F w items times w' ->
  length tb = length before -> length ta = length after ->
  Forall (later_than maxval) tb -> Forall (not_before maxval) ta ->
  exists path tmax before' tb' after' ta',
    max_getmtime F maxitem maxval items (State w t) = (Returns path, State w' t) /\
    before ++ maxitem :: after ++ items = before' ++ path :: after' /\
    tb ++ maxval :: ta ++ times = tb' ++ tmax :: ta' /\
    length tb' = length before' /\
    Forall (later_than tmax) tb' /\ Forall (not_before tmax) ta'.
Proof.
  induction items as [|item items IH];
    intros times w w' before tb maxitem maxval after ta t Hstats Hlb Hla Hb Ha.
  { inversion Hstats; subst. exists maxitem, maxval, before, tb, after, ta.
    by rewrite !app_nil_r. }
  inversion Hstats as [|? ? val w1 ? times' ? Hstat Hstats']; subst.
  cbn [max_getmtime]. unfold mbind, M_bind, consult. cbn [world trace]. rewrite Hstat.
  destruct (maxval <? val)%float eqn:Hlt.
  - destruct (IH times' w1 w' (before ++ maxitem :: after) (tb ++ maxval :: ta)
                item val [] [] t Hstats')
      as (path & tmax & before' & tb' & after' & ta' & Hmax & Hfiles & Htimes & Hrest).
    + rewrite !length_app. simpl. lia.
    + done.
    + apply Forall_app. split; [|apply Forall_cons; split].
      * eapply Forall_impl; [exact Hb|]. intros t' Ht'.
        by apply (FloatOrder.ltb_leb_false maxval), FloatOrder.leb_false_ltb.
      * apply (FloatOrder.ltb_leb_false maxval); [done|apply FloatOrder.ltb_irrefl].
      * eapply Forall_impl; [exact Ha|]. intros t' Ht'.
        by apply (FloatOrder.ltb_leb_false maxval).
    + constructor.
    + exists path, tmax, before', tb', after', ta'.
      split; [done|]. rewrite <- Hfiles, <- Htimes.
      by rewrite <- !app_assoc.
  - destruct (IH times' w1 w' before tb maxitem maxval (after ++ [item]) (ta ++ [val])
                t Hstats')
      as (path & tmax & before' & tb' & after' & ta' & Hmax & Hfiles & Htimes & Hrest).
    + done.
    + rewrite !length_app. simpl. lia.
    + done.
    + apply Forall_app. split; [done|]. by apply Forall_singleton.
    + exists path, tmax, before', tb', after', ta'.
      split; [done|]. rewrite <- Hfiles, <- Htimes.
      by rewrite <- !app_assoc.
Qed.

Lemma max_getmtime_elem items : forall maxitem maxval (s s' : state World) path,
  max_getmtime F maxitem maxval items s = (Returns path, s') ->
  path ∈ maxitem :: items.
Proof.
  induction items as [|item items IH]; intros maxitem maxval s s' path;
    cbn [max_getmtime].
  { intros [= <- _]. by left. }
  unfold mbind, M_bind, consult.
  destruct (os_path_getmtime F item (world s)) as [[val|e|] w]; [|done..].
  destruct (maxval <? val)%float; intros Hin%IH.
  - by right.
  - apply elem_of_cons in Hin as [->|Hin]; [by left|]. by do 2 right.
Qed.

Lemma max_getmtime_trace items : forall maxitem maxval (s : state World),
  trace (max_getmtime F maxitem maxval items s).2 = trace s.
Proof.
  induction items as [|item items IH]; intros maxitem maxval s;
    cbn [max_getmtime]; [done|].
  unfold mbind, M_bind, consult.
  destruct (os_path_getmtime F item (world s)) as [[val|e|] w]; [|done..].
  destruct (maxval <? val)%float; by rewrite IH.
Qed.

Lemma find_aab_file_trace project_path (s : state World) :
  trace (find_aab_file F project_path s).2 = trace s.
Proof.
  unfold find_aab_file, mbind, M_bind, consult.
  destruct (glob_glob F _ (world s)) as [[|item items] w]; [done|].
  cbn [world trace].
  destruct (os_path_getmtime F item w) as [[val|e|] w1]; [|done..].
  pose proof (max_getmtime_trace items item val (State w1 (trace s))) as Htrace.
  by destruct (max_getmtime F item val items _) as [[path|e|] s1].
Qed.

Lemma find_aab_file_elem project_path (s s' : state World) path :
  find_aab_file F project_path s = (Returns (Some path), s') ->
  path ∈ (glob_glob F (aab_pattern project_path) (world s)).1.
Proof.
  unfold find_aab_file, mbind, M_bind, consult. fold (aab_pattern project_path).
  destruct (glob_glob F _ (world s)) as [[|item items] w]; [done|].
  cbn [world trace].
  destruct (os_path_getmtime F item w) as [[val|e|] w1]; [|done..].
  destruct (max_getmtime F item val items _) as [[path'|e|] s1] eqn:Hmax; [|done..].
  intros [= -> _]. by apply max_getmtime_elem in Hmax.
Qed.

Lemma find_aab_file_newest project_path (w w1 w2 : World) (t : list event)
    (files : list string) (times : list float) :
  glob_glob F (aab_pattern project_path) w = (files, w1) ->
  stats F w1 files times w2 ->
  files <> [] ->
  exists path tmax before tb after ta,
    find_aab_file F project_path (State w t) = (Returns (Some path), State w2 t) /\
    files = before ++ path :: after /\
    times = tb ++ tmax :: ta /\
    length tb = length before /\
    Forall (later_than tmax) tb /\ Forall (not_before tmax) ta.
Proof.
  intros Hglob Hstats Hfiles.
  destruct Hstats as [|w1 item val w1' items times w2 Hstat Hstats]; [done|].
  destruct (max_getmtime_newest items times w1' w2 [] [] item val [] [] t Hstats)
    as (path & tmax & before & tb & after & ta & Hmax & Hsplit & Htimes & Hlen & Hb & Ha);
    [done..|].
  exists path, tmax, before, tb, after, ta.
  split; [|done].
  unfold find_aab_file, mbind, M_bind, consult. fold (aab_pattern project_path).
  cbn [world trace]. rewrite Hglob. cbn [world trace]. rewrite Hstat.
  cbn [world trace]. by rewrite Hmax.
Qed.
Lemma max_getmtime_raises before : forall times w w1 path after e w2 maxitem maxval t,
  stats F w before times w1 ->
  os_path_getmtime F path w1 = (Raises e, w2) ->
  max_getmtime F maxitem maxval (before ++ path :: after) (State w t)
  = (Raises e, State w2 t).
Proof.
  induction before as [|item before IH];
    intros times w w1 path after e w2 maxitem maxval t Hstats Hstat.
  - inversion Hstats; subst. cbn [app max_getmtime].
    unfold mbind, M_bind, consult. cbn [world trace]. by rewrite Hstat.
  - inversion Hstats as [|? ? val w' ? times' ? Hitem Hstats']; subst.
    cbn [app max_getmtime]. unfold mbind, M_bind, consult. cbn [world trace].
    rewrite Hitem. destruct (maxval <? val)%float; by eapply IH.
Qed.
End FindAab.

(** ** More of what holds of every run of [upload_to_google_play] *)

Section Invariants.
Variables (SERVICE_ACCOUNT_FILE package_name aab_path track : string).
Variables (rollout_percentage : float) (release_notes : string) (draft : bool).
Variables (C : Console) (fuel : nat).

Local Abbreviation reaches :=
  (reaches SERVICE_ACCOUNT_FILE package_name aab_path track rollout_percentage
     release_notes draft).
Local Abbreviation run :=
  (run SERVICE_ACCOUNT_FILE package_name aab_path track rollout_percentage
     release_notes draft C fuel).
Local Abbreviation step :=
  (step SERVICE_ACCOUNT_FILE package_name aab_path track rollout_percentage
     release_notes draft).
Local Abbreviation call_at :=
  (call_at SERVICE_ACCOUNT_FILE package_name aab_path track rollout_percentage
     release_notes draft).
Local Abbreviation at_point :=
  (at_point SERVICE_ACCOUNT_FILE package_name aab_path track rollout_percentage
     release_notes draft).

Lemma progress_line_event status line e :
  progress_line status = Returns line -> e ∈ line -> exists percent, e = Progress percent.
Proof.
  intros [->|[percent ->]]%progress_line_cases; [by intros ?%elem_of_nil|].
  intros ->%list_elem_of_singleton. by exists percent.
Qed.

Lemma progress_line_raises status e :
  progress_line status = Raises e -> exists msg, e = Exception msg.
Proof.
  destruct status as [status|]; cbn [progress_line]; [|done].
  unfold int. destruct (Prim2SF _); intros [= <-]; eauto.
Qed.

Lemma progress_line_returns_or_raises status : progress_line status <> Diverges.
Proof.
  destruct status as [status|]; cbn [progress_line]; [|done].
  unfold int. by destruct (Prim2SF _).
Qed.

(** The events of a step: the call of the point it leaves, answered, and
    at most a progress line. *)
Lemma step_events p es q e :
  step p es q -> e ∈ es ->
  (exists c r, e = Call c (Returns r) /\ call_at p = Some c) \/
  (exists percent, e = Progress percent).
Proof.
  destruct 1; intros Hin.
  1-6,9-10: apply list_elem_of_singleton in Hin as ->; left; eauto.
  all: apply elem_of_cons in Hin as [->|Hin]; [left; eauto|right].
  all: by eapply progress_line_event.
Qed.

Lemma reaches_events t p : reaches t p -> Forall at_point t.
Proof.
  induction 1 as [|t p es q _ IH Hstep]; [by constructor|].
  apply Forall_app. split; [done|]. apply Forall_forall. intros e Hin.
  destruct (step_events _ _ _ _ Hstep Hin) as [(c & r & -> & Hc)|[percent ->]].
  - left. by exists p, c, (Returns r).
  - right. by exists percent.
Qed.

Lemma run_events o t : run o t -> Forall at_point t.
Proof.
  destruct 1 as [t Ht|t p c o Ht Hc Ho|t edit Ht _|t edit_id status response Ht Hbad
                |t edit_id status line response Ht Hline _|t edit_id Ht _
                |t p lines e' Ht _];
    pose proof (reaches_events _ _ Ht) as Hall; try done.
  - apply Forall_app. split; [done|]. apply Forall_singleton. left. by exists p, c, o.
  - apply Forall_app. split; [done|]. apply Forall_singleton. left.
    by exists CreatingEdit, (EditsInsert ∅ package_name), (Returns (Body edit)).
  - apply Forall_app. split; [done|]. apply Forall_singleton. left.
    by eexists (Uploading edit_id), _, _.
  - apply Forall_app. split; [done|]. apply Forall_cons. split.
    + left. by eexists (Uploading edit_id), _, _.
    + apply Forall_forall. intros e [percent ->]%(progress_line_event _ _ _ Hline).
      right. by exists percent.
Qed.

Lemma at_point_arguments e :
  at_point e ->
  (forall p, package_of e = Some p -> p = package_name) /\
  (forall q, bundle_of e = Some q -> q = aab_path).
Proof.
  intros [(p & c & o & -> & Hc)|[percent ->]]; [|done].
  destruct p; simplify_eq/=; split; intros ?; by intros [= <-].
Qed.

(** *** One edit *)

Lemma step_edit_id p es q :
  step p es q -> q <> Finished ->
  (forall e id, e ∈ es -> edit_id_of e = Some id -> edit_id_at q = Some id) /\
  (forall id, edit_id_at p = Some id -> edit_id_at q = Some id).
Proof.
  destruct 1; intros Hq; try done; split; try done.
  all: intros e id Hin; try (apply list_elem_of_singleton in Hin as ->; done).
  all: apply elem_of_cons in Hin as [->|Hin]; [done|].
  all: by eapply progress_line_event in Hin as [percent ->].
Qed.

Lemma reaches_edit_id t p :
  reaches t p -> p <> Finished ->
  forall e id, e ∈ t -> edit_id_of e = Some id -> edit_id_at p = Some id.
Proof.
  induction 1 as [|t p es q Ht IH Hstep]; intros Hq e id Hin Hid.
  { by apply elem_of_nil in Hin. }
  assert (p <> Finished) as Hp by (intros ->; inversion Hstep).
  destruct (step_edit_id _ _ _ Hstep Hq) as [Hes Hnext].
  apply elem_of_app in Hin as [Hin|Hin]; [|by eapply Hes].
  by eapply Hnext, IH.
Qed.

Lemma reaches_opened t p id :
  reaches t p -> edit_id_at p = Some id ->
  exists edit,
    Call (EditsInsert ∅ package_name) (Returns (Body edit)) ∈ t /\ edit !! "id" = Some id.
Proof.
  induction 1 as [|t p es q Ht IH Hstep]; [done|]. intros Hid.
  destruct Hstep; simplify_eq/=.
  2-7: destruct (IH eq_refl) as (edit' & Hin & Hedit); exists edit';
       (split; [|done]); apply elem_of_app; by left.
  exists edit. split; [|done]. apply elem_of_app. right. by left.
Qed.

(** A run is a trace that reached a point other than the end, and what
    happened there. *)
Lemma run_edit_id o t e id :
  run o t -> e ∈ t -> edit_id_of e = Some id ->
  (exists edit,
     Call (EditsInsert ∅ package_name) (Returns (Body edit)) ∈ t /\
     edit !! "id" = Some id) /\
  (forall e' id', e' ∈ t -> edit_id_of e' = Some id' -> id' = id).
Proof.
  assert (Hfrom : forall t0 p es,
    reaches t0 p -> p <> Finished ->
    (forall e id, e ∈ es -> edit_id_of e = Some id -> edit_id_at p = Some id) ->
    forall e id, e ∈ t0 ++ es -> edit_id_of e = Some id ->
    (exists edit,
       Call (EditsInsert ∅ package_name) (Returns (Body edit)) ∈ t0 ++ es /\
       edit !! "id" = Some id) /\
    (forall e' id', e' ∈ t0 ++ es -> edit_id_of e' = Some id' -> id' = id)).
  { intros t0 p es Ht0 Hp Hes.
    assert (Hall : forall e id, e ∈ t0 ++ es -> edit_id_of e = Some id ->
                                edit_id_at p = Some id).
    { intros e1 id1 [Hin|Hin]%elem_of_app; [by eapply reaches_edit_id|by eapply Hes]. }
    intros e1 id1 Hin Hid. pose proof (Hall _ _ Hin Hid) as Hat. split.
    - destruct (reaches_opened _ _ _ Ht0 Hat) as (edit & Hedit & Hlookup).
      exists edit. split; [|done]. apply elem_of_app. by left.
    - intros e' id' Hin' Hid'. pose proof (Hall _ _ Hin' Hid'). congruence. }
  destruct 1 as [t Ht|t p c o Ht Hc Ho|t edit Ht _|t edit_id status response Ht Hbad
                |t edit_id status line response Ht Hline _|t edit_id Ht _
                |t p lines e' Ht _].
  - inversion Ht as [|t1 p es q Ht1 Hstep]; subst. inversion Hstep; subst.
    apply (Hfrom t1 (Committing edit_id)); [done..|].
    by intros e1 id1 ->%list_elem_of_singleton [= <-].
  - apply (Hfrom t p); [done|by intros ->|].
    intros e1 id1 ->%list_elem_of_singleton. destruct p; simplify_eq/=; by intros [= <-].
  - apply (Hfrom t CreatingEdit); [done..|]. by intros e1 id1 ->%list_elem_of_singleton.
  - apply (Hfrom t (Uploading edit_id)); [done..|].
    by intros e1 id1 ->%list_elem_of_singleton [= <-].
  - apply (Hfrom t (Uploading edit_id)); [done..|].
    intros e1 id1 [->|Hin]%elem_of_cons; [by intros [= <-]|].
    by eapply progress_line_event in Hin as [percent ->].
  - rewrite <- (app_nil_r t). apply (Hfrom t (Uploading edit_id)); [done..|].
    by intros e1 id1 ?%elem_of_nil.
  - destruct p;
      try (rewrite <- (app_nil_r t); eapply Hfrom;
           [done|done|by intros e1 id1 ?%elem_of_nil]).
    inversion Ht as [|t1 p es q Ht1 Hstep]; subst. inversion Hstep; subst.
    apply (Hfrom t1 (Committing edit_id)); [done..|].
    by intros e1 id1 ->%list_elem_of_singleton [= <-].
Qed.

(** *** Exceptions *)

(** An exception leaves a run with the call that raised it, which is not
    an [Exception]; or from the handler, on a console that cannot encode the
    text of the [Exception] a call raised. *)
Lemma run_raises o t e :
  writable C = true -> run o t -> o = Raises e ->
  (exists msg t1 c,
     e = BaseException msg /\ t = t1 ++ [Call c (Raises (BaseException msg))]) \/
  (exists msg t1 c,
     t = t1 ++ [Call c (Raises (Exception msg))] /\
     prints C (error_report msg) = Raises e).
Proof.
  intros Hw.
  destruct 1 as [t Ht|t p c o Ht Hc Ho|t edit Ht _|t edit_id status response Ht Hbad
                |t edit_id status line response Ht Hline _|t edit_id Ht _
                |t p lines e' Ht _]; try done.
  - destruct o as [r|[msg|msg]|]; try done; cbn [caught].
    + destruct (prints C (error_report msg)) as [[]|e'|] eqn:Hreport; try done.
      intros [= <-]. right. by exists msg, t, c.
    + intros [= <-]. left. by exists msg, t, c.
  - by rewrite caught_progress_line.
Qed.

(** *** Responses without the expected key *)

Lemma reaches_final_response t p package_name' edit_id status response :
  reaches t p ->
  Call (NextChunk package_name' edit_id) (Returns (Chunk status (Some response))) ∈ t ->
  is_Some (response !! "versionCode").
Proof.
  induction 1 as [|t p es q Ht IH Hstep]; [by intros ?%elem_of_nil|].
  intros [Hin|Hin]%elem_of_app; [by apply IH|].
  destruct Hstep; try (by apply list_elem_of_singleton in Hin).
  - apply elem_of_cons in Hin as [[=]|Hin].
    by eapply progress_line_event in Hin as [percent [=]].
  - apply elem_of_cons in Hin as [[= _ _ _ <-]|Hin]; [done|].
    by eapply progress_line_event in Hin as [percent [=]].
Qed.

Lemma reaches_insert_response t p body package_name' edit :
  reaches t p ->
  Call (EditsInsert body package_name') (Returns (Body edit)) ∈ t ->
  is_Some (edit !! "id").
Proof.
  induction 1 as [|t p es q Ht IH Hstep]; [by intros ?%elem_of_nil|].
  intros [Hin|Hin]%elem_of_app; [by apply IH|].
  destruct Hstep; try (by apply list_elem_of_singleton in Hin).
  - apply list_elem_of_singleton in Hin. by injection Hin as _ _ <-.
  - apply elem_of_cons in Hin as [[=]|Hin].
    by eapply progress_line_event in Hin as [percent [=]].
  - apply elem_of_cons in Hin as [[=]|Hin].
    by eapply progress_line_event in Hin as [percent [=]].
Qed.

Lemma run_no_version_code_stops o t package_name' edit_id status response :
  writable C = true ->
  run o t ->
  Call (NextChunk package_name' edit_id) (Returns (Chunk status (Some response))) ∈ t ->
  response !! "versionCode" = None ->
  o = Returns false /\ exists k, remote_ops t = OpenEdit :: replicate (S k) BundleUpload.
Proof.
  intros Hw Hrun Hin Hnone.
  assert (Hnot : forall t0 p, reaches t0 p ->
    Call (NextChunk package_name' edit_id) (Returns (Chunk status (Some response))) ∉ t0).
  { intros t0 p Ht0 Hin0. eapply reaches_final_response in Hin0 as [v Hv]; [|done].
    congruence. }
  destruct Hrun as [t Ht|t p c o Ht Hc Ho|t edit Ht _|t edit_id' status' response' Ht Hbad
                |t edit_id' status' line response' Ht Hline _|t edit_id' Ht _
                |t p lines e' Ht _].
  - by apply (Hnot _ _ Ht) in Hin.
  - apply elem_of_app in Hin as [Hin|Hin]; [by apply (Hnot _ _ Ht) in Hin|].
    apply list_elem_of_singleton in Hin. by injection Hin as <- <-.
  - apply elem_of_app in Hin as [Hin|Hin]; [by apply (Hnot _ _ Ht) in Hin|].
    by apply list_elem_of_singleton in Hin.
  - split; [by apply caught_progress_line|].
    destruct (reaches_remote_ops _ _ _ _ _ _ _ _ _ Ht) as [k Hk]. exists k.
    unfold remote_ops in *. rewrite omap_app, Hk. cbn [ops_at omap list_omap remote_op_of].
    by rewrite replicate_S_end.
  - split; [done|].
    destruct (reaches_remote_ops _ _ _ _ _ _ _ _ _ Ht) as [k Hk]. exists k.
    unfold remote_ops in *. rewrite omap_app, Hk. cbn [ops_at omap list_omap remote_op_of].
    fold (remote_ops line). rewrite (remote_ops_progress_line _ _ Hline).
    by rewrite replicate_S_end.
  - by apply (Hnot _ _ Ht) in Hin.
  - by apply (Hnot _ _ Ht) in Hin.
Qed.

Lemma run_no_edit_id_stops o t body package_name' edit :
  run o t ->
  Call (EditsInsert body package_name') (Returns (Body edit)) ∈ t ->
  edit !! "id" = None ->
  o = Returns false /\ remote_ops t = [OpenEdit].
Proof.
  intros Hrun Hin Hnone.
  assert (Hnot : forall t0 p, reaches t0 p ->
    Call (EditsInsert body package_name') (Returns (Body edit)) ∉ t0).
  { intros t0 p Ht0 Hin0. eapply reaches_insert_response in Hin0 as [v Hv]; [|done].
    congruence. }
  destruct Hrun as [t Ht|t p c o Ht Hc Ho|t edit' Ht _|t edit_id' status' response' Ht Hbad
                |t edit_id' status' line response' Ht Hline _|t edit_id' Ht _
                |t p lines e' Ht _].
  - by apply (Hnot _ _ Ht) in Hin.
  - apply elem_of_app in Hin as [Hin|Hin]; [by apply (Hnot _ _ Ht) in Hin|].
    apply list_elem_of_singleton in Hin. by injection Hin as <- <-.
  - split; [done|].
    destruct (reaches_remote_ops _ _ _ _ _ _ _ _ _ Ht) as [k Hk].
    unfold remote_ops in *. by rewrite omap_app, Hk.
  - apply elem_of_app in Hin as [Hin|Hin]; [by apply (Hnot _ _ Ht) in Hin|].
    by apply list_elem_of_singleton in Hin.
  - apply elem_of_app in Hin as [Hin|Hin]; [by apply (Hnot _ _ Ht) in Hin|].
    apply elem_of_cons in Hin as [[=]|Hin].
    by eapply progress_line_event in Hin as [percent [=]].
  - by apply (Hnot _ _ Ht) in Hin.
  - by apply (Hnot _ _ Ht) in Hin.
Qed.
End Invariants.

Section Publish.
Context {World : Type} (L : Library World).
Variables (SERVICE_ACCOUNT_FILE package_name aab_path track : string).
Variables (rollout_percentage : float) (release_notes : string) (draft : bool).

Lemma upload_to_google_play_events fuel (w : World) :
  Forall (fun e => (forall p, package_of e = Some p -> p = package_name) /\
                   (forall q, bundle_of e = Some q -> q = aab_path))
    (trace (upload_to_google_play L SERVICE_ACCOUNT_FILE fuel package_name aab_path
              track rollout_percentage release_notes draft (State w [])).2).
Proof.
  destruct (upload_to_google_play _ _ _ _ _ _ _ _ _ _) as [o s] eqn:Hupload.
  cbn [snd].
  apply upload_to_google_play_cases in Hupload as [[_ ->]|[_ Hrun]]; [by constructor|].
  eapply Forall_impl; [by eapply run_events|]. apply at_point_arguments.
Qed.
End Publish.

(** ** Progress lines, and runs that succeed *)

Section Progress.
Variables (SERVICE_ACCOUNT_FILE package_name aab_path track : string).
Variables (rollout_percentage : float) (release_notes : string) (draft : bool).
Variables (C : Console) (fuel : nat).

Local Abbreviation reaches :=
  (reaches SERVICE_ACCOUNT_FILE package_name aab_path track rollout_percentage
     release_notes draft).
Local Abbreviation run :=
  (run SERVICE_ACCOUNT_FILE package_name aab_path track rollout_percentage
     release_notes draft C fuel).

Lemma progress_line_percent status line percent :
  progress_line status = Returns line -> Progress percent ∈ line ->
  exists st, status = Some st /\ int (progress st * 100)%float = Returns percent.
Proof.
  destruct status as [st|]; cbn [progress_line]; [|by intros [= <-] ?%elem_of_nil].
  destruct (int _) as [percent'| |] eqn:Hint; [|done..].
  intros [= <-] [= ->]%list_elem_of_singleton. by exists st.
Qed.

Lemma reported_app t es percent : reported t percent -> reported (t ++ es) percent.
Proof.
  intros (e & status & Hin & Hstatus & Hint). exists e, status.
  split; [|done]. apply elem_of_app. by left.
Qed.

Lemma reported_chunk t package_name' edit_id status response line percent :
  progress_line status = Returns line -> Progress percent ∈ line ->
  reported (t ++ Call (NextChunk package_name' edit_id) (Returns (Chunk status response))
              :: line) percent.
Proof.
  intros Hline Hin.
  destruct (progress_line_percent _ _ _ Hline Hin) as (st & -> & Hint).
  eexists _, st. split; [apply elem_of_app; right; by left|]. done.
Qed.

Lemma reaches_reported t p percent :
  reaches t p -> Progress percent ∈ t -> reported t percent.
Proof.
  induction 1 as [|t p es q Ht IH Hstep]; [by intros ?%elem_of_nil|].
  intros [Hin|Hin]%elem_of_app; [by apply reported_app, IH|].
  destruct Hstep; try (by apply list_elem_of_singleton in Hin).
  - apply elem_of_cons in Hin as [[=]|Hin]. by eapply reported_chunk.
  - apply elem_of_cons in Hin as [[=]|Hin]. by eapply reported_chunk.
Qed.

Lemma run_reported o t percent : run o t -> Progress percent ∈ t -> reported t percent.
Proof.
  destruct 1 as [t Ht|t p c o Ht Hc Ho|t edit Ht _|t edit_id status response Ht Hbad
                |t edit_id status line response Ht Hline _|t edit_id Ht _
                |t p lines e' Ht _].
  - by eapply reaches_reported.
  - intros [Hin|Hin]%elem_of_app; [by eapply reported_app, reaches_reported|].
    by apply list_elem_of_singleton in Hin.
  - intros [Hin|Hin]%elem_of_app; [by eapply reported_app, reaches_reported|].
    by apply list_elem_of_singleton in Hin.
  - intros [Hin|Hin]%elem_of_app; [by eapply reported_app, reaches_reported|].
    by apply list_elem_of_singleton in Hin.
  - intros [Hin|Hin]%elem_of_app; [by eapply reported_app, reaches_reported|].
    apply elem_of_cons in Hin as [[=]|Hin]. by eapply reported_chunk.
  - by eapply reaches_reported.
  - by eapply reaches_reported.
Qed.

(** *** A run that succeeds *)

Lemma reaches_finished t :
  reaches t Finished ->
  Forall (fun e => succeeded e = true) t /\ exists k, remote_ops t = protocol (S k).
Proof.
  intros Ht. split; [by eapply reaches_succeeded|].
  by destruct (reaches_ops_uploaded _ _ _ _ _ _ _ _ _ Ht eq_refl) as [k Hk]; exists k.
Qed.

Lemma run_succeeds t :
  run (Returns true) t ->
  Forall (fun e => succeeded e = true) t /\ exists k, remote_ops t = protocol (S k).
Proof. intros Ht%run_true. by apply reaches_finished. Qed.
End Progress.

(** ** Exceptions that leave [upload_to_google_play] *)

Section Raises.
Context {World : Type} (L : Library World).
Variables (SERVICE_ACCOUNT_FILE package_name aab_path track : string).
Variables (rollout_percentage : float) (release_notes : string) (draft : bool).

Lemma upload_to_google_play_raises_cases fuel (w : World) e s :
  upload_to_google_play L SERVICE_ACCOUNT_FILE fuel package_name aab_path track
    rollout_percentage release_notes draft (State w []) = (Raises e, s) ->
  (trace s = [] /\ refuses (stdout L) e) \/
  (exists msg t c,
     e = BaseException msg /\ trace s = t ++ [Call c (Raises (BaseException msg))]) \/
  (exists msg t c,
     trace s = t ++ [Call c (Raises (Exception msg))] /\
     prints (stdout L) (error_report msg) = Raises e).
Proof.
  intros Hupload.
  destruct (publish_cases L SERVICE_ACCOUNT_FILE package_name aab_path track
              rollout_percentage release_notes draft fuel w)
    as [(e' & Heq & Hrefused)|[[_ Heq]|(Hw & _ & Hrun)]]; rewrite Hupload in *.
  - left. by injection Heq as -> ->.
  - done.
  - right. by eapply run_raises.
Qed.

(** On a console that takes every line, a run that ends with a commit
    that succeeded returns [True]. *)
Lemma upload_to_google_play_committed fuel (w : World) o s :
  generous (stdout L) ->
  upload_to_google_play L SERVICE_ACCOUNT_FILE fuel package_name aab_path track
    rollout_percentage release_notes draft (State w []) = (o, s) ->
  (exists t package_name' edit_id,
     trace s = t ++ [Call (EditsCommit package_name' edit_id) (Returns Object)]) ->
  o = Returns true.
Proof.
  intros Hgen Hupload (t & package_name' & edit_id & Ht).
  apply upload_to_google_play_cases in Hupload as [[_ Hnil]|[_ Hrun]].
  { rewrite Hnil in Ht. by destruct t. }
  assert (Hall : Forall (fun e => succeeded e = true) (trace s)).
  { pose proof (run_stops_at_failure _ _ _ _ _ _ _ _ _ _ _ Hrun) as Hstops.
    rewrite Ht in *. apply Forall_app. split; [|by apply Forall_singleton].
    by eapply stops_at_failure_before. }
  destruct (run_goes_on _ _ _ _ _ _ _ _ _ _ _ Hgen Hrun Hall)
    as [Htrue|[(t1 & edit & Heq & _)|[(t1 & id & status & response & Heq & _)
       |[(t1 & id & status & response & line & Heq & Hline & _)|[_ Hops]]]]].
  - done.
  - rewrite Ht in Heq. by apply app_inj_tail in Heq as [_ ?].
  - rewrite Ht in Heq. by apply app_inj_tail in Heq as [_ ?].
  - rewrite Ht in Heq.
    destruct (progress_line_cases _ _ Hline) as [->|[percent ->]].
    + by apply app_inj_tail in Heq as [_ ?].
    + change (t1 ++ [?e; ?e']) with (t1 ++ [e] ++ [e']) in Heq.
      rewrite app_assoc in Heq. by apply app_inj_tail in Heq as [_ ?].
  - rewrite Ht in Hops. unfold remote_ops in Hops. rewrite omap_app in Hops.
    cbn in Hops.
    assert (CommitEdit ∈ OpenEdit :: replicate fuel BundleUpload) as Hin.
    { rewrite <- Hops. apply elem_of_app. right. by left. }
    apply elem_of_cons in Hin as [?|[? _]%elem_of_replicate]; done.
Qed.
End Raises.

(** ** [main] *)

Section Main.
Context {World : Type} (L : Library World) (F : Files World).
Variable SERVICE_ACCOUNT_FILE : string.

Lemma truthy_Some s : truthy s = true -> exists name, s = Some name /\ name <> "".
Proof. destruct s as [[|c name]|]; try done. intros _. by eexists. Qed.

Lemma mbind_ext {A B} (m : M World A) (k k' : A -> M World B) (s : state World) :
  (forall a s', k a s' = k' a s') -> (m ≫= k) s = (m ≫= k') s.
Proof. intros Hk. unfold mbind, M_bind. by destruct (m s) as [[a|e|] s']. Qed.

Lemma lift_mbind {A B} (o : outcome A) (k : A -> M World B) (s : state World) :
  (lift o ≫= k) s =
  match o with
  | Returns a => k a s
  | Raises e => (Raises e, s)
  | Diverges => (Diverges, s)
  end.
Proof. unfold mbind, M_bind, lift. by destruct o. Qed.

Lemma says_mbind {B} lines (k : unit -> M World B) (s : state World) :
  (says L lines ≫= k) s =
  match prints (stdout L) lines with
  | Returns a => k a s
  | Raises e => (Raises e, s)
  | Diverges => (Diverges, s)
  end.
Proof. apply lift_mbind. Qed.

Lemma manifest_package_name_raises project_path (s s' : state World) e :
  manifest_package_name L F project_path s = (Raises e, s') -> unreadable F e.
Proof.
  unfold manifest_package_name. destruct (os_path_exists L _ (world s)); [|done].
  unfold mbind, M_bind, consult.
  destruct (open_read F _ (world s)) as [[content|e'|] w] eqn:Hread; [| |done].
  - by destruct (Re.search package_re content).
  - intros [= <- _]. eexists _, _, _. by left.
Qed.

Lemma for_gradle_paths_raises paths otherwise e :
  (forall s s' : state World, otherwise s = (Raises e, s') -> unreadable F e) ->
  forall s s' : state World,
    for_gradle_paths L F paths otherwise s = (Raises e, s') -> unreadable F e.
Proof.
  intros Hotherwise. induction paths as [|path paths IH]; intros s s';
    cbn [for_gradle_paths]; [apply Hotherwise|].
  destruct (os_path_exists L path (world s)); [|apply IH].
  unfold mbind, M_bind, consult.
  destruct (open_read F path (world s)) as [[content|e'|] w] eqn:Hread; [| |done].
  - destruct (Re.search applicationId_re content); [done|apply IH].
  - intros [= <- _]. eexists _, _, _. by left.
Qed.

Lemma get_package_name_raises project_path (s s' : state World) e :
  get_package_name L F project_path s = (Raises e, s') -> unreadable F e.
Proof.
  apply for_gradle_paths_raises. intros s1 s1'. apply manifest_package_name_raises.
Qed.

Lemma max_getmtime_unreadable items : forall maxitem maxval (s s' : state World) e,
  max_getmtime F maxitem maxval items s = (Raises e, s') -> unreadable F e.
Proof.
  induction items as [|item items IH]; intros maxitem maxval s s' e;
    cbn [max_getmtime]; [done|].
  unfold mbind, M_bind, consult.
  destruct (os_path_getmtime F item (world s)) as [[val|e'|] w] eqn:Hstat; [| |done].
  - destruct (maxval <? val)%float; apply IH.
  - intros [= <- _]. eexists _, _, _. by right.
Qed.

Lemma find_aab_file_raises project_path (s s' : state World) e :
  find_aab_file F project_path s = (Raises e, s') -> unreadable F e.
Proof.
  unfold find_aab_file, mbind, M_bind, consult.
  destruct (glob_glob F _ (world s)) as [[|item items] w]; [done|].
  cbn [world trace].
  destruct (os_path_getmtime F item w) as [[val|e'|] w1] eqn:Hstat; [| |done].
  - destruct (max_getmtime F item val items _) as [[path|e'|] s1] eqn:Hmax; [done| |done].
    intros [= <- _]. by eapply max_getmtime_unreadable.
  - intros [= <- _]. eexists _, _, _. by right.
Qed.

(** A run of [main] ends in [parse_args]; or before the publishing
    transaction, with status 1 or with an exception of the file system or
    of the console; or with a call of [upload_to_google_play] on what it has
    found. *)
Lemma main_cases fuel (w : World) o s :
  main L F SERVICE_ACCOUNT_FILE fuel (State w []) = (o, s) ->
  (trace s = [] /\
   ((parse_args F w = Returns Help /\ o = Returns 0%Z) \/
    (parse_args F w = Returns Usage /\ o = Returns 2%Z) \/
    (parse_args F w = Diverges /\ o = Diverges) \/
    (exists e, parse_args F w = Raises e /\ o = Raises e))) \/
  (exists args,
     parse_args F w = Returns (Parsed args) /\
     ((trace s = [] /\
       (o = Returns 1%Z \/ o = Diverges \/ exists e, o = Raises e /\ early L F e)) \/
      (exists project_path name path w0 w' o',
         os_path_abspath F (Namespace.project_path args) w = Returns project_path /\
         name <> "" /\ package_source L F args project_path name /\
         path <> "" /\ path ∈ (glob_glob F (aab_pattern project_path) w0).1 /\
         upload_to_google_play L SERVICE_ACCOUNT_FILE fuel name path
           (Namespace.track args) (Namespace.rollout args)
           (Namespace.release_notes args) (Namespace.draft args) (State w' [])
         = (o', s) /\
         o = exit_status o'))).
Proof.
  unfold main. cbn [world].
  destruct (parse_args F w) as [[args| |]|e|] eqn:Hparse.
  2:{ intros [= <- <-]. left. split; [done|]. by left. }
  2:{ intros [= <- <-]. left. split; [done|]. right. by left. }
  2:{ intros [= <- <-]. left. split; [done|]. do 3 right. by exists e. }
  2:{ intros [= <- <-]. left. split; [done|]. right. right. by left. }
  intros Hmain. right. exists args. split; [done|]. revert Hmain.
  rewrite lift_mbind.
  destruct (os_path_abspath F (Namespace.project_path args) w)
    as [project_path|e|] eqn:Habs;
    match goal with |- _ -> ?G => set (Q := G) end.
  all: assert (Hearly : forall (o1 : outcome Z) (s1 : state World),
         trace s1 = [] ->
         o1 = Returns 1%Z \/ o1 = Diverges \/ (exists e, o1 = Raises e /\ early L F e) ->
         (o1, s1) = (o, s) -> Q)
    by (intros o1 s1 Hs1 Ho1 [= <- <-]; by left).
  2:{ apply Hearly; [done|]. right. right. exists e. split; [done|].
      right. left. by eexists _, _. }
  2:{ apply Hearly; [done|]. right. by left. }
  assert (Hsays : forall lines (k : unit -> M World Z) (s1 : state World),
    trace s1 = [] ->
    (prints (stdout L) lines = Returns tt -> k tt s1 = (o, s) -> Q) ->
    (says L lines ≫= k) s1 = (o, s) -> Q).
  { intros lines k s1 Hs1 Hk. rewrite says_mbind.
    destruct (prints (stdout L) lines) as [[]|e|] eqn:Hlines.
    - by apply Hk.
    - apply Hearly; [done|]. right. right. exists e. split; [done|].
      do 3 right. by eapply prints_raises.
    - apply Hearly; [done|]. right. by left. }
  apply Hsays; [done|]. intros _.
  assert (Hrest : forall (package_name : option string) (s1 : state World),
    trace s1 = [] ->
    (forall name, package_name = Some name -> package_source L F args project_path name) ->
    (if negb (truthy package_name) then
       _ ← says L [[RED; Str "Error: Could not detect package name"; NC];
                   [YELLOW; Str "Use --package-name to specify manually"; NC]];
       mret 1%Z
     else
     _ ← says L [[BLUE; Str "Package: "; Str (str package_name); NC]];
     aab_path ← find_aab_file F project_path;
     if negb (truthy aab_path) then
       _ ← says L [[RED; Str "Error: No AAB file found"; NC];
                   [YELLOW; Str "Run 'flutter build appbundle --release' first"; NC]];
       mret 1%Z
     else
     _ ← says L [[BLUE; Str "AAB: "; Str (os_path_basename (str aab_path)); NC]; []];
     success ← upload_to_google_play L SERVICE_ACCOUNT_FILE fuel (str package_name)
                 (str aab_path) (Namespace.track args) (Namespace.rollout args)
                 (Namespace.release_notes args) (Namespace.draft args);
     mret (if success : bool then 0 else 1)%Z) s1 = (o, s) -> Q).
  { intros package_name s1 Hs1 Hsource.
    destruct (truthy package_name) eqn:Hname; cbn [negb].
    2:{ apply Hsays; [done|]. intros _. apply Hearly; [done|]. by left. }
    apply truthy_Some in Hname as (name & -> & Hname).
    apply Hsays; [done|]. intros _.
    unfold mbind at 1, M_bind at 1.
    pose proof (find_aab_file_trace F project_path s1) as Htrace.
    destruct (find_aab_file F project_path s1) as [[aab_path|e|] s2] eqn:Hfind;
      cbn [snd] in Htrace; rewrite Hs1 in Htrace.
    2:{ apply Hearly; [done|]. right. right. exists e. split; [done|].
        right. right. left. by eapply find_aab_file_raises. }
    2:{ apply Hearly; [done|]. right. by left. }
    destruct (truthy aab_path) eqn:Hpath; cbn [negb].
    2:{ apply Hsays; [done|]. intros _. apply Hearly; [done|]. by left. }
    apply truthy_Some in Hpath as (path & -> & Hpath).
    apply find_aab_file_elem in Hfind.
    apply Hsays; [done|]. intros _.
    destruct s2 as [w2 t2]. cbn [trace] in Htrace. subst t2.
    unfold mbind, M_bind. cbn [str default].
    destruct (upload_to_google_play _ _ _ _ _ _ _ _ _ _) as [o' s'] eqn:Hupload.
    intros Ho. right. exists project_path, name, path, (world s1), w2, o'.
    split; [done|]. do 3 (split; [by auto|]). split; [done|].
    destruct o' as [[]| |]; injection Ho as <- <-; done. }
  destruct (truthy (Namespace.package_name args)) eqn:Hgiven.
  - unfold mbind at 1, M_bind at 1, mret at 1, M_ret at 1.
    apply Hrest; [done|]. intros name Hname. by left.
  - unfold mbind at 1, M_bind at 1.
    pose proof (get_package_name_trace L F project_path (State w [])) as Htrace.
    destruct (get_package_name L F project_path (State w [])) as [[name|e|] s1] eqn:Hget;
      cbn [snd trace] in Htrace.
    2:{ apply Hearly; [done|]. right. right. exists e. split; [done|].
        right. right. left. by eapply get_package_name_raises. }
    2:{ apply Hearly; [done|]. right. by left. }
    apply Hrest; [done|]. intros name' ->. right. split; [done|].
    by eapply get_package_name_Some.
Qed.

Lemma exit_status_0 o : exit_status o = Returns 0%Z <-> o = Returns true.
Proof. destruct o as [[]| |]; split; done. Qed.

(** *** With [--package-name] *)

Lemma max_getmtime_reading open_read' items : forall maxitem maxval (s : state World),
  max_getmtime (reading F open_read') maxitem maxval items s
  = max_getmtime F maxitem maxval items s.
Proof.
  induction items as [|item items IH]; intros maxitem maxval s;
    cbn [max_getmtime]; [done|].
  unfold mbind, M_bind, consult. cbn [reading os_path_getmtime].
  destruct (os_path_getmtime F item (world s)) as [[val|e|] w]; [|done..].
  destruct (maxval <? val)%float; apply IH.
Qed.

Lemma find_aab_file_reading open_read' project_path (s : state World) :
  find_aab_file (reading F open_read') project_path s = find_aab_file F project_path s.
Proof.
  unfold find_aab_file, mbind, M_bind, consult. cbn [reading glob_glob os_path_getmtime].
  destruct (glob_glob F _ (world s)) as [[|item items] w]; [done|].
  cbn [world trace].
  destruct (os_path_getmtime F item w) as [[val|e|] w1]; [|done..].
  by rewrite max_getmtime_reading.
Qed.
End Main.

(** ** The rest of the script against the test double *)

(** The Groovy way of naming the application id is not an assignment, the
    Kotlin way is, and the two quotes need not be of the same kind. *)
Example groovy_application_id : Re.search applicationId_re build_gradle = None.
Proof. vm_compute. reflexivity. Qed.

Example kotlin_application_id :
  Re.search applicationId_re build_gradle_kts ≫= Re.group 1 = Some "com.example.app".
Proof. vm_compute. reflexivity. Qed.

Example mixed_quotes :
  Re.search applicationId_re ("applicationId: 'com.example" +:+ String "034" "")
    ≫= Re.group 1
  = Some "com.example".
Proof. vm_compute. reflexivity. Qed.

Example manifest_package :
  Re.search package_re AndroidManifest_xml ≫= Re.group 1 = Some "com.example.manifest".
Proof. vm_compute. reflexivity. Qed.

(** Of two bundles of the same age, the first that [glob] lists. *)
Example newest_bundle :
  (find_aab_file (mounted disk bundles) "/work/app" (State two_chunks [])).1
  = Returns (Some "/work/app/build/app/outputs/bundle/release/app-release.aab").
Proof. vm_compute. reflexivity. Qed.

Example main_publishes :
  let result :=
    main (installed disk) (mounted disk bundles) "service-account.json" 5
      (State two_chunks []) in
  result.1 = Returns 0%Z /\ remote_ops (trace result.2) = protocol 2.
Proof. vm_compute. by split. Qed.

Example main_without_bundle :
  main (installed disk) (mounted disk []) "service-account.json" 5 (State two_chunks [])
  = (Returns 1%Z, State two_chunks []).
Proof. vm_compute. reflexivity. Qed.

Example main_without_package_name :
  main (installed ∅) (mounted ∅ bundles) "service-account.json" 5 (State two_chunks [])
  = (Returns 1%Z, State two_chunks []).
Proof. vm_compute. reflexivity. Qed.

(** [-h] and a command line without a version: [parse_args] ends the
    run, with status 0 and with status 2. *)
Example main_help :
  main (installed disk) (invoked Help (mounted disk bundles)) "service-account.json" 5
    (State two_chunks [])
  = (Returns 0%Z, State two_chunks []).
Proof. vm_compute. reflexivity. Qed.

Example main_usage :
  main (installed disk) (invoked Usage (mounted disk bundles)) "service-account.json" 5
    (State two_chunks [])
  = (Returns 2%Z, State two_chunks []).
Proof. vm_compute. reflexivity. Qed.

(** On a console whose encoding has no bar the banner raises, before any
    file is read; and in a current directory that is gone
    [os.path.abspath] raises before the banner. *)
Example main_latin1 :
  main (on_console latin1 (installed disk)) (mounted disk bundles) "service-account.json"
    5 (State two_chunks [])
  = (Raises UnicodeEncodeError, State two_chunks []).
Proof. vm_compute. reflexivity. Qed.

Example main_adrift :
  main (on_console latin1 (installed disk)) (adrift (mounted disk bundles))
    "service-account.json" 5 (State two_chunks [])
  = (Raises (Exception "[Errno 2] No such file or directory"), State two_chunks []).
Proof. vm_compute. reflexivity. Qed.

(** * Properties of the rest of the script *)

(** X1. Line 87 finds the first application id assignment of the text:
    [re.search] with the pattern of [build.gradle] and group 1 of the match
    give [name] exactly when [name] is what the leftmost piece of the text
    of the form [applicationId], optional white space, [=] or [:], optional
    white space, quote, name, quote assigns, where the two quotes may be of
    different kinds and the name is a non-empty run of characters that are
    no quotes; and the search finds nothing exactly when the text has no
    such piece. *)
Theorem applicationId_search_first_assignment (content : string) :
  (forall name,
     Re.search applicationId_re content ≫= Re.group 1 = Some name <->
     first_in assignment content name) /\
  (Re.search applicationId_re content = None <->
   forall pre text post name, content = pre +:+ text +:+ post -> ~ assignment name text).
Proof. apply applicationId_search. Qed.

(** X2. Line 97 finds the first [package] attribute of the manifest:
    [re.search] with the pattern of [AndroidManifest.xml] and group 1 of
    the match give [name] exactly when [name] is the value of the leftmost
    piece of the text of the form [package=], double quote, name, double
    quote, with a non-empty name that holds no double quote; and the search
    finds nothing exactly when the text has no such piece. *)
Theorem package_search_first_attribute (content : string) :
  (forall name,
     Re.search package_re content ≫= Re.group 1 = Some name <->
     first_in package_attribute content name) /\
  (Re.search package_re content = None <->
   forall pre text post name,
     content = pre +:+ text +:+ post -> ~ package_attribute name text).
Proof. apply package_search. Qed.

(** X3. A package name that [get_package_name] returns is never the empty
    string and never holds a double quote: when the function does not
    return [None], the test [if not package_name] of [main] passes. *)
Theorem get_package_name_well_formed {World : Type} (L : Library World)
    (F : Files World) (project_path : string) (s s' : state World) (name : string) :
  get_package_name L F project_path s = (Returns (Some name), s') ->
  name <> "" /\ Re.all (Re.none_of ["034"]%char) name = true.
Proof.
  assert (Hassignment : forall name text, assignment name text ->
            name <> "" /\ Re.all (Re.none_of ["034"]%char) name = true).
  { intros name' text (ws1 & sep & ws2 & q1 & q2 & _ & _ & _ & _ & _ & _ & Hne & Hname).
    split; [done|]. by apply all_none_of_quotes. }
  intros [Hfrom|[Hfrom|Hfrom]]%get_package_name_Some.
  - by eapply read_from_well_formed.
  - by eapply read_from_well_formed.
  - eapply read_from_well_formed; [|done]. by intros name' text (_ & Hne & Hname).
Qed.

Lemma get_package_name_well_formed_witness :
  "com.example.app" <> "" /\ Re.all (Re.none_of ["034"]%char) "com.example.app" = true.
Proof.
  apply (get_package_name_well_formed (installed disk) (mounted disk bundles) "/work/app"
           (State two_chunks []) (State two_chunks [])).
  vm_compute. reflexivity.
Defined.

(** X4. A package name that [get_package_name] returns was read from one
    of the three files it knows, which was there and could be read:
    [android/app/build.gradle] or [android/app/build.gradle.kts] under the
    project path, of which it is the first application id assignment, or
    [android/app/src/main/AndroidManifest.xml], of which it is the first
    [package] attribute. *)
Theorem get_package_name_source {World : Type} (L : Library World) (F : Files World)
    (project_path : string) (s s' : state World) (name : string) :
  get_package_name L F project_path s = (Returns (Some name), s') ->
  read_from L F assignment (gradle_path project_path) name \/
  read_from L F assignment (gradle_kts_path project_path) name \/
  read_from L F package_attribute (manifest_path project_path) name.
Proof. apply get_package_name_Some. Qed.

Lemma get_package_name_source_witness :
  read_from (installed disk) (mounted disk bundles) assignment
    (gradle_path "/work/app") "com.example.app" \/
  read_from (installed disk) (mounted disk bundles) assignment
    (gradle_kts_path "/work/app") "com.example.app" \/
  read_from (installed disk) (mounted disk bundles) package_attribute
    (manifest_path "/work/app") "com.example.app".
Proof.
  apply (get_package_name_source (installed disk) (mounted disk bundles) "/work/app"
           (State two_chunks []) (State two_chunks [])).
  vm_compute. reflexivity.
Defined.

(** X5. The order of precedence of [get_package_name], on a file system
    where every file that is there can be read and reading changes nothing:
    the first assignment of [build.gradle] wins; when [build.gradle] is
    missing or assigns nothing, the first assignment of [build.gradle.kts]
    does; when both are missing or assign nothing, the first [package]
    attribute of the manifest does; and when all three are missing or name
    nothing, the result is [None]. A gradle file that is there but assigns
    nothing does not end the search. *)
Theorem get_package_name_precedence {World : Type} (L : Library World)
    (F : Files World) (project_path : string) (w : World) (t : list event)
    (content : string -> string) :
  (forall path, os_path_exists L path w = true ->
                open_read F path w = (Returns (content path), w)) ->
  let found name :=
    get_package_name L F project_path (State w t) = (Returns name, State w t) in
  let gradle := gradle_path project_path in
  let gradle_kts := gradle_kts_path project_path in
  let manifest := manifest_path project_path in
  (forall name, declares L w content assignment gradle name -> found (Some name)) /\
  (forall name,
     silent L w content assignment gradle ->
     declares L w content assignment gradle_kts name -> found (Some name)) /\
  (forall name,
     silent L w content assignment gradle -> silent L w content assignment gradle_kts ->
     declares L w content package_attribute manifest name -> found (Some name)) /\
  (silent L w content assignment gradle -> silent L w content assignment gradle_kts ->
   silent L w content package_attribute manifest -> found None).
Proof.
  intros quiet found gradle gradle_kts manifest. unfold found, get_package_name.
  fold gradle gradle_kts. repeat split.
  - intros name Hgradle. by apply (for_gradle_paths_declares L F w content quiet).
  - intros name Hgradle Hkts.
    rewrite (for_gradle_paths_silent L F w content quiet) by done.
    by apply (for_gradle_paths_declares L F w content quiet).
  - intros name Hgradle Hkts Hmanifest.
    rewrite !(for_gradle_paths_silent L F w content quiet) by done.
    by apply (manifest_package_name_declares L F w content quiet).
  - intros Hgradle Hkts Hmanifest.
    rewrite !(for_gradle_paths_silent L F w content quiet) by done.
    by apply (manifest_package_name_silent L F w content quiet).
Qed.

Lemma get_package_name_precedence_witness :
  get_package_name (installed disk) (mounted disk bundles) "/work/app"
    (State two_chunks [])
  = (Returns (Some "com.example.app"), State two_chunks []).
Proof.
  destruct (get_package_name_precedence (installed disk) (mounted disk bundles)
              "/work/app" two_chunks [] (fun path => default "" (disk !! path)))
    as (_ & Hkts & _).
  - intros path. unfold installed, mounted. cbn [os_path_exists open_read].
    by destruct (disk !! path).
  - apply Hkts.
    + right. apply applicationId_search. vm_compute. reflexivity.
    + split; [vm_compute; reflexivity|].
      apply applicationId_search. vm_compute. reflexivity.
Defined.

(** X6. [find_aab_file] returns the most recently modified of the files
    [glob] lists, and the first of them in the order of the listing when
    several are as recent: when the listing is not empty and every file in
    it has a modification time, the file returned stands somewhere in the
    listing, every file before it is strictly older and no file after it is
    newer. *)
Theorem find_aab_file_most_recent {World : Type} (F : Files World)
    (project_path : string) (w w1 w2 : World) (t : list event)
    (files : list string) (times : list float) :
  glob_glob F (aab_pattern project_path) w = (files, w1) ->
  stats F w1 files times w2 ->
  files <> [] ->
  exists path mtime before earlier after later,
    find_aab_file F project_path (State w t) = (Returns (Some path), State w2 t) /\
    files = before ++ path :: after /\
    times = earlier ++ mtime :: later /\
    length earlier = length before /\
    Forall (later_than mtime) earlier /\ Forall (not_before mtime) later.
Proof. apply find_aab_file_newest. Qed.

Lemma find_aab_file_most_recent_witness :
  exists path mtime before earlier after later,
    find_aab_file (mounted disk bundles) "/work/app" (State two_chunks [])
    = (Returns (Some path), State two_chunks []) /\
    bundles.*1 = before ++ path :: after /\
    [1700000000; 1700000600; 1700000600]%float = earlier ++ mtime :: later /\
    length earlier = length before /\
    Forall (later_than mtime) earlier /\ Forall (not_before mtime) later.
Proof.
  apply (find_aab_file_most_recent (mounted disk bundles) "/work/app" two_chunks
           two_chunks two_chunks).
  - reflexivity.
  - repeat (eapply stats_cons; [vm_compute; reflexivity|]). apply stats_nil.
  - done.
Defined.

(** X7. [find_aab_file] does not skip a file it cannot look at: when
    [os.path.getmtime] raises on one of the files [glob] listed, the
    modification times of the files before it having been read, the
    exception leaves [find_aab_file], whatever the files after it are. *)
Theorem find_aab_file_stat_error {World : Type} (F : Files World)
    (project_path : string) (w w1 w2 w3 : World) (t : list event)
    (before after : list string) (path : string) (times : list float) (e : exn) :
  glob_glob F (aab_pattern project_path) w = (before ++ path :: after, w1) ->
  stats F w1 before times w2 ->
  os_path_getmtime F path w2 = (Raises e, w3) ->
  find_aab_file F project_path (State w t) = (Raises e, State w3 t).
Proof.
  intros Hglob Hstats Hstat.
  unfold find_aab_file, mbind at 1, M_bind at 1, consult at 1.
  fold (aab_pattern project_path). cbn [world trace]. rewrite Hglob.
  destruct Hstats as [|w1 item val w1' items times w2 Hitem Hstats].
  - cbn [app]. unfold mbind, M_bind, consult. cbn [world trace]. by rewrite Hstat.
  - cbn [app]. unfold mbind at 1, M_bind at 1, consult at 1. cbn [world trace].
    rewrite Hitem. unfold mbind, M_bind.
    by rewrite (max_getmtime_raises F items times w1' w2 path after e w3 item val t).
Qed.

Lemma find_aab_file_stat_error_witness :
  find_aab_file (mounted disk vanished) "/work/app" (State two_chunks [])
  = (Raises (Exception "FileNotFoundError"), State two_chunks []).
Proof.
  apply (find_aab_file_stat_error (mounted disk vanished) "/work/app" two_chunks
           two_chunks two_chunks two_chunks []
           ["/work/app/build/app/outputs/bundle/release/app-old.aab"]
           ["/work/app/build/app/outputs/bundle/release/app-release.aab"]
           "/work/app/build/app/outputs/bundle/release/app-gone.aab"
           [1700000000%float]).
  - reflexivity.
  - eapply stats_cons; [vm_compute; reflexivity|]. apply stats_nil.
  - vm_compute. reflexivity.
Defined.

(** X8. Every call of a run of [upload_to_google_play] that names a
    package names the [package_name] the function was given, and every call
    that names a bundle file names its [aab_path]. *)
Theorem upload_to_google_play_arguments {World : Type} (L : Library World)
    (SERVICE_ACCOUNT_FILE package_name aab_path track : string)
    (rollout_percentage : float) (release_notes : string) (draft : bool)
    (fuel : nat) (w : World) :
  let result :=
    upload_to_google_play L SERVICE_ACCOUNT_FILE fuel package_name aab_path track
      rollout_percentage release_notes draft (State w []) in
  Forall (fun e => (forall p, package_of e = Some p -> p = package_name) /\
                   (forall q, bundle_of e = Some q -> q = aab_path))
    (trace result.2).
Proof. apply upload_to_google_play_events. Qed.

(** X9. A run of [upload_to_google_play] works on one edit: the edit id of
    any call that carries one (the upload request, every chunk, the track
    update, the commit) is the value of ['id'] in the answer to the
    [edits().insert] call of the same run, and any two calls carry the same
    id. *)
Theorem upload_to_google_play_one_edit {World : Type} (L : Library World)
    (SERVICE_ACCOUNT_FILE package_name aab_path track : string)
    (rollout_percentage : float) (release_notes : string) (draft : bool)
    (fuel : nat) (w : World) (e : event) (id : pyval) :
  let result :=
    upload_to_google_play L SERVICE_ACCOUNT_FILE fuel package_name aab_path track
      rollout_percentage release_notes draft (State w []) in
  e ∈ trace result.2 -> edit_id_of e = Some id ->
  (exists edit,
     Call (EditsInsert ∅ package_name) (Returns (Body edit)) ∈ trace result.2 /\
     edit !! "id" = Some id) /\
  (forall e' id', e' ∈ trace result.2 -> edit_id_of e' = Some id' -> id' = id).
Proof.
  intros result. subst result.
  destruct (upload_to_google_play _ _ _ _ _ _ _ _ _ _) as [o s] eqn:Hupload.
  cbn [fst snd].
  apply upload_to_google_play_cases in Hupload as [[_ ->]|[_ Hrun]].
  - by intros ?%elem_of_nil.
  - by eapply run_edit_id.
Qed.

Lemma upload_to_google_play_one_edit_witness :
  let result := demo 100 "production" false in
  (exists edit,
     Call (EditsInsert ∅ "com.example.app") (Returns (Body edit)) ∈ trace result.2 /\
     edit !! "id" = Some (PyStr "edit-1")) /\
  (forall e' id', e' ∈ trace result.2 -> edit_id_of e' = Some id' -> id' = PyStr "edit-1").
Proof.
  apply (upload_to_google_play_one_edit (scripted true) "service-account.json"
           "com.example.app" "app-release.aab" "production" 100
           "Bug fixes and improvements" false 5 two_chunks
           (Call (EditsCommit "com.example.app" (PyStr "edit-1")) (Returns Object))).
  - vm_compute. repeat (first [by apply list_elem_of_here|apply list_elem_of_further]).
  - reflexivity.
Defined.








(** X14. [main] publishes what it found, and nothing when it found
    nothing: when a run of [main] makes any call of the publishing
    transaction, [parse_args] has handed over a namespace, the project path
    has been made absolute, and there are a package name and a bundle path,
    neither of them empty, such that the name is the one given with
    [--package-name] or, when none or an empty one was given, one read from
    the gradle files or the manifest of the project; the path is one of the
    files [glob] listed for [build/app/outputs/bundle/release/*.aab] under
    the project path; and every call that names a package or a bundle names
    these. *)
Theorem main_publishes_what_it_found {World : Type} (L : Library World)
    (F : Files World) (SERVICE_ACCOUNT_FILE : string) (fuel : nat) (w : World) :
  let result := main L F SERVICE_ACCOUNT_FILE fuel (State w []) in
  trace result.2 <> [] ->
  exists args project_path name path w0,
    parse_args F w = Returns (Parsed args) /\
    os_path_abspath F (Namespace.project_path args) w = Returns project_path /\
    name <> "" /\ package_source L F args project_path name /\
    path <> "" /\ path ∈ (glob_glob F (aab_pattern project_path) w0).1 /\
    Forall (fun e => (forall p, package_of e = Some p -> p = name) /\
                     (forall q, bundle_of e = Some q -> q = path))
      (trace result.2).
Proof.
  intros result. subst result.
  destruct (main L F SERVICE_ACCOUNT_FILE fuel (State w [])) as [o s] eqn:Hmain.
  cbn [snd].
  apply main_cases in Hmain as [[Hnil _]|(args & Hparse & [[Hnil _]|Hupload])];
    [done..|].
  destruct Hupload as (project_path & name & path & w0 & w' & o' & Habs & Hname
                       & Hsource & Hpath & Hglob & Hupload & _).
  intros _. exists args, project_path, name, path, w0. do 6 (split; [done|]).
  pose proof (upload_to_google_play_events L SERVICE_ACCOUNT_FILE name path
                (Namespace.track args) (Namespace.rollout args)
                (Namespace.release_notes args) (Namespace.draft args) fuel w') as Hall.
  by rewrite Hupload in Hall.
Qed.

Lemma main_publishes_what_it_found_witness :
  let result :=
    main (installed disk) (mounted disk bundles) "service-account.json" 5
      (State two_chunks []) in
  exists args project_path name path w0,
    parse_args (mounted disk bundles) two_chunks = Returns (Parsed args) /\
    os_path_abspath (mounted disk bundles) (Namespace.project_path args) two_chunks
    = Returns project_path /\
    name <> "" /\
    package_source (installed disk) (mounted disk bundles) args project_path name /\
    path <> "" /\
    path ∈ (glob_glob (mounted disk bundles) (aab_pattern project_path) w0).1 /\
    Forall (fun e => (forall p, package_of e = Some p -> p = name) /\
                     (forall q, bundle_of e = Some q -> q = path))
      (trace result.2).
Proof.
  apply (main_publishes_what_it_found (installed disk) (mounted disk bundles)
           "service-account.json" 5 two_chunks).
  vm_compute. done.
Defined.

(** X15. The percentages the upload loop prints are between 0 and 100: in a
    run of [upload_to_google_play] where every status the client library
    reports has a progress between 0.0 and 1.0, every progress line
    carries an integer between 0 and 100. *)
Theorem upload_to_google_play_progress_percent {World : Type} (L : Library World)
    (SERVICE_ACCOUNT_FILE package_name aab_path track : string)
    (rollout_percentage : float) (release_notes : string) (draft : bool)
    (fuel : nat) (w : World) :
  let result :=
    upload_to_google_play L SERVICE_ACCOUNT_FILE fuel package_name aab_path track
      rollout_percentage release_notes draft (State w []) in
  Forall (fun e => forall status, status_of e = Some status ->
                     (0 <=? progress status)%float = true /\
                     (progress status <=? 1)%float = true)
    (trace result.2) ->
  Forall (fun e => forall percent, e = Progress percent -> (0 <= percent <= 100)%Z)
    (trace result.2).
Proof.
  intros result. subst result.
  destruct (upload_to_google_play _ _ _ _ _ _ _ _ _ _) as [o s] eqn:Hupload.
  cbn [snd]. intros Hstatus.
  apply upload_to_google_play_cases in Hupload as [[_ Hnil]|[_ Hrun]].
  { rewrite Hnil. constructor. }
  apply Forall_forall. intros ? Hin percent ->.
  destruct (run_reported _ _ _ _ _ _ _ _ _ _ _ _ Hrun Hin) as (e & status & He & Hst & Hint).
  rewrite Forall_forall in Hstatus. destruct (Hstatus e He status Hst) as [H0 H1].
  destruct (PercentFacts.int_percent _ H0 H1) as (percent' & Hint' & Hrange).
  rewrite Hint in Hint'. by injection Hint' as ->.
Qed.

Lemma upload_to_google_play_progress_percent_witness :
  Forall (fun e => forall percent, e = Progress percent -> (0 <= percent <= 100)%Z)
    (trace (demo 100 "production" false).2).
Proof.
  apply (upload_to_google_play_progress_percent (scripted true) "service-account.json"
           "com.example.app" "app-release.aab" "production" 100
           "Bug fixes and improvements" false 5 two_chunks).
  vm_compute.
  repeat (apply Forall_cons; split;
          [intros status Hstatus; try discriminate Hstatus;
           injection Hstatus as <-; split; reflexivity|]).
  apply Forall_nil_2.
Defined.

(** X16. A run of [upload_to_google_play] that returns [True] went through
    the whole protocol: its remote operations are the opening of the edit,
    one or more upload chunks, the track update and the commit, in this
    order and nothing else, and every call of the run succeeded. *)
Theorem upload_to_google_play_success {World : Type} (L : Library World)
    (SERVICE_ACCOUNT_FILE package_name aab_path track : string)
    (rollout_percentage : float) (release_notes : string) (draft : bool)
    (fuel : nat) (w : World) :
  let result :=
    upload_to_google_play L SERVICE_ACCOUNT_FILE fuel package_name aab_path track
      rollout_percentage release_notes draft (State w []) in
  result.1 = Returns true ->
  Forall (fun e => succeeded e = true) (trace result.2) /\
  exists k, remote_ops (trace result.2) = protocol (S k).
Proof.
  intros result. subst result.
  destruct (upload_to_google_play _ _ _ _ _ _ _ _ _ _) as [o s] eqn:Hupload.
  cbn [fst snd]. intros ->.
  apply upload_to_google_play_cases in Hupload as [[? _]|[_ Hrun]]; [done|].
  by eapply run_succeeds.
Qed.

Lemma upload_to_google_play_success_witness :
  let result := demo 100 "production" false in
  Forall (fun e => succeeded e = true) (trace result.2) /\
  exists k, remote_ops (trace result.2) = protocol (S k).
Proof.
  apply (upload_to_google_play_success (scripted true) "service-account.json"
           "com.example.app" "app-release.aab" "production" 100
           "Bug fixes and improvements" false 5 two_chunks).
  reflexivity.
Defined.



(** X18. With a package name on the command line that is not empty,
    [main] reads no file of the project: whatever reading a file would
    answer, the run is the same. *)
Theorem main_package_name_override {World : Type} (L : Library World)
    (F : Files World) (SERVICE_ACCOUNT_FILE : string) (fuel : nat)
    (args : Namespace.t) (name : string)
    (open_read' : string -> World -> outcome string * World) (s : state World) :
  parse_args F (world s) = Returns (Parsed args) ->
  Namespace.package_name args = Some name -> name <> "" ->
  main L (reading F open_read') SERVICE_ACCOUNT_FILE fuel s
  = main L F SERVICE_ACCOUNT_FILE fuel s.
Proof.
  intros Hparse Hargs Hname. unfold main. cbn [reading parse_args os_path_abspath].
  rewrite Hparse, Hargs. destruct name as [|c name]; [done|]. cbn [truthy negb].
  apply mbind_ext. intros project_path s1.
  apply mbind_ext. intros _ s2.
  apply mbind_ext. intros package_name s3.
  destruct (negb (truthy package_name)); [done|].
  apply mbind_ext. intros _ s4.
  unfold mbind, M_bind. by rewrite find_aab_file_reading.
Qed.

Lemma main_package_name_override_witness :
  main (installed disk)
    (reading (invoked (Parsed overriding) (mounted disk bundles))
       (fun _ w => (Raises (Exception "PermissionError"), w)))
    "service-account.json" 5 (State two_chunks [])
  = main (installed disk) (invoked (Parsed overriding) (mounted disk bundles))
      "service-account.json" 5 (State two_chunks []).
Proof.
  apply (main_package_name_override (installed disk)
           (invoked (Parsed overriding) (mounted disk bundles))
           "service-account.json" 5 overriding "com.example.override").
  - reflexivity.
  - reflexivity.
  - done.
Defined.
